(** * pacman4k: the simulation core of the 256-level maze-chase game

    A shallow embedding of [src/pacman4k.py] (level table, movement
    controller, ghost targeting, collision and scoring, game phases) and
    the properties of it that the design document states.

    Conventions of the embedding.
    - Entity coordinates and directions are Python [int]s throughout the
      program (spawn cells are integer literals and every update adds an
      integer direction), so they are [Z]; [int(x)] is the identity on them.
    - Speeds and move accumulators are Python floats, i.e. IEEE binary64:
      they are Rocq's primitive [float]s, with the same rounding.
    - A Python exception is [Raise]; a [while] loop carries fuel and
      raises [OutOfFuel] when the fuel does not suffice.
    - [random.shuffle] is an oracle on an abstract generator state.
    - Sound playback and drawing are left out: they read the state and
      never write it. *)

From Stdlib Require Import ZArith Floats Lia.
From stdpp Require Import base list strings.

Set Warnings "-inexact-float".
Local Open Scope Z_scope.

(** ** Exceptions and loops *)

Inductive exn : Set := IndexError | KeyError | OverflowError | OutOfFuel.

Inductive result (A : Type) : Type :=
| Ok (a : A)
| Raise (e : exn).
Arguments Ok {A} a.
Arguments Raise {A} e.

Definition bind {A B} (m : result A) (f : A -> result B) : result B :=
  match m with
  | Ok a => f a
  | Raise e => Raise e
  end.

Notation "'let*' x ':=' m 'in' k" := (bind m (fun x => k))
  (at level 10, x name, m at level 100, k at level 200).
Notation "'let*' ' pat ':=' m 'in' k" := (bind m (fun pat => k))
  (at level 10, pat pattern, m at level 100, k at level 200).

(** [len(l)] and [l[i]] of a Python list, negative indices included. *)
Definition len {A} (l : list A) : Z := Z.of_nat (length l).

Definition py_index {A} (l : list A) (i : Z) : result A :=
  let j := if i <? 0 then i + len l else i in
  if j <? 0 then Raise IndexError
  else match l !! Z.to_nat j with
       | Some a => Ok a
       | None => Raise IndexError
       end.

(** [l[i] = v] for an index already known to be in range. *)
Definition py_store {A} (l : list A) (i : Z) (v : A) : list A :=
  <[Z.to_nat i := v]> l.

(** ** Maze grid *)

Definition WALL : Z := 1.
Definition EMPTY : Z := 0.
Definition PELLET : Z := 2.
Definition POWER_PELLET : Z := 3.
Definition DOOR : Z := 4.
Definition FRUIT_SPOT : Z := 5.

Definition MAZE : list (list Z) := [
  [1;1;1;1;1;1;1;1;1;1;1;1;1;1;1;1;1;1;1;1;1;1;1;1;1;1;1;1];
  [1;2;2;2;2;2;2;2;2;2;2;2;2;1;1;2;2;2;2;2;2;2;2;2;2;2;2;1];
  [1;3;1;1;1;1;2;1;1;1;1;1;2;1;1;2;1;1;1;1;1;2;1;1;1;1;3;1];
  [1;2;1;1;1;1;2;1;1;1;1;1;2;1;1;2;1;1;1;1;1;2;1;1;1;1;2;1];
  [1;2;2;2;2;2;2;2;2;2;2;2;2;2;2;2;2;2;2;2;2;2;2;2;2;2;2;1];
  [1;2;1;1;1;1;2;1;1;2;1;1;1;1;1;1;1;1;2;1;1;2;1;1;1;1;2;1];
  [1;2;2;2;2;2;2;1;1;2;2;2;2;1;1;2;2;2;2;1;1;2;2;2;2;2;2;1];
  [1;1;1;1;1;1;2;1;1;1;1;1;0;1;1;0;1;1;1;1;1;2;1;1;1;1;1;1];
  [0;0;0;0;0;1;2;1;1;1;1;1;0;1;1;0;1;1;1;1;1;2;1;0;0;0;0;0];
  [0;0;0;0;0;1;2;1;1;0;0;0;0;0;0;0;0;0;0;1;1;2;1;0;0;0;0;0];
  [0;0;0;0;0;1;2;1;1;0;1;1;1;4;4;1;1;1;0;1;1;2;1;0;0;0;0;0];
  [1;1;1;1;1;1;2;1;1;0;1;0;0;0;0;0;0;1;0;1;1;2;1;1;1;1;1;1];
  [0;0;0;0;0;0;2;0;0;0;1;0;0;0;0;0;0;1;0;0;0;2;0;0;0;0;0;0];
  [1;1;1;1;1;1;2;1;1;0;1;0;0;0;0;0;0;1;0;1;1;2;1;1;1;1;1;1];
  [0;0;0;0;0;1;2;1;1;0;1;1;1;1;1;1;1;1;0;1;1;2;1;0;0;0;0;0];
  [0;0;0;0;0;1;2;1;1;0;0;0;0;5;5;0;0;0;0;1;1;2;1;0;0;0;0;0];
  [0;0;0;0;0;1;2;1;1;0;1;1;1;1;1;1;1;1;0;1;1;2;1;0;0;0;0;0];
  [1;1;1;1;1;1;2;1;1;0;1;1;1;1;1;1;1;1;0;1;1;2;1;1;1;1;1;1];
  [1;2;2;2;2;2;2;2;2;2;2;2;2;1;1;2;2;2;2;2;2;2;2;2;2;2;2;1];
  [1;2;1;1;1;1;2;1;1;1;1;1;2;1;1;2;1;1;1;1;1;2;1;1;1;1;2;1];
  [1;3;2;2;1;1;2;2;2;2;2;2;2;0;0;2;2;2;2;2;2;2;1;1;2;2;3;1];
  [1;1;1;2;1;1;2;1;1;2;1;1;1;1;1;1;1;1;2;1;1;2;1;1;2;1;1;1];
  [1;2;2;2;2;2;2;1;1;2;2;2;2;1;1;2;2;2;2;1;1;2;2;2;2;2;2;1];
  [1;2;1;1;1;1;1;1;1;1;1;1;2;1;1;2;1;1;1;1;1;1;1;1;1;1;2;1];
  [1;2;2;2;2;2;2;2;2;2;2;2;2;2;2;2;2;2;2;2;2;2;2;2;2;2;2;1];
  [1;1;1;1;1;1;1;1;1;1;1;1;1;1;1;1;1;1;1;1;1;1;1;1;1;1;1;1]
].

(** [len(maze[0])], the width the bounds tests use. *)
Definition width (maze : list (list Z)) : Z :=
  match maze with
  | [] => 0
  | row0 :: _ => len row0
  end.

(** A grid is rectangular when it has a first row and every row has the
    length of that row: the shape of [MAZE] and of every copy of it. *)
Definition rect (maze : list (list Z)) : Prop :=
  maze <> [] /\ Forall (fun row => len row = width maze) maze.

(** The cell code at column [x] of row [y], for indices inside the grid. *)
Definition cell_at (maze : list (list Z)) (x y : Z) : option Z :=
  match maze !! Z.to_nat y with
  | Some row => row !! Z.to_nat x
  | None => None
  end.

Definition in_grid (maze : list (list Z)) (x y : Z) : Prop :=
  0 <= x < width maze /\ 0 <= y < len maze.

(** ** Level configuration *)

(** One entry of [FRUITS]: the reward and the name; the glyph of the
    source tuple is only drawn. *)
Record Fruit := { points : Z; fruit_name : string }.

Definition FRUITS : list Fruit := [
  {| points := 100;  fruit_name := "Cherry" |};
  {| points := 300;  fruit_name := "Strawberry" |};
  {| points := 500;  fruit_name := "Orange" |};
  {| points := 500;  fruit_name := "Orange" |};
  {| points := 700;  fruit_name := "Apple" |};
  {| points := 700;  fruit_name := "Apple" |};
  {| points := 1000; fruit_name := "Melon" |};
  {| points := 1000; fruit_name := "Melon" |};
  {| points := 2000; fruit_name := "Galaxian" |};
  {| points := 2000; fruit_name := "Galaxian" |};
  {| points := 3000; fruit_name := "Bell" |};
  {| points := 3000; fruit_name := "Bell" |};
  {| points := 5000; fruit_name := "Key" |}
].

Record LevelConfig := {
  pac_speed : float;
  ghost_speed : float;
  frightened_time : Z;
  fruit : Fruit
}.

(** The [configs] dictionary: one entry per level 1..21, holding
    pac_speed, ghost_speed and frightened_time. *)
Definition entry (level : Z) (pac ghost : float) (frightened : Z)
  : Z * (float * float * Z) := (level, (pac, ghost, frightened)).

Definition configs : list (Z * (float * float * Z)) := [
  entry 1  0.15 0.12 360;
  entry 2  0.16 0.13 300;
  entry 3  0.16 0.14 240;
  entry 4  0.17 0.15 180;
  entry 5  0.17 0.16 150;
  entry 6  0.18 0.17 120;
  entry 7  0.18 0.18 120;
  entry 8  0.19 0.19 90;
  entry 9  0.19 0.20 60;
  entry 10 0.20 0.21 60;
  entry 11 0.20 0.22 50;
  entry 12 0.21 0.23 40;
  entry 13 0.21 0.24 40;
  entry 14 0.22 0.25 30;
  entry 15 0.22 0.26 30;
  entry 16 0.23 0.27 20;
  entry 17 0.23 0.28 20;
  entry 18 0.24 0.29 10;
  entry 19 0.24 0.30 10;
  entry 20 0.25 0.31 5;
  entry 21 0.25 0.32 0
].

(** [configs.get(level, default)]. *)
Fixpoint dict_get {V} (d : list (Z * V)) (k : Z) (default : V) : V :=
  match d with
  | [] => default
  | (k', v) :: d' => if k' =? k then v else dict_get d' k default
  end.

(** [configs[k]]: a missing key raises. *)
Fixpoint dict_item {V} (d : list (Z * V)) (k : Z) : result V :=
  match d with
  | [] => Raise KeyError
  | (k', v) :: d' => if k' =? k then Ok v else dict_item d' k
  end.

Definition kill_screen_config : LevelConfig :=
  {| pac_speed := 0.05; ghost_speed := 0.3; frightened_time := 10;
     fruit := {| points := 0; fruit_name := "KILL SCREEN" |} |}.

Definition get_level_config (level : Z) : result LevelConfig :=
  if level =? 256 then Ok kill_screen_config
  else
    let level := Z.min level 21 in
    let* c21 := dict_item configs 21 in
    let '(pac, ghost, frightened) := dict_get configs level c21 in
    let* fr := (if level <=? 13 then py_index FRUITS (level - 1)
         else py_index FRUITS (-1)) in
    Ok {| pac_speed := pac; ghost_speed := ghost;
          frightened_time := frightened; fruit := fr |}.

(** ** Randomness

    [random.shuffle(directions)] permutes the list with the module-wide
    generator.  The generator is an abstract state [R]; [ShuffleLaw] says
    that a shuffle returns a permutation of its argument. *)

Class Shuffle (R : Type) := shuffle : R -> list (Z * Z) -> list (Z * Z) * R.

Class ShuffleLaw (R : Type) `{Shuffle R} : Prop :=
  shuffle_perm : forall (r : R) (l : list (Z * Z)), (shuffle r l).1 ≡ₚ l.

(** Two generators to run the model with: one that leaves the list as it
    is, and one that reverses it on odd states. *)
#[global] Instance keep_order : Shuffle unit := fun r l => (l, r).
#[global] Instance flip_order : Shuffle nat := fun r l =>
  (if Nat.odd r then reverse l else l, S r).

(** Tuple comparison [d == e] on directions. *)
Definition dir_eqb (d e : Z * Z) : bool := (d.1 =? e.1) && (d.2 =? e.2).

(** [dist < min_dist] where [min_dist] starts as [float('inf')] ([None]). *)
Definition below (dist : Z) (min_dist : option Z) : bool :=
  match min_dist with
  | None => true
  | Some m => dist <? m
  end.

(** ** The player *)

Module PacMan.

Record t := {
  x : Z; y : Z;
  dx : Z; dy : Z;
  next_dx : Z; next_dy : Z;
  speed : float;
  move_accumulator : float;
  anim_counter : Z;
  chomp_sound : bool
}.

(** [PacMan()] *)
Definition init : t :=
  {| x := 14; y := 20; dx := 0; dy := 0; next_dx := 0; next_dy := 0;
     speed := 0.15; move_accumulator := 0; anim_counter := 0;
     chomp_sound := true |}.

Definition set_pos (p : t) (nx ny : Z) : t :=
  {| x := nx; y := ny; dx := dx p; dy := dy p;
     next_dx := next_dx p; next_dy := next_dy p; speed := speed p;
     move_accumulator := move_accumulator p;
     anim_counter := anim_counter p; chomp_sound := chomp_sound p |}.

Definition set_dir (p : t) (ndx ndy : Z) : t :=
  {| x := x p; y := y p; dx := ndx; dy := ndy;
     next_dx := next_dx p; next_dy := next_dy p; speed := speed p;
     move_accumulator := move_accumulator p;
     anim_counter := anim_counter p; chomp_sound := chomp_sound p |}.

Definition set_next (p : t) (ndx ndy : Z) : t :=
  {| x := x p; y := y p; dx := dx p; dy := dy p;
     next_dx := ndx; next_dy := ndy; speed := speed p;
     move_accumulator := move_accumulator p;
     anim_counter := anim_counter p; chomp_sound := chomp_sound p |}.

Definition set_speed (p : t) (s : float) : t :=
  {| x := x p; y := y p; dx := dx p; dy := dy p;
     next_dx := next_dx p; next_dy := next_dy p; speed := s;
     move_accumulator := move_accumulator p;
     anim_counter := anim_counter p; chomp_sound := chomp_sound p |}.

Definition set_accumulator (p : t) (a : float) : t :=
  {| x := x p; y := y p; dx := dx p; dy := dy p;
     next_dx := next_dx p; next_dy := next_dy p; speed := speed p;
     move_accumulator := a;
     anim_counter := anim_counter p; chomp_sound := chomp_sound p |}.

Definition set_chomp (p : t) (c : bool) : t :=
  {| x := x p; y := y p; dx := dx p; dy := dy p;
     next_dx := next_dx p; next_dy := next_dy p; speed := speed p;
     move_accumulator := move_accumulator p;
     anim_counter := anim_counter p; chomp_sound := c |}.

Definition set_anim (p : t) (c : Z) : t :=
  {| x := x p; y := y p; dx := dx p; dy := dy p;
     next_dx := next_dx p; next_dy := next_dy p; speed := speed p;
     move_accumulator := move_accumulator p;
     anim_counter := c; chomp_sound := chomp_sound p |}.

Definition can_move (x y : Z) (maze : list (list Z)) : result bool :=
  if x <? 0 then Ok false else
  let* row0 := py_index maze 0 in
  if x >=? len row0 then Ok false else
  if y <? 0 then Ok false else
  if y >=? len maze then Ok false else
  let* row := py_index maze y in
  let* cell := py_index row x in
  Ok (negb (cell =? 1)).

(** The body of the [while] loop of [update], after the accumulator
    has been decremented: try to turn, then move if possible. *)
Definition step (maze : list (list Z)) (p : t) : result t :=
  let* turn := can_move (x p + next_dx p) (y p + next_dy p) maze in
  let p := if turn then set_dir p (next_dx p) (next_dy p) else p in
  let* go := can_move (x p + dx p) (y p + dy p) maze in
  if go then
    let old_x := x p in
    let old_y := y p in
    let p := set_pos p (x p + dx p) (y p + dy p) in
    if (negb (old_x =? x p) || negb (old_y =? y p))
       && (negb (dx p =? 0) || negb (dy p =? 0))
    then Ok (set_chomp p (negb (chomp_sound p)))
    else Ok p
  else Ok p.

(** [while self.move_accumulator >= 1.0: ...], counting the iterations. *)
Fixpoint drain (fuel : nat) (maze : list (list Z)) (p : t) (steps : nat)
  : result (t * nat) :=
  if (1.0 <=? move_accumulator p)%float then
    match fuel with
    | O => Raise OutOfFuel
    | S fuel' =>
        let p := set_accumulator p (move_accumulator p - 1.0)%float in
        let* p := step maze p in
        drain fuel' maze p (S steps)
    end
  else Ok (p, steps).

(** [update], together with the number of grid steps it attempted. *)
Definition update_counted (fuel : nat) (maze : list (list Z))
    (level_config : LevelConfig) (p : t) : result (t * nat) :=
  let p := set_speed p (pac_speed level_config) in
  let p := set_accumulator p (move_accumulator p + speed p)%float in
  let* '(p, steps) := drain fuel maze p 0%nat in
  Ok (set_anim p (anim_counter p + 1), steps).

Definition update (fuel : nat) (maze : list (list Z))
    (level_config : LevelConfig) (p : t) : result t :=
  let* r := update_counted fuel maze level_config p in Ok r.1.

End PacMan.

(** ** The ghosts *)

Module Ghost.

(** The fields the simulation reads; colour, name and nickname are only
    drawn, and [mode_timer] and [scatter_mode] are never read. *)
Record t := {
  start_x : Z; start_y : Z;
  x : Z; y : Z;
  personality : string;
  dx : Z; dy : Z;
  speed : float;
  move_accumulator : float;
  frightened : bool;
  eaten : bool
}.

(** [Ghost(x, y, color, name, nickname, personality)] *)
Definition make (gx gy : Z) (p : string) : t :=
  {| start_x := gx; start_y := gy; x := gx; y := gy; personality := p;
     dx := 0; dy := 0; speed := 0.12; move_accumulator := 0;
     frightened := false; eaten := false |}.

Definition reset (g : t) : t :=
  {| start_x := start_x g; start_y := start_y g;
     x := start_x g; y := start_y g; personality := personality g;
     dx := 0; dy := -1; speed := speed g; move_accumulator := 0;
     frightened := false; eaten := false |}.

Definition set_pos (g : t) (nx ny : Z) : t :=
  {| start_x := start_x g; start_y := start_y g; x := nx; y := ny;
     personality := personality g; dx := dx g; dy := dy g;
     speed := speed g; move_accumulator := move_accumulator g;
     frightened := frightened g; eaten := eaten g |}.

Definition set_dir (g : t) (d : Z * Z) : t :=
  {| start_x := start_x g; start_y := start_y g; x := x g; y := y g;
     personality := personality g; dx := d.1; dy := d.2;
     speed := speed g; move_accumulator := move_accumulator g;
     frightened := frightened g; eaten := eaten g |}.

Definition set_speed (g : t) (s : float) : t :=
  {| start_x := start_x g; start_y := start_y g; x := x g; y := y g;
     personality := personality g; dx := dx g; dy := dy g;
     speed := s; move_accumulator := move_accumulator g;
     frightened := frightened g; eaten := eaten g |}.

Definition set_accumulator (g : t) (a : float) : t :=
  {| start_x := start_x g; start_y := start_y g; x := x g; y := y g;
     personality := personality g; dx := dx g; dy := dy g;
     speed := speed g; move_accumulator := a;
     frightened := frightened g; eaten := eaten g |}.

Definition set_frightened (g : t) (b : bool) : t :=
  {| start_x := start_x g; start_y := start_y g; x := x g; y := y g;
     personality := personality g; dx := dx g; dy := dy g;
     speed := speed g; move_accumulator := move_accumulator g;
     frightened := b; eaten := eaten g |}.

Definition set_eaten (g : t) (b : bool) : t :=
  {| start_x := start_x g; start_y := start_y g; x := x g; y := y g;
     personality := personality g; dx := dx g; dy := dy g;
     speed := speed g; move_accumulator := move_accumulator g;
     frightened := frightened g; eaten := b |}.

Definition can_move (x y : Z) (maze : list (list Z)) : result bool :=
  if x <? 0 then Ok false else
  let* row0 := py_index maze 0 in
  if x >=? len row0 then Ok false else
  if y <? 0 then Ok false else
  if y >=? len maze then Ok false else
  let* row := py_index maze y in
  let* cell := py_index row x in
  Ok (negb (cell =? 1)).

(** [directions = [(0, -1), (0, 1), (-1, 0), (1, 0)]]: up, down, left,
    right. *)
Definition directions : list (Z * Z) := [(0, -1); (0, 1); (-1, 0); (1, 0)].

(** The [for] loop of [return_to_base]: Manhattan distance to (14, 11)
    over the directions that can be moved to. *)
Fixpoint base_loop (maze : list (list Z)) (g : t) (ds : list (Z * Z))
    (min_dist : option Z) (best_dir : Z * Z) : result (Z * Z) :=
  match ds with
  | [] => Ok best_dir
  | d :: ds' =>
      let nx := x g + d.1 in
      let ny := y g + d.2 in
      let* ok := can_move nx ny maze in
      if ok then
        let dist := Z.abs (nx - 14) + Z.abs (ny - 11) in
        if below dist min_dist
        then base_loop maze g ds' (Some dist) d
        else base_loop maze g ds' min_dist best_dir
      else base_loop maze g ds' min_dist best_dir
  end.

Definition return_to_base (maze : list (list Z)) (g : t) : result t :=
  let* best_dir := base_loop maze g directions None (0, 0) in
  Ok (set_dir g best_dir).

(** The [for ... break] loop of [frightened_move]: the first direction
    of the shuffled list that can be moved to, if there is one. *)
Fixpoint first_open (maze : list (list Z)) (g : t) (ds : list (Z * Z))
  : result (option (Z * Z)) :=
  match ds with
  | [] => Ok None
  | d :: ds' =>
      let* ok := can_move (x g + d.1) (y g + d.2) maze in
      if ok then Ok (Some d) else first_open maze g ds'
  end.

Definition frightened_move {R} `{Shuffle R} (maze : list (list Z))
    (r : R) (g : t) : result (R * t) :=
  let opposite := (- dx g, - dy g) in
  let ds := List.filter (fun d => negb (dir_eqb d opposite)) directions in
  let '(ds, r) := shuffle r ds in
  let* found := first_open maze g ds in
  match found with
  | Some d => Ok (r, set_dir g d)
  | None => Ok (r, g)
  end.

(** The first loop of [ai_move]: the directions other than the
    opposite of the current one whose destination can be moved to. *)
Fixpoint valid_loop (maze : list (list Z)) (g : t) (opposite : Z * Z)
    (ds : list (Z * Z)) : result (list (Z * Z)) :=
  match ds with
  | [] => Ok []
  | d :: ds' =>
      let* ok := (if negb (dir_eqb d opposite)
                  then can_move (x g + d.1) (y g + d.2) maze
                  else Ok false) in
      let* rest := valid_loop maze g opposite ds' in
      Ok (if ok then d :: rest else rest)
  end.

(** The loop each personality runs: squared distance from each
    candidate cell to the target, the first minimum winning. *)
Fixpoint nearest (g : t) (target_x target_y : Z) (ds : list (Z * Z))
    (min_dist : option Z) (best_dir : Z * Z) : Z * Z :=
  match ds with
  | [] => best_dir
  | d :: ds' =>
      let nx := x g + d.1 in
      let ny := y g + d.2 in
      let dist := (nx - target_x) ^ 2 + (ny - target_y) ^ 2 in
      if below dist min_dist
      then nearest g target_x target_y ds' (Some dist) d
      else nearest g target_x target_y ds' min_dist best_dir
  end.

(** Pinky's target: four cells ahead of the player. *)
Definition ambusher_target (pacman : PacMan.t) : Z * Z :=
  (PacMan.x pacman + PacMan.dx pacman * 4,
   PacMan.y pacman + PacMan.dy pacman * 4).

(** Inky's target.  The source takes the player's cell for Blinky's
    ([blinky_x, blinky_y = pacman.x, pacman.y  # Simplified]). *)
Definition fickle_target (pacman : PacMan.t) : Z * Z :=
  let blinky_x := PacMan.x pacman in
  let blinky_y := PacMan.y pacman in
  let pivot_x := PacMan.x pacman + PacMan.dx pacman * 2 in
  let pivot_y := PacMan.y pacman + PacMan.dy pacman * 2 in
  (pivot_x + (pivot_x - blinky_x), pivot_y + (pivot_y - blinky_y)).

(** [dist_to_pac > 8] for [dist_to_pac = math.sqrt(d2)].  [math.sqrt]
    first converts the int [d2] to a float, rounding to nearest, and
    raises [OverflowError] when that reaches [2 ^ 1024], that is from
    [2 ^ 1024 - 2 ^ 970] on.  Below that bound the conversion and the
    square root are monotone and exact on 64 and on 65, so the root
    exceeds 8 exactly when [d2] exceeds 64. *)
Definition sqrt_overflow : Z := 2 ^ 1024 - 2 ^ 970.

Definition far_from (g : t) (pacman : PacMan.t) : result bool :=
  let d2 := (x g - PacMan.x pacman) ^ 2 + (y g - PacMan.y pacman) ^ 2 in
  if sqrt_overflow <=? d2 then Raise OverflowError else Ok (64 <? d2).

Definition ai_move (maze : list (list Z)) (pacman : PacMan.t) (g : t)
  : result t :=
  let opposite := (- dx g, - dy g) in
  let* valid_dirs := valid_loop maze g opposite directions in
  let valid_dirs :=
    match valid_dirs with [] => [opposite] | _ => valid_dirs end in
  let* best_dir := py_index valid_dirs 0 in
  let* best_dir :=
    if String.eqb (personality g) "chaser" then
      Ok (nearest g (PacMan.x pacman) (PacMan.y pacman) valid_dirs None
            best_dir)
    else if String.eqb (personality g) "ambusher" then
      let target := ambusher_target pacman in
      Ok (nearest g target.1 target.2 valid_dirs None best_dir)
    else if String.eqb (personality g) "fickle" then
      let target := fickle_target pacman in
      Ok (nearest g target.1 target.2 valid_dirs None best_dir)
    else
      let* far := far_from g pacman in
      if far then
        Ok (nearest g (PacMan.x pacman) (PacMan.y pacman) valid_dirs None
              best_dir)
      else
        Ok (nearest g 0 25 valid_dirs None best_dir) in
  Ok (set_dir g best_dir).

(** The body of the [while] loop of [update], after the accumulator
    has been decremented: choose a direction by mode, then move. *)
Definition step {R} `{Shuffle R} (maze : list (list Z))
    (pacman : PacMan.t) (r : R) (g : t) : result (R * t) :=
  let* '(r, g) :=
    (if eaten g then
       if (Z.abs (x g - 14) <? 1) && (Z.abs (y g - 11) <? 1)
       then Ok (r, set_frightened (set_eaten g false) false)
       else let* g := return_to_base maze g in Ok (r, g)
     else if frightened g then frightened_move maze r g
     else let* g := ai_move maze pacman g in Ok (r, g)) in
  let* go := can_move (x g + dx g) (y g + dy g) maze in
  if go then Ok (r, set_pos g (x g + dx g) (y g + dy g)) else Ok (r, g).

(** [while self.move_accumulator >= 1.0: ...], counting the iterations. *)
Fixpoint drain {R} `{Shuffle R} (fuel : nat) (maze : list (list Z))
    (pacman : PacMan.t) (r : R) (g : t) (steps : nat)
  : result (R * t * nat) :=
  if (1.0 <=? move_accumulator g)%float then
    match fuel with
    | O => Raise OutOfFuel
    | S fuel' =>
        let g := set_accumulator g (move_accumulator g - 1.0)%float in
        let* '(r, g) := step maze pacman r g in
        drain fuel' maze pacman r g (S steps)
    end
  else Ok (r, g, steps).

(** [update], together with the number of grid steps it attempted. *)
Definition update_counted {R} `{Shuffle R} (fuel : nat)
    (maze : list (list Z)) (pacman : PacMan.t)
    (level_config : LevelConfig) (r : R) (g : t) : result (R * t * nat) :=
  let g :=
    if eaten g then set_speed g 0.5
    else if frightened g
         then set_speed g (ghost_speed level_config * 0.5)%float
         else set_speed g (ghost_speed level_config) in
  let g := set_accumulator g (move_accumulator g + speed g)%float in
  drain fuel maze pacman r g 0%nat.

Definition update {R} `{Shuffle R} (fuel : nat) (maze : list (list Z))
    (pacman : PacMan.t) (level_config : LevelConfig) (r : R) (g : t)
  : result (R * t) :=
  let* res := update_counted fuel maze pacman level_config r g in
  Ok res.1.

End Ghost.

(** ** The game session and the main loop *)

Inductive GameState : Set :=
| INTRO | GHOST_ROLL | READY | PLAYING | DYING | GAME_OVER
| LEVEL_COMPLETE | KILL_SCREEN.

Definition GameState_eqb (a b : GameState) : bool :=
  match a, b with
  | INTRO, INTRO | GHOST_ROLL, GHOST_ROLL | READY, READY
  | PLAYING, PLAYING | DYING, DYING | GAME_OVER, GAME_OVER
  | LEVEL_COMPLETE, LEVEL_COMPLETE | KILL_SCREEN, KILL_SCREEN => true
  | _, _ => false
  end.

(** What [pygame.event.get()] can deliver. *)
Inductive key : Set :=
| K_ESCAPE | K_SPACE | K_LEFT | K_RIGHT | K_UP | K_DOWN | K_other.

Inductive event : Set :=
| QUIT
| KEYDOWN (k : key)
| other_event.

Module Main.

(** The local variables of [main] that the loop reads and writes. *)
Record t := {
  state : GameState;
  score : Z;
  high_score : Z;
  lives : Z;
  level : Z;
  dots_eaten : Z;
  power_timer : Z;
  intro_timer : Z;
  death_timer : Z;
  level_complete_timer : Z;
  ghost_score : Z;
  fruit_timer : Z;
  fruit_active : bool;
  maze : list (list Z);
  pacman : PacMan.t;
  ghosts : list Ghost.t;
  running : bool
}.

Definition set_state (g : t) (v : GameState) : t :=
  {| state := v; score := score g; high_score := high_score g;
     lives := lives g; level := level g; dots_eaten := dots_eaten g;
     power_timer := power_timer g; intro_timer := intro_timer g;
     death_timer := death_timer g;
     level_complete_timer := level_complete_timer g;
     ghost_score := ghost_score g; fruit_timer := fruit_timer g;
     fruit_active := fruit_active g; maze := maze g; pacman := pacman g;
     ghosts := ghosts g; running := running g |}.

Definition set_score (g : t) (v : Z) : t :=
  {| state := state g; score := v; high_score := high_score g;
     lives := lives g; level := level g; dots_eaten := dots_eaten g;
     power_timer := power_timer g; intro_timer := intro_timer g;
     death_timer := death_timer g;
     level_complete_timer := level_complete_timer g;
     ghost_score := ghost_score g; fruit_timer := fruit_timer g;
     fruit_active := fruit_active g; maze := maze g; pacman := pacman g;
     ghosts := ghosts g; running := running g |}.

Definition set_high_score (g : t) (v : Z) : t :=
  {| state := state g; score := score g; high_score := v;
     lives := lives g; level := level g; dots_eaten := dots_eaten g;
     power_timer := power_timer g; intro_timer := intro_timer g;
     death_timer := death_timer g;
     level_complete_timer := level_complete_timer g;
     ghost_score := ghost_score g; fruit_timer := fruit_timer g;
     fruit_active := fruit_active g; maze := maze g; pacman := pacman g;
     ghosts := ghosts g; running := running g |}.

Definition set_lives (g : t) (v : Z) : t :=
  {| state := state g; score := score g; high_score := high_score g;
     lives := v; level := level g; dots_eaten := dots_eaten g;
     power_timer := power_timer g; intro_timer := intro_timer g;
     death_timer := death_timer g;
     level_complete_timer := level_complete_timer g;
     ghost_score := ghost_score g; fruit_timer := fruit_timer g;
     fruit_active := fruit_active g; maze := maze g; pacman := pacman g;
     ghosts := ghosts g; running := running g |}.

Definition set_level (g : t) (v : Z) : t :=
  {| state := state g; score := score g; high_score := high_score g;
     lives := lives g; level := v; dots_eaten := dots_eaten g;
     power_timer := power_timer g; intro_timer := intro_timer g;
     death_timer := death_timer g;
     level_complete_timer := level_complete_timer g;
     ghost_score := ghost_score g; fruit_timer := fruit_timer g;
     fruit_active := fruit_active g; maze := maze g; pacman := pacman g;
     ghosts := ghosts g; running := running g |}.

Definition set_dots_eaten (g : t) (v : Z) : t :=
  {| state := state g; score := score g; high_score := high_score g;
     lives := lives g; level := level g; dots_eaten := v;
     power_timer := power_timer g; intro_timer := intro_timer g;
     death_timer := death_timer g;
     level_complete_timer := level_complete_timer g;
     ghost_score := ghost_score g; fruit_timer := fruit_timer g;
     fruit_active := fruit_active g; maze := maze g; pacman := pacman g;
     ghosts := ghosts g; running := running g |}.

Definition set_power_timer (g : t) (v : Z) : t :=
  {| state := state g; score := score g; high_score := high_score g;
     lives := lives g; level := level g; dots_eaten := dots_eaten g;
     power_timer := v; intro_timer := intro_timer g;
     death_timer := death_timer g;
     level_complete_timer := level_complete_timer g;
     ghost_score := ghost_score g; fruit_timer := fruit_timer g;
     fruit_active := fruit_active g; maze := maze g; pacman := pacman g;
     ghosts := ghosts g; running := running g |}.

Definition set_intro_timer (g : t) (v : Z) : t :=
  {| state := state g; score := score g; high_score := high_score g;
     lives := lives g; level := level g; dots_eaten := dots_eaten g;
     power_timer := power_timer g; intro_timer := v;
     death_timer := death_timer g;
     level_complete_timer := level_complete_timer g;
     ghost_score := ghost_score g; fruit_timer := fruit_timer g;
     fruit_active := fruit_active g; maze := maze g; pacman := pacman g;
     ghosts := ghosts g; running := running g |}.

Definition set_death_timer (g : t) (v : Z) : t :=
  {| state := state g; score := score g; high_score := high_score g;
     lives := lives g; level := level g; dots_eaten := dots_eaten g;
     power_timer := power_timer g; intro_timer := intro_timer g;
     death_timer := v; level_complete_timer := level_complete_timer g;
     ghost_score := ghost_score g; fruit_timer := fruit_timer g;
     fruit_active := fruit_active g; maze := maze g; pacman := pacman g;
     ghosts := ghosts g; running := running g |}.

Definition set_level_complete_timer (g : t) (v : Z) : t :=
  {| state := state g; score := score g; high_score := high_score g;
     lives := lives g; level := level g; dots_eaten := dots_eaten g;
     power_timer := power_timer g; intro_timer := intro_timer g;
     death_timer := death_timer g; level_complete_timer := v;
     ghost_score := ghost_score g; fruit_timer := fruit_timer g;
     fruit_active := fruit_active g; maze := maze g; pacman := pacman g;
     ghosts := ghosts g; running := running g |}.

Definition set_ghost_score (g : t) (v : Z) : t :=
  {| state := state g; score := score g; high_score := high_score g;
     lives := lives g; level := level g; dots_eaten := dots_eaten g;
     power_timer := power_timer g; intro_timer := intro_timer g;
     death_timer := death_timer g;
     level_complete_timer := level_complete_timer g; ghost_score := v;
     fruit_timer := fruit_timer g; fruit_active := fruit_active g;
     maze := maze g; pacman := pacman g; ghosts := ghosts g;
     running := running g |}.

Definition set_fruit_timer (g : t) (v : Z) : t :=
  {| state := state g; score := score g; high_score := high_score g;
     lives := lives g; level := level g; dots_eaten := dots_eaten g;
     power_timer := power_timer g; intro_timer := intro_timer g;
     death_timer := death_timer g;
     level_complete_timer := level_complete_timer g;
     ghost_score := ghost_score g; fruit_timer := v;
     fruit_active := fruit_active g; maze := maze g; pacman := pacman g;
     ghosts := ghosts g; running := running g |}.

Definition set_fruit_active (g : t) (v : bool) : t :=
  {| state := state g; score := score g; high_score := high_score g;
     lives := lives g; level := level g; dots_eaten := dots_eaten g;
     power_timer := power_timer g; intro_timer := intro_timer g;
     death_timer := death_timer g;
     level_complete_timer := level_complete_timer g;
     ghost_score := ghost_score g; fruit_timer := fruit_timer g;
     fruit_active := v; maze := maze g; pacman := pacman g;
     ghosts := ghosts g; running := running g |}.

Definition set_maze (g : t) (v : list (list Z)) : t :=
  {| state := state g; score := score g; high_score := high_score g;
     lives := lives g; level := level g; dots_eaten := dots_eaten g;
     power_timer := power_timer g; intro_timer := intro_timer g;
     death_timer := death_timer g;
     level_complete_timer := level_complete_timer g;
     ghost_score := ghost_score g; fruit_timer := fruit_timer g;
     fruit_active := fruit_active g; maze := v; pacman := pacman g;
     ghosts := ghosts g; running := running g |}.

Definition set_pacman (g : t) (v : PacMan.t) : t :=
  {| state := state g; score := score g; high_score := high_score g;
     lives := lives g; level := level g; dots_eaten := dots_eaten g;
     power_timer := power_timer g; intro_timer := intro_timer g;
     death_timer := death_timer g;
     level_complete_timer := level_complete_timer g;
     ghost_score := ghost_score g; fruit_timer := fruit_timer g;
     fruit_active := fruit_active g; maze := maze g; pacman := v;
     ghosts := ghosts g; running := running g |}.

Definition set_ghosts (g : t) (v : list Ghost.t) : t :=
  {| state := state g; score := score g; high_score := high_score g;
     lives := lives g; level := level g; dots_eaten := dots_eaten g;
     power_timer := power_timer g; intro_timer := intro_timer g;
     death_timer := death_timer g;
     level_complete_timer := level_complete_timer g;
     ghost_score := ghost_score g; fruit_timer := fruit_timer g;
     fruit_active := fruit_active g; maze := maze g; pacman := pacman g;
     ghosts := v; running := running g |}.

Definition set_running (g : t) (v : bool) : t :=
  {| state := state g; score := score g; high_score := high_score g;
     lives := lives g; level := level g; dots_eaten := dots_eaten g;
     power_timer := power_timer g; intro_timer := intro_timer g;
     death_timer := death_timer g;
     level_complete_timer := level_complete_timer g;
     ghost_score := ghost_score g; fruit_timer := fruit_timer g;
     fruit_active := fruit_active g; maze := maze g; pacman := pacman g;
     ghosts := ghosts g; running := v |}.

(** The values [main] sets up before its loop; [maze] is a copy of
    [MAZE], row by row. *)
Definition init : t :=
  {| state := INTRO; score := 0; high_score := 0; lives := 3; level := 1;
     dots_eaten := 0; power_timer := 0; intro_timer := 0;
     death_timer := 0; level_complete_timer := 0; ghost_score := 200;
     fruit_timer := 0; fruit_active := false; maze := MAZE;
     pacman := PacMan.init;
     ghosts := [Ghost.make 13 11 "chaser"; Ghost.make 14 11 "ambusher";
                Ghost.make 13 12 "fickle"; Ghost.make 14 12 "pokey"];
     running := true |}.

(** One event of the [for event in pygame.event.get()] loop. *)
Definition handle_event (g : t) (e : event) : t :=
  match e with
  | QUIT => set_running g false
  | KEYDOWN k =>
      match k with
      | K_ESCAPE => set_running g false
      | _ =>
          if GameState_eqb (state g) GHOST_ROLL
             && match k with K_SPACE => true | _ => false end
          then set_intro_timer (set_state g READY) 0
          else if GameState_eqb (state g) PLAYING then
            match k with
            | K_LEFT => set_pacman g (PacMan.set_next (pacman g) (-1) 0)
            | K_RIGHT => set_pacman g (PacMan.set_next (pacman g) 1 0)
            | K_UP => set_pacman g (PacMan.set_next (pacman g) 0 (-1))
            | K_DOWN => set_pacman g (PacMan.set_next (pacman g) 0 1)
            | _ => g
            end
          else g
      end
  | other_event => g
  end.

(** [for ghost in ghosts: ghost.update(maze, pacman, level_config)] *)
Fixpoint update_ghosts {R} `{Shuffle R} (fuel : nat)
    (maze : list (list Z)) (pacman : PacMan.t) (level_config : LevelConfig)
    (r : R) (gs : list Ghost.t) : result (R * list Ghost.t) :=
  match gs with
  | [] => Ok (r, [])
  | gh :: gs' =>
      let* '(r, gh) := Ghost.update fuel maze pacman level_config r gh in
      let* '(r, gs') := update_ghosts fuel maze pacman level_config r gs' in
      Ok (r, gh :: gs')
  end.

(** Power pellet timer. *)
Definition power_phase (g : t) : t :=
  if power_timer g >? 0 then
    let g := set_power_timer g (power_timer g - 1) in
    if power_timer g =? 0 then
      let g :=
        set_ghosts g
          (map (fun gh => Ghost.set_frightened gh false) (ghosts g)) in
      set_ghost_score g 200
    else g
  else g.

(** Fruit timer. *)
Definition fruit_phase (g : t) : t :=
  let g :=
    if (dots_eaten g =? 70) || (dots_eaten g =? 170) then
      if negb (fruit_active g)
      then set_fruit_timer (set_fruit_active g true) 600
      else g
    else g in
  if fruit_active g then
    let g := set_fruit_timer g (fruit_timer g - 1) in
    if fruit_timer g <=? 0 then set_fruit_active g false else g
  else g.

(** [maze[y][x] = 0] *)
Definition clear_cell (maze : list (list Z)) (row : list Z) (x y : Z)
  : list (list Z) :=
  py_store maze y (py_store row x 0).

(** Check pellet eating. *)
Definition pellet_phase (level_config : LevelConfig) (g : t) : result t :=
  let x := PacMan.x (pacman g) in
  let y := PacMan.y (pacman g) in
  if (0 <=? y) && (y <? len (maze g)) then
    if 0 <=? x then
      let* row0 := py_index (maze g) 0 in
      if x <? len row0 then
        let* row := py_index (maze g) y in
        let* cell := py_index row x in
        if cell =? 2 then
          let g := set_maze g (clear_cell (maze g) row x y) in
          let g := set_score g (score g + 10) in
          Ok (set_dots_eaten g (dots_eaten g + 1))
        else if cell =? 3 then
          let g := set_maze g (clear_cell (maze g) row x y) in
          let g := set_score g (score g + 50) in
          let g := set_power_timer g (frightened_time level_config) in
          let g := set_ghost_score g 200 in
          Ok (set_ghosts g
                (map (fun gh => if negb (Ghost.eaten gh)
                                then Ghost.set_frightened gh true
                                else gh)
                     (ghosts g)))
        else if (cell =? 5) && fruit_active g then
          let g := set_score g (score g + points (fruit level_config)) in
          Ok (set_fruit_active g false)
        else Ok g
      else Ok g
    else Ok g
  else Ok g.

(** [abs(ghost.x - pacman.x) < 0.5 and abs(ghost.y - pacman.y) < 0.5]
    on integer coordinates. *)
Definition touching (gh : Ghost.t) (p : PacMan.t) : bool :=
  (2 * Z.abs (Ghost.x gh - PacMan.x p) <? 1)
  && (2 * Z.abs (Ghost.y gh - PacMan.y p) <? 1).

(** The body of the ghost-collision loop for one ghost: the session
    after it, and the ghost after it. *)
Definition collide (g : t) (gh : Ghost.t) : t * Ghost.t :=
  if touching gh (pacman g) then
    if Ghost.frightened gh then
      let g := set_score g (score g + ghost_score g) in
      let g := set_ghost_score g (ghost_score g * 2) in
      (g, Ghost.set_frightened (Ghost.set_eaten gh true) false)
    else if negb (Ghost.eaten gh) then
      (set_death_timer (set_state g DYING) 0, gh)
    else (g, gh)
  else (g, gh).

Fixpoint collide_all (g : t) (gs : list Ghost.t) : t * list Ghost.t :=
  match gs with
  | [] => (g, [])
  | gh :: gs' =>
      let '(g, gh) := collide g gh in
      let '(g, gs') := collide_all g gs' in
      (g, gh :: gs')
  end.

(** Check ghost collision. *)
Definition collision_phase (g : t) : t :=
  let '(g', gs) := collide_all g (ghosts g) in
  set_ghosts g' gs.

(** [row.count(v)] *)
Definition count (v : Z) (row : list Z) : Z :=
  len (List.filter (Z.eqb v) row).

Definition pellets_left (maze : list (list Z)) : Z :=
  fold_right (fun row acc => count 2 row + count 3 row + acc) 0 maze.

(** Check level complete. *)
Definition level_complete_phase (g : t) : t :=
  if pellets_left (maze g) =? 0
  then set_level_complete_timer (set_state g LEVEL_COMPLETE) 0
  else g.

(** Update high score. *)
Definition high_score_phase (g : t) : t :=
  if score g >? high_score g then set_high_score g (score g) else g.

(** Extra life at 10000. *)
Definition extra_life_phase (g : t) : t :=
  if score g / 10000 >? (score g - 10) / 10000
  then set_lives g (lives g + 1)
  else g.

(** The [else] branch of the [PLAYING] case: one simulation tick. *)
Definition playing {R} `{Shuffle R} (fuel : nat)
    (level_config : LevelConfig) (r : R) (g : t) : result (R * t) :=
  let* p := PacMan.update fuel (maze g) level_config (pacman g) in
  let g := set_pacman g p in
  let* '(r, gs) :=
    update_ghosts fuel (maze g) (pacman g) level_config r (ghosts g) in
  let g := set_ghosts g gs in
  let g := power_phase g in
  let g := fruit_phase g in
  let* g := pellet_phase level_config g in
  let g := collision_phase g in
  let g := level_complete_phase g in
  let g := high_score_phase g in
  Ok (r, extra_life_phase g).

(** Reset positions: the player back to its spawn cell, standing. *)
Definition respawn (g : t) : t :=
  let p := PacMan.set_dir (PacMan.set_pos (pacman g) 14 20) 0 0 in
  set_ghosts (set_pacman g p) (map Ghost.reset (ghosts g)).

(** State updates: the [if state == ...] chain of the loop body. *)
Definition update_state {R} `{Shuffle R} (fuel : nat)
    (level_config : LevelConfig) (r : R) (g : t) : result (R * t) :=
  match state g with
  | INTRO =>
      let g := set_intro_timer g (intro_timer g + 1) in
      if intro_timer g >? 200
      then Ok (r, set_intro_timer (set_state g GHOST_ROLL) 0)
      else Ok (r, g)
  | GHOST_ROLL => Ok (r, set_intro_timer g (intro_timer g + 1))
  | READY =>
      let g := set_intro_timer g (intro_timer g + 1) in
      if intro_timer g >? 120 then Ok (r, set_state g PLAYING)
      else Ok (r, g)
  | PLAYING =>
      if level g =? 256 then Ok (r, set_state g KILL_SCREEN)
      else playing fuel level_config r g
  | DYING =>
      let g := set_death_timer g (death_timer g + 1) in
      if death_timer g >? 120 then
        let g := set_lives g (lives g - 1) in
        if lives g <=? 0
        then Ok (r, set_intro_timer (set_state g GAME_OVER) 0)
        else Ok (r, set_intro_timer (set_state (respawn g) READY) 0)
      else Ok (r, g)
  | LEVEL_COMPLETE =>
      let g := set_level_complete_timer g (level_complete_timer g + 1) in
      if level_complete_timer g >? 180 then
        let g := set_level g (level g + 1) in
        let g := if level g >? 256 then set_level g 1 else g in
        let g := set_maze g MAZE in
        let g := set_dots_eaten g 0 in
        let g := set_fruit_active g false in
        Ok (r, set_intro_timer (set_state (respawn g) READY) 0)
      else Ok (r, g)
  | GAME_OVER =>
      let g := set_intro_timer g (intro_timer g + 1) in
      if intro_timer g >? 300 then
        let g := set_level g 1 in
        let g := set_score g 0 in
        let g := set_lives g 3 in
        let g := set_dots_eaten g 0 in
        let g := set_maze g MAZE in
        let g := set_pacman g PacMan.init in
        let g := set_ghosts g (map Ghost.reset (ghosts g)) in
        Ok (r, set_intro_timer (set_state g INTRO) 0)
      else Ok (r, g)
  | KILL_SCREEN => Ok (r, g)
  end.

(** One pass of the [while running] loop, up to the drawing. *)
Definition frame {R} `{Shuffle R} (fuel : nat) (events : list event)
    (r : R) (g : t) : result (R * t) :=
  let* level_config := get_level_config (level g) in
  let g := fold_left handle_event events g in
  update_state fuel level_config r g.

(** [n] passes of the loop without input events. *)
Fixpoint frames {R} `{Shuffle R} (fuel : nat) (n : nat) (r : R) (g : t)
  : result (R * t) :=
  match n with
  | O => Ok (r, g)
  | S n' =>
      let* '(r, g) := frame fuel [] r g in
      frames fuel n' r g
  end.

End Main.

(** * Vocabulary of the statements

    Runs of the loop, observations of a session, and the notions the
    properties below are stated with. *)

(** The entries of levels 21, 20 and 14, the fruit included. *)
Definition level21_config : LevelConfig :=
  {| pac_speed := 0.25; ghost_speed := 0.32; frightened_time := 0;
     fruit := {| points := 5000; fruit_name := "Key" |} |}.

Definition level20_config : LevelConfig :=
  {| pac_speed := 0.25; ghost_speed := 0.31; frightened_time := 5;
     fruit := {| points := 5000; fruit_name := "Key" |} |}.

Definition level14_config : LevelConfig :=
  {| pac_speed := 0.22; ghost_speed := 0.25; frightened_time := 30;
     fruit := {| points := 5000; fruit_name := "Key" |} |}.

(** [c'] is at least as fast as [c], for the player and for the ghosts,
    and its frightened time is no longer. *)
Definition config_le (c c' : LevelConfig) : bool :=
  (pac_speed c <=? pac_speed c')%float
  && (ghost_speed c <=? ghost_speed c')%float
  && (frightened_time c' <=? frightened_time c).

(** A field of the session a run ends in. *)
Definition observe {R A} (f : Main.t -> A) (m : result (R * Main.t))
  : result A :=
  let* res := m in Ok (f res.2).

(** [n] more passes of the loop, without input events, after a run. *)
Definition then_frames (n : nat) (m : result (unit * Main.t))
  : result (unit * Main.t) :=
  let* '(r, g) := m in Main.frames 2 n r g.

(** A new game brought to its first PLAYING tick: 201 passes of INTRO,
    the space bar in GHOST_ROLL, 120 more passes of READY. *)
Definition boot : result (unit * Main.t) :=
  let* '(r, g) := Main.frames 2 201 tt Main.init in
  let* '(r, g) := Main.frame 2 [KEYDOWN K_SPACE] r g in
  Main.frames 2 120 r g.

(** The same session with the player put on cell [(x, y)], the score set
    to [s] and the level to [l]. *)
Definition placed (x y s l : Z) : result (unit * Main.t) :=
  let* '(r, g) := boot in
  let g := Main.set_pacman g (PacMan.set_pos (Main.pacman g) x y) in
  Ok (r, Main.set_level (Main.set_score g s) l).

(** No ghost is in pursuit mode: each one is eaten or frightened. *)
Definition none_pursuing (g : Main.t) : bool :=
  forallb (fun gh => Ghost.eaten gh || Ghost.frightened gh) (Main.ghosts g).

(** The same session with the dots-eaten counter set. *)
Definition with_dots (d : Z) (m : result (unit * Main.t))
  : result (unit * Main.t) :=
  let* '(r, g) := m in Ok (r, Main.set_dots_eaten g d).

(** The pivot of Inky's target: two cells ahead of the player. *)
Definition pivot (pacman : PacMan.t) : Z * Z :=
  (PacMan.x pacman + PacMan.dx pacman * 2,
   PacMan.y pacman + PacMan.dy pacman * 2).

(** The reflection of [through] in [pivot]: [pivot + (pivot - through)]. *)
Definition reflect (pivot through : Z * Z) : Z * Z :=
  (pivot.1 + (pivot.1 - through.1), pivot.2 + (pivot.2 - through.2)).

(** The target as the design document words it: the pivot reflected
    through the chaser's current cell. *)
Definition fickle_target_through_chaser (pacman : PacMan.t)
    (chaser : Ghost.t) : Z * Z :=
  reflect (pivot pacman) (Ghost.x chaser, Ghost.y chaser).

(** The ghost with another personality. *)
Definition with_personality (g : Ghost.t) (p : string) : Ghost.t :=
  {| Ghost.start_x := Ghost.start_x g; Ghost.start_y := Ghost.start_y g;
     Ghost.x := Ghost.x g; Ghost.y := Ghost.y g; Ghost.personality := p;
     Ghost.dx := Ghost.dx g; Ghost.dy := Ghost.dy g;
     Ghost.speed := Ghost.speed g;
     Ghost.move_accumulator := Ghost.move_accumulator g;
     Ghost.frightened := Ghost.frightened g; Ghost.eaten := Ghost.eaten g |}.

(** The direction a targeting call leaves the ghost with. *)
Definition chosen (m : result Ghost.t) : result (Z * Z) :=
  let* g := m in Ok (Ghost.dx g, Ghost.dy g).

(** The grid after the pellet under the player at [(x, y)] was eaten. *)
Definition eaten_at (maze maze' : list (list Z)) (x y : Z) : Prop :=
  exists row,
    0 <= x /\ 0 <= y
    /\ maze !! Z.to_nat y = Some row
    /\ (row !! Z.to_nat x = Some PELLET \/ row !! Z.to_nat x = Some POWER_PELLET)
    /\ maze' = Main.clear_cell maze row x y.

(** One tick's effect on the grid: nothing, or the pellet under the
    player eaten. *)
Definition maze_step (maze maze' : list (list Z)) (p : PacMan.t) : Prop :=
  maze' = maze \/ eaten_at maze maze' (PacMan.x p) (PacMan.y p).

(** A chaser in the corridor of row 4, at (6, 4) and heading right, in
    pursuit or frightened. *)
Definition corridor_ghost (frightened : bool) : Ghost.t :=
  Ghost.set_frightened (Ghost.set_dir (Ghost.make 6 4 "chaser") (1, 0))
    frightened.

(** [n] consecutive updates of the player at one level configuration,
    with the total number of grid steps attempted. *)
Fixpoint pacman_run (fuel n : nat) (maze : list (list Z))
    (level_config : LevelConfig) (p : PacMan.t) : result (PacMan.t * nat) :=
  match n with
  | O => Ok (p, 0%nat)
  | S n' =>
      let* '(p, k) := PacMan.update_counted fuel maze level_config p in
      let* '(p, k') := pacman_run fuel n' maze level_config p in
      Ok (p, (k + k')%nat)
  end.

(** The same for a ghost, the player standing where it is. *)
Fixpoint ghost_run {R} `{Shuffle R} (fuel n : nat) (maze : list (list Z))
    (pacman : PacMan.t) (level_config : LevelConfig) (r : R) (g : Ghost.t)
  : result (R * Ghost.t * nat) :=
  match n with
  | O => Ok (r, g, 0%nat)
  | S n' =>
      let* '(r, g, k) :=
        Ghost.update_counted fuel maze pacman level_config r g in
      let* '(r, g, k') := ghost_run fuel n' maze pacman level_config r g in
      Ok (r, g, (k + k')%nat)
  end.

(** [floor(k * s)] for the real number the float [s] stands for, computed
    on its mantissa and exponent without rounding. *)
Definition floor_times (k : Z) (s : float) : option Z :=
  match Prim2SF s with
  | S754_zero _ => Some 0
  | S754_finite sign m e =>
      let v := (if sign then Z.neg m else Z.pos m) * k in
      Some (if 0 <=? e then v * 2 ^ e else v / 2 ^ (- e))
  | _ => None
  end.

(** [math.floor(s * n)] in float arithmetic. *)
Definition floor_float_product (s : float) (n : Z) : option Z :=
  floor_times 1 (s * PrimFloat.of_uint63 (Uint63.of_Z n))%float.

(** The number of grid steps a counted run attempted. *)
Definition steps_of {A} (m : result (A * nat)) : result nat :=
  let* res := m in Ok res.2.

(** The accumulator [a] after 1.0 was subtracted from it [k] times. *)
Definition drained (k : nat) (a : float) : float :=
  Nat.iter k (fun a => (a - 1.0)%float) a.

(** One tick took the accumulator from [a], the speed already added, to
    [a'] in [k] steps: 1.0 was subtracted [k] times, each time from a
    value of at least 1.0, and what is left is below 1.0. *)
Definition drains (a a' : float) (k : nat) : Prop :=
  a' = drained k a
  /\ (forall j, (j < k)%nat -> (1.0 <=? drained j a)%float = true)
  /\ (1.0 <=? a')%float = false.

(** The accumulator on its own, as the [while] loop of [update] drains
    it: the whole units taken off [a], counted, with [None] for the fuel
    running out; then one tick at speed [s], and [n] ticks. *)
Fixpoint units (fuel : nat) (a : float) : option (float * nat) :=
  if (1.0 <=? a)%float then
    match fuel with
    | O => None
    | S fuel' =>
        match units fuel' (a - 1.0)%float with
        | Some (a', k) => Some (a', S k)
        | None => None
        end
    end
  else Some (a, 0%nat).

Definition tick_units (fuel : nat) (s a : float) : option (float * nat) :=
  units fuel (a + s)%float.

Fixpoint run_units (fuel n : nat) (s a : float) : option (float * nat) :=
  match n with
  | O => Some (a, 0%nat)
  | S n' =>
      match tick_units fuel s a with
      | Some (a1, k) =>
          match run_units fuel n' s a1 with
          | Some (a2, k') => Some (a2, (k + k')%nat)
          | None => None
          end
      | None => None
      end
  end.

(** The speed [s] is the fraction [p / q] without rounding, and a run of
    fewer than [q] ticks from a zero accumulator, one unit at most per
    tick, attempts [floor(s * r)] steps. *)
Definition period_check (s : float) (q p : nat) : bool :=
  (0 <? q)%nat
  && forallb
       (fun r =>
          match run_units 1 r s 0, floor_times (Z.of_nat r) s with
          | Some (_, k), Some f => Z.of_nat k =? f
          | _, _ => false
          end)
       (seq 0 q)
  && match Prim2SF s with
     | S754_finite false m e =>
         (e <? 0) && (Z.pos m * Z.of_nat q =? Z.of_nat p * 2 ^ (- e))
     | _ => false
     end.

(** Binary64 carries the speed [s] through a period without loss: [s] is
    [p / q], [q] ticks from a zero accumulator attempt [p] steps and bring
    the accumulator back to zero, and the shorter runs are right. *)
Definition exact_period (s : float) (q p : nat) : Prop :=
  run_units 1 q s 0 = Some (0%float, p) /\ period_check s q p = true.

(** The speed a ghost's update adds to its accumulator. *)
Definition ghost_tick_speed (level_config : LevelConfig) (g : Ghost.t)
  : float :=
  if Ghost.eaten g then 0.5%float
  else if Ghost.frightened g then (ghost_speed level_config * 0.5)%float
       else ghost_speed level_config.

(** [c'] is at least as hard as [c]: no slower, no longer frightened
    time, and a fruit worth no less. *)
Definition harder (c c' : LevelConfig) : bool :=
  config_le c c' && (points (fruit c) <=? points (fruit c')).

(** What the input events cannot touch: everything but the phase, the
    intro timer, the player's queued direction and the running flag. *)
Definition beyond_input (g : Main.t)
  : Z * Z * Z * Z * Z * Z * Z * Z * Z * Z * bool * list (list Z)
    * list Ghost.t :=
  (Main.score g, Main.high_score g, Main.lives g, Main.level g,
   Main.dots_eaten g, Main.power_timer g, Main.death_timer g,
   Main.level_complete_timer g, Main.ghost_score g, Main.fruit_timer g,
   Main.fruit_active g, Main.maze g, Main.ghosts g).

(** The level that follows [level]: the next one, or 1 after 256. *)
Definition next_level (level : Z) : Z :=
  if level + 1 >? 256 then 1 else level + 1.

(** A session whose LEVEL_COMPLETE pause at level 256 is about to expire. *)
Definition last_level_complete : Main.t :=
  Main.set_level_complete_timer
    (Main.set_level (Main.set_state Main.init LEVEL_COMPLETE) 256) 180.

(** A session on the kill screen. *)
Definition on_kill_screen : Main.t :=
  Main.set_level (Main.set_state Main.init KILL_SCREEN) 256.

(** A session on a 3 x 3 grid with one pellet left, the player on it and
    a pursuing ghost on the same cell. *)
Definition last_pellet_session : Main.t :=
  Main.set_ghosts
    (Main.set_pacman
       (Main.set_maze (Main.set_state Main.init PLAYING)
          [[1; 1; 1]; [1; 2; 1]; [1; 1; 1]])
       (PacMan.set_pos PacMan.init 1 1))
    [Ghost.make 1 1 "chaser"].

(** A session with the player on the power pellet of cell (1, 2) and a
    pursuing ghost on the same cell. *)
Definition ambushed_on_power_pellet : Main.t :=
  Main.set_ghosts
    (Main.set_pacman (Main.set_state Main.init PLAYING)
       (PacMan.set_pos PacMan.init 1 2))
    [Ghost.make 1 2 "chaser"].

(** The sum of [f] over the rows of the grid. *)
Definition total (f : list Z -> Z) (maze : list (list Z)) : Z :=
  fold_right (fun row acc => f row + acc) 0 maze.

(** The number of PELLET cells of the grid. *)
Definition pellet_cells (maze : list (list Z)) : Z :=
  total (Main.count PELLET) maze.

(** The squared distance from the cell next to the ghost in direction [d]
    to a target cell. *)
Definition dist2 (g : Ghost.t) (target d : Z * Z) : Z :=
  (Ghost.x g + d.1 - target.1) ^ 2 + (Ghost.y g + d.2 - target.2) ^ 2.

(** The Manhattan distance from that cell to the ghost house (14, 11). *)
Definition manhattan_home (g : Ghost.t) (d : Z * Z) : Z :=
  Z.abs (Ghost.x g + d.1 - 14) + Z.abs (Ghost.y g + d.2 - 11).

(** The wall test as a predicate: [can_move] answers [True]. *)
Definition passable (maze : list (list Z)) (x y : Z) : bool :=
  match Ghost.can_move x y maze with
  | Ok true => true
  | _ => false
  end.

(** The directions a ghost can move to, in the order up, down, left,
    right; and those among them that are not its reverse. *)
Definition open_directions (maze : list (list Z)) (g : Ghost.t)
  : list (Z * Z) :=
  List.filter (fun d => passable maze (Ghost.x g + d.1) (Ghost.y g + d.2))
    Ghost.directions.

Definition candidates (maze : list (list Z)) (g : Ghost.t) : list (Z * Z) :=
  List.filter
    (fun d => negb (dir_eqb d (- Ghost.dx g, - Ghost.dy g))
              && passable maze (Ghost.x g + d.1) (Ghost.y g + d.2))
    Ghost.directions.

(** The point a pursuing ghost aims at, by personality. *)
Definition pursuit_target (g : Ghost.t) (pacman : PacMan.t) : Z * Z :=
  if String.eqb (Ghost.personality g) "chaser"
  then (PacMan.x pacman, PacMan.y pacman)
  else if String.eqb (Ghost.personality g) "ambusher"
  then Ghost.ambusher_target pacman
  else if String.eqb (Ghost.personality g) "fickle"
  then Ghost.fickle_target pacman
  else if 64 <? (Ghost.x g - PacMan.x pacman) ^ 2
                 + (Ghost.y g - PacMan.y pacman) ^ 2
  then (PacMan.x pacman, PacMan.y pacman)
  else (0, 25).

(** [d] is the first element of [l] at which [f] is least. *)
Definition first_min (f : Z * Z -> Z) (l : list (Z * Z)) (d : Z * Z) : Prop :=
  exists l1 l2,
    l = l1 ++ d :: l2
    /\ (forall e, e ∈ l1 -> f d < f e)
    /\ (forall e, e ∈ l2 -> f d <= f e).

(** The minimum search every targeting loop of the source runs: keep the
    first direction whose distance is below the least seen so far. *)
Fixpoint argmin (f : Z * Z -> Z) (ds : list (Z * Z)) (min_dist : option Z)
    (best_dir : Z * Z) : Z * Z :=
  match ds with
  | [] => best_dir
  | d :: ds' =>
      if below (f d) min_dist
      then argmin f ds' (Some (f d)) d
      else argmin f ds' min_dist best_dir
  end.

(** A pursuing pokey ghost ten cells to the right of the player, and one
    eight cells to the right. *)
Definition pokey_at (gx gy : Z) : Ghost.t :=
  Ghost.set_dir (Ghost.make gx gy "pokey") (0, -1).

(** The level has an entry of its own in [configs]. *)
Definition mapped (level : Z) : bool :=
  existsb (fun e => e.1 =? level) configs.











(** * Properties *)

(** ** Proof tools *)

Ltac case_bind H :=
  match type of H with
  | context [bind ?m _] =>
      let E := fresh "E" in
      destruct m as [?|?] eqn:E; cbn [bind] in H; [|discriminate H]
  end.

Tactic Notation "bind_case" hyp(H) "as" ident(a) ident(E) :=
  match type of H with
  | context [bind ?m _] =>
      destruct m as [a|?] eqn:E; cbn [bind] in H; [|discriminate H]
  end.

Ltac break_ifs :=
  repeat match goal with
         | |- context [if ?c then _ else _] => destruct c
         end.

(** ** Python lists *)

Lemma py_index_nonneg {A} (l : list A) (i : Z) :
  0 <= i ->
  py_index l i = match l !! Z.to_nat i with
                 | Some a => Ok a
                 | None => Raise IndexError
                 end.
Proof.
  intros Hi. unfold py_index.
  destruct (Z.ltb_spec i 0); [lia|].
  destruct (Z.ltb_spec i 0); [lia|]. reflexivity.
Qed.

Lemma py_index_in_range {A} (l : list A) (i : Z) :
  0 <= i < len l -> exists a, l !! Z.to_nat i = Some a /\ py_index l i = Ok a.
Proof.
  intros [Hi Hlen]. unfold len in Hlen.
  destruct (lookup_lt_is_Some_2 l (Z.to_nat i)) as [a Ha]; [lia|].
  exists a. split; [exact Ha|]. rewrite py_index_nonneg by lia. now rewrite Ha.
Qed.

Lemma py_index_0 {A} (row0 : A) (l : list A) : py_index (row0 :: l) 0 = Ok row0.
Proof. reflexivity. Qed.

Lemma len_py_store {A} (l : list A) (i : Z) (v : A) :
  len (py_store l i v) = len l.
Proof. unfold len, py_store. now rewrite length_insert. Qed.

(** ** The wall test *)

Lemma can_move_same (x y : Z) (maze : list (list Z)) :
  Ghost.can_move x y maze = PacMan.can_move x y maze.
Proof. reflexivity. Qed.

Lemma rect_row (maze : list (list Z)) (y : Z) (row : list Z) :
  rect maze -> maze !! Z.to_nat y = Some row -> len row = width maze.
Proof.
  intros [_ Hall] Hrow. rewrite Forall_lookup in Hall. exact (Hall _ _ Hrow).
Qed.

(** Inside the grid of a rectangular maze the wall test reads the cell. *)
Lemma can_move_in_grid (maze : list (list Z)) (x y : Z) :
  rect maze -> in_grid maze x y ->
  exists cell, cell_at maze x y = Some cell
               /\ PacMan.can_move x y maze = Ok (negb (cell =? 1)).
Proof.
  intros Hrect [Hx Hy].
  destruct (py_index_in_range maze y Hy) as (row & Hrow & Hpy).
  pose proof (rect_row _ _ _ Hrect Hrow) as Hlen.
  destruct (py_index_in_range row x) as (cell & Hcell & Hpx); [lia|].
  exists cell. split.
  - unfold cell_at. now rewrite Hrow.
  - unfold PacMan.can_move.
    destruct maze as [|row0 rest]; [now destruct Hrect|].
    rewrite py_index_0. cbn [bind]. cbn [width] in Hx, Hlen.
    destruct (Z.ltb_spec x 0); [lia|].
    destruct (Z.geb_spec x (len row0)); [lia|].
    destruct (Z.ltb_spec y 0); [lia|].
    destruct (Z.geb_spec y (len (row0 :: rest))); [lia|].
    rewrite Hpy. cbn [bind]. rewrite Hpx. reflexivity.
Qed.

(** Outside the grid the wall test answers [False]. *)
Lemma can_move_outside (maze : list (list Z)) (x y : Z) :
  maze <> [] -> ~ in_grid maze x y -> PacMan.can_move x y maze = Ok false.
Proof.
  intros Hne Hout. unfold PacMan.can_move.
  destruct maze as [|row0 rest]; [congruence|].
  rewrite py_index_0. cbn [bind].
  destruct (Z.ltb_spec x 0); [reflexivity|].
  destruct (Z.geb_spec x (len row0)); [reflexivity|].
  destruct (Z.ltb_spec y 0); [reflexivity|].
  destruct (Z.geb_spec y (len (row0 :: rest))); [reflexivity|].
  exfalso. apply Hout. unfold in_grid. cbn [width]. lia.
Qed.

(** On a rectangular maze the wall test never raises. *)
Lemma can_move_total (maze : list (list Z)) (x y : Z) :
  rect maze -> exists b, PacMan.can_move x y maze = Ok b.
Proof.
  intros Hrect.
  destruct (decide (in_grid maze x y)) as [Hin|Hout].
  - destruct (can_move_in_grid _ _ _ Hrect Hin) as (cell & _ & H). eauto.
  - exists false. apply can_move_outside; [apply Hrect|exact Hout].
Qed.

(** A successful wall test means a cell inside the grid. *)
Lemma can_move_true_in_grid (maze : list (list Z)) (x y : Z) :
  PacMan.can_move x y maze = Ok true -> in_grid maze x y.
Proof.
  unfold PacMan.can_move, in_grid.
  destruct (Z.ltb_spec x 0); [discriminate|].
  destruct maze as [|row0 rest]; [discriminate|].
  rewrite py_index_0. cbn [bind width].
  destruct (Z.geb_spec x (len row0)); [discriminate|].
  destruct (Z.ltb_spec y 0); [discriminate|].
  destruct (Z.geb_spec y (len (row0 :: rest))); [discriminate|].
  intros _. lia.
Qed.

(** ** Movement stays inside the grid *)

Lemma pacman_step_in_grid (maze : list (list Z)) (p p' : PacMan.t) :
  PacMan.step maze p = Ok p' ->
  in_grid maze (PacMan.x p) (PacMan.y p) ->
  in_grid maze (PacMan.x p') (PacMan.y p').
Proof.
  unfold PacMan.step. intros H Hin.
  case_bind H. case_bind H.
  destruct a0 eqn:Hgo.
  - apply can_move_true_in_grid in E0.
    destruct a; cbn in E0, H;
      repeat match type of H with
             | context [if ?c then _ else _] => destruct c
             end; inversion H; subst; cbn; exact E0.
  - destruct a; inversion H; subst; cbn; exact Hin.
Qed.

Lemma pacman_drain_in_grid (fuel : nat) (maze : list (list Z)) :
  forall (p p' : PacMan.t) (k k' : nat),
    PacMan.drain fuel maze p k = Ok (p', k') ->
    in_grid maze (PacMan.x p) (PacMan.y p) ->
    in_grid maze (PacMan.x p') (PacMan.y p').
Proof.
  induction fuel as [|fuel IH]; intros p p' k k' H Hin; cbn [PacMan.drain] in H.
  - destruct (1.0 <=? PacMan.move_accumulator p)%float; [discriminate|].
    now inversion H; subst.
  - destruct (1.0 <=? PacMan.move_accumulator p)%float.
    + case_bind H. eapply IH; [exact H|].
      eapply pacman_step_in_grid; [exact E|]. exact Hin.
    + now inversion H; subst.
Qed.

Lemma pacman_update_in_grid (fuel : nat) (maze : list (list Z))
    (level_config : LevelConfig) (p p' : PacMan.t) :
  PacMan.update fuel maze level_config p = Ok p' ->
  in_grid maze (PacMan.x p) (PacMan.y p) ->
  in_grid maze (PacMan.x p') (PacMan.y p').
Proof.
  unfold PacMan.update, PacMan.update_counted. intros H Hin.
  case_bind H. case_bind E. destruct a0 as [q k].
  inversion E; subst. inversion H; subst. cbn.
  eapply pacman_drain_in_grid; [exact E0|]. exact Hin.
Qed.

Lemma return_to_base_pos (maze : list (list Z)) (g g' : Ghost.t) :
  Ghost.return_to_base maze g = Ok g' ->
  Ghost.x g' = Ghost.x g /\ Ghost.y g' = Ghost.y g.
Proof.
  unfold Ghost.return_to_base. intros H. case_bind H.
  now inversion H; subst.
Qed.

(** [ai_move] writes the direction and nothing else. *)
Lemma ai_move_set_dir (maze : list (list Z)) (pacman : PacMan.t)
    (g g' : Ghost.t) :
  Ghost.ai_move maze pacman g = Ok g' -> exists d, g' = Ghost.set_dir g d.
Proof.
  unfold Ghost.ai_move. intros H.
  bind_case H as vs Evs. bind_case H as d0 Ed0. bind_case H as d Ed.
  exists d. now inversion H.
Qed.

Lemma ai_move_pos (maze : list (list Z)) (pacman : PacMan.t) (g g' : Ghost.t) :
  Ghost.ai_move maze pacman g = Ok g' ->
  Ghost.x g' = Ghost.x g /\ Ghost.y g' = Ghost.y g.
Proof.
  intros H. apply ai_move_set_dir in H as [d ->]. now cbn.
Qed.

Lemma frightened_move_pos {R} `{Shuffle R} (maze : list (list Z)) (r r' : R)
    (g g' : Ghost.t) :
  Ghost.frightened_move maze r g = Ok (r', g') ->
  Ghost.x g' = Ghost.x g /\ Ghost.y g' = Ghost.y g.
Proof.
  unfold Ghost.frightened_move. intros Hm.
  destruct (shuffle r _) as [ds r1]. case_bind Hm.
  destruct a; inversion Hm; subst; now cbn.
Qed.

Lemma ghost_step_in_grid {R} `{Shuffle R} (maze : list (list Z))
    (pacman : PacMan.t) (r r' : R) (g g' : Ghost.t) :
  Ghost.step maze pacman r g = Ok (r', g') ->
  in_grid maze (Ghost.x g) (Ghost.y g) ->
  in_grid maze (Ghost.x g') (Ghost.y g').
Proof.
  unfold Ghost.step. intros Hs Hin.
  case_bind Hs. destruct a as [r1 g1].
  assert (Hpos : Ghost.x g1 = Ghost.x g /\ Ghost.y g1 = Ghost.y g).
  { destruct (Ghost.eaten g).
    - destruct (_ && _).
      + now inversion E; subst.
      + case_bind E. inversion E; subst. eapply return_to_base_pos; eassumption.
    - destruct (Ghost.frightened g).
      + eapply frightened_move_pos; eassumption.
      + case_bind E. inversion E; subst. eapply ai_move_pos; eassumption. }
  destruct Hpos as [Hx Hy].
  case_bind Hs. destruct a.
  - inversion Hs; subst. cbn.
    apply can_move_true_in_grid. exact E0.
  - inversion Hs; subst. now rewrite Hx, Hy.
Qed.

Lemma ghost_drain_in_grid {R} `{Shuffle R} (fuel : nat) (maze : list (list Z))
    (pacman : PacMan.t) :
  forall (r r' : R) (g g' : Ghost.t) (k k' : nat),
    Ghost.drain fuel maze pacman r g k = Ok (r', g', k') ->
    in_grid maze (Ghost.x g) (Ghost.y g) ->
    in_grid maze (Ghost.x g') (Ghost.y g').
Proof.
  induction fuel as [|fuel IH]; intros r r' g g' k k' Hd Hin;
    cbn [Ghost.drain] in Hd.
  - destruct (1.0 <=? Ghost.move_accumulator g)%float; [discriminate|].
    now inversion Hd; subst.
  - destruct (1.0 <=? Ghost.move_accumulator g)%float.
    + case_bind Hd. destruct a as [r1 g1]. eapply IH; [exact Hd|].
      eapply ghost_step_in_grid; [exact E|]. exact Hin.
    + now inversion Hd; subst.
Qed.

Lemma ghost_update_in_grid {R} `{Shuffle R} (fuel : nat)
    (maze : list (list Z)) (pacman : PacMan.t) (level_config : LevelConfig)
    (r r' : R) (g g' : Ghost.t) :
  Ghost.update fuel maze pacman level_config r g = Ok (r', g') ->
  in_grid maze (Ghost.x g) (Ghost.y g) ->
  in_grid maze (Ghost.x g') (Ghost.y g').
Proof.
  unfold Ghost.update, Ghost.update_counted. intros Hu Hin.
  case_bind Hu. destruct a as [[r1 g1] k]. inversion Hu; subst.
  eapply ghost_drain_in_grid; [exact E|].
  destruct (Ghost.eaten g); [exact Hin|].
  destruct (Ghost.frightened g); exact Hin.
Qed.

Lemma rect_MAZE : rect MAZE.
Proof. split; [discriminate|]. repeat constructor. Defined.

(** C10 — Wall test at the public interface.  On a rectangular grid,
    [can_move(x, y, maze)] of the player and of a ghost give the same
    answer and never raise; the answer is [False] exactly when [(x, y)] is
    outside the grid or the cell holds the WALL code 1; every other cell
    code inside the grid (EMPTY, PELLET, POWER_PELLET, DOOR, FRUIT_SPOT) is
    passable, the ghost-house DOOR included; and since a move is made only
    after a successful test, an update of the player or of a ghost that
    starts inside the grid ends inside the grid: nothing wraps around at
    the open edge rows. *)
Theorem can_move_wall_semantics (maze : list (list Z)) (x y : Z) :
  rect maze ->
  (exists b,
      PacMan.can_move x y maze = Ok b /\ Ghost.can_move x y maze = Ok b
      /\ (b = false <-> ~ in_grid maze x y \/ cell_at maze x y = Some WALL))
  /\ (forall cell,
         in_grid maze x y -> cell_at maze x y = Some cell -> cell <> WALL ->
         PacMan.can_move x y maze = Ok true
         /\ Ghost.can_move x y maze = Ok true)
  /\ (forall fuel level_config p p',
         in_grid maze (PacMan.x p) (PacMan.y p) ->
         PacMan.update fuel maze level_config p = Ok p' ->
         in_grid maze (PacMan.x p') (PacMan.y p'))
  /\ (forall (R : Type) (S : Shuffle R) fuel pacman level_config
             (r r' : R) g g',
         in_grid maze (Ghost.x g) (Ghost.y g) ->
         Ghost.update fuel maze pacman level_config r g = Ok (r', g') ->
         in_grid maze (Ghost.x g') (Ghost.y g')).
Proof.
  intros Hrect. split; [|split; [|split]].
  - destruct (decide (in_grid maze x y)) as [Hin|Hout].
    + destruct (can_move_in_grid _ _ _ Hrect Hin) as (cell & Hcell & Hcm).
      exists (negb (cell =? 1)).
      change (Ghost.can_move x y maze) with (PacMan.can_move x y maze).
      split; [exact Hcm|]. split; [exact Hcm|].
      rewrite Hcell. unfold WALL. split.
      * intros Hb. right. f_equal.
        destruct (Z.eqb_spec cell 1); [assumption|discriminate].
      * intros [Hno|Hw]; [contradiction|]. inversion Hw; subst. reflexivity.
    + exists false.
      change (Ghost.can_move x y maze) with (PacMan.can_move x y maze).
      rewrite (can_move_outside _ _ _ (proj1 Hrect) Hout).
      split; [reflexivity|]. split; [reflexivity|]. split; [now left|reflexivity].
  - intros cell Hin Hcell Hnw.
    change (Ghost.can_move x y maze) with (PacMan.can_move x y maze).
    destruct (can_move_in_grid _ _ _ Hrect Hin) as (c & Hc & Hcm).
    rewrite Hcell in Hc. inversion Hc; subst c. rewrite Hcm.
    unfold WALL in Hnw. destruct (Z.eqb_spec cell 1); [contradiction|].
    split; reflexivity.
  - intros fuel level_config p p' Hin Hup.
    eapply pacman_update_in_grid; eassumption.
  - intros R S fuel pacman level_config r r' g g' Hin Hup.
    eapply ghost_update_in_grid; eassumption.
Qed.

Lemma can_move_wall_semantics_witness :
  rect MAZE
  /\ PacMan.can_move 13 10 MAZE = Ok true
  /\ Ghost.can_move 13 10 MAZE = Ok true.
Proof.
  split; [exact rect_MAZE|].
  destruct (can_move_wall_semantics MAZE 13 10 rect_MAZE) as (_ & Hdoor & _).
  apply (Hdoor DOOR).
  - unfold in_grid. change (width MAZE) with 28. change (len MAZE) with 26. lia.
  - reflexivity.
  - discriminate.
Defined.

(** ** Level configuration *)

(** Levels above the cutoff, the terminal level apart, get the
    configuration of level 21. *)
Lemma get_level_config_capped (level : Z) :
  21 < level -> level <> 256 -> get_level_config level = get_level_config 21.
Proof.
  intros Hgt Hne. unfold get_level_config.
  destruct (Z.eqb_spec level 256); [contradiction|].
  rewrite Z.min_r by lia. reflexivity.
Qed.

Lemma get_level_config_21 : get_level_config 21 = Ok level21_config.
Proof. reflexivity. Qed.

Lemma get_level_config_monotone (level : Z) :
  1 <= level < 21 ->
  exists c c',
    get_level_config level = Ok c /\ get_level_config (level + 1) = Ok c'
    /\ config_le c c' = true.
Proof.
  intros Hl.
  assert (Hcases : Exists (fun l => level = l) (seqZ 1 20)).
  { apply Exists_exists. exists level. split; [|reflexivity].
    apply elem_of_seqZ. lia. }
  cbv [seqZ seq Z.to_nat Pos.to_nat Pos.iter_op Nat.add fmap list_fmap] in Hcases.
  repeat (apply Exists_cons in Hcases as [->|Hcases];
          [eexists _, _; repeat split; vm_compute; reflexivity|]).
  now apply Exists_nil in Hcases.
Qed.

(** The levels from 0 to 21, one by one. *)
Lemma level_cases (level : Z) :
  0 <= level <= 21 -> Exists (fun l => level = l) (seqZ 0 22).
Proof.
  intros Hl. apply Exists_exists. exists level. split; [|reflexivity].
  apply elem_of_seqZ. lia.
Qed.

(** C7 — Level configuration provider.  [get_level_config] is a
    function of the level number alone.  On the level numbers from 0 on
    (the main loop passes 1 to 256) it never fails; every level above the
    cutoff 21 other than the terminal level 256 gets exactly the
    configuration of level 21; a level that has no entry of its own in the
    table, 256 apart, falls back to that capped configuration; from each
    level of 1..20 to the next the player's and the ghosts' speeds do not
    decrease and the frightened time does not increase; and the frightened
    time of level 21 is zero. *)
Theorem get_level_config_table (level : Z) :
  0 <= level ->
  (exists c, get_level_config level = Ok c)
  /\ (21 < level -> level <> 256 ->
      get_level_config level = get_level_config 21)
  /\ (mapped level = false -> level <> 256 ->
      get_level_config level = Ok level21_config)
  /\ (1 <= level < 21 ->
      exists c c',
        get_level_config level = Ok c
        /\ get_level_config (level + 1) = Ok c'
        /\ config_le c c' = true)
  /\ (level = 21 ->
      exists c, get_level_config level = Ok c /\ frightened_time c = 0).
Proof.
  intros H0. split; [|split; [|split; [|split]]].
  - destruct (Z.eq_dec level 256) as [->|Hne]; [eexists; reflexivity|].
    destruct (Z.ltb_spec 21 level) as [Hgt|Hle].
    + rewrite (get_level_config_capped level Hgt Hne). eexists. reflexivity.
    + pose proof (level_cases level ltac:(lia)) as Hcases.
      cbv [seqZ seq Z.to_nat Pos.to_nat Pos.iter_op Nat.add fmap list_fmap]
        in Hcases.
      repeat (apply Exists_cons in Hcases as [->|Hcases];
              [eexists; vm_compute; reflexivity|]).
      now apply Exists_nil in Hcases.
  - apply get_level_config_capped.
  - intros Hun Hne.
    destruct (Z.ltb_spec 21 level) as [Hgt|Hle].
    + rewrite (get_level_config_capped level Hgt Hne). reflexivity.
    + pose proof (level_cases level ltac:(lia)) as Hcases.
      cbv [seqZ seq Z.to_nat Pos.to_nat Pos.iter_op Nat.add fmap list_fmap]
        in Hcases.
      repeat (apply Exists_cons in Hcases as [->|Hcases];
              [first [reflexivity|vm_compute in Hun; discriminate Hun]|]).
      now apply Exists_nil in Hcases.
  - apply get_level_config_monotone.
  - intros ->. eexists. split; reflexivity.
Qed.

(** Level 100 has no entry: it gets the configuration of level 21. *)
Lemma get_level_config_table_witness :
  0 <= 100 /\ get_level_config 100 = Ok level21_config.
Proof.
  assert (H0 : 0 <= 100) by lia.
  split; [exact H0|].
  destruct (get_level_config_table 100 H0) as (_ & _ & Hun & _).
  apply Hun; [reflexivity|discriminate].
Defined.

(** ** Extra life *)

(** What the check really tests: the last decimal digits of the score,
    whatever the score was before the tick. *)
Lemma extra_life_phase_lives (g : Main.t) :
  Main.lives (Main.extra_life_phase g)
  = Main.lives g + (if Main.score g mod 10000 <? 10 then 1 else 0).
Proof.
  unfold Main.extra_life_phase.
  destruct (Z.gtb_spec (Main.score g / 10000) ((Main.score g - 10) / 10000))
    as [Hgt|Hle];
    destruct (Z.ltb_spec (Main.score g mod 10000) 10) as [Hlt|Hge];
    cbn; try lia; exfalso; Z.div_mod_to_equations; lia.
Qed.

(** C1 — Extra-life check.  The test is
    [score // 10000 > (score - 10) // 10000], with the constant 10 where
    the tick's score delta belongs.  (1) On the first PLAYING tick of a
    new game the score is 0 and stays 0, no boundary is crossed, and a life
    is granted. (2) A power pellet eaten at 9990 points takes the score to
    10040 across the 10000 boundary in one tick, and no life is granted.
    (3) A pellet eaten at 9990 points takes the score to 10000 and grants a
    life, and the next tick, in which the score does not change, grants
    another one for the same crossing. *)
Theorem extra_life_fixed_delta :
  (observe Main.state boot = Ok PLAYING
   /\ observe Main.score boot = Ok 0
   /\ observe Main.lives boot = Ok 3
   /\ observe Main.score (then_frames 1 boot) = Ok 0
   /\ observe Main.lives (then_frames 1 boot) = Ok 4)
  /\ (observe Main.score (placed 1 2 9990 1) = Ok 9990
      /\ observe Main.lives (placed 1 2 9990 1) = Ok 3
      /\ observe Main.score (then_frames 1 (placed 1 2 9990 1)) = Ok 10040
      /\ observe Main.lives (then_frames 1 (placed 1 2 9990 1)) = Ok 3)
  /\ (observe Main.score (then_frames 1 (placed 1 1 9990 1)) = Ok 10000
      /\ observe Main.lives (then_frames 1 (placed 1 1 9990 1)) = Ok 4
      /\ observe Main.score (then_frames 2 (placed 1 1 9990 1)) = Ok 10000
      /\ observe Main.lives (then_frames 2 (placed 1 1 9990 1)) = Ok 5).
Proof. repeat split; vm_compute; reflexivity. Qed.

(** ** Pellets under the player *)

(** The pellet check when the player stands on a power pellet. *)
Lemma pellet_phase_power (level_config : LevelConfig) (g : Main.t) :
  in_grid (Main.maze g) (PacMan.x (Main.pacman g)) (PacMan.y (Main.pacman g)) ->
  cell_at (Main.maze g) (PacMan.x (Main.pacman g)) (PacMan.y (Main.pacman g))
  = Some POWER_PELLET ->
  exists g',
    Main.pellet_phase level_config g = Ok g'
    /\ Main.score g' = Main.score g + 50
    /\ Main.power_timer g' = frightened_time level_config
    /\ Main.ghost_score g' = 200
    /\ Main.ghosts g'
       = map (fun gh => if negb (Ghost.eaten gh)
                        then Ghost.set_frightened gh true else gh)
             (Main.ghosts g).
Proof.
  intros [Hx Hy] Hcell. unfold Main.pellet_phase.
  set (x := PacMan.x (Main.pacman g)) in *.
  set (y := PacMan.y (Main.pacman g)) in *.
  unfold cell_at in Hcell.
  destruct (Main.maze g !! Z.to_nat y) as [row|] eqn:Hrow; [|discriminate].
  destruct (Main.maze g) as [|row0 rest] eqn:Hmaze; [discriminate|].
  cbn [width] in Hx.
  destruct (Z.leb_spec 0 y); [|lia].
  destruct (Z.ltb_spec y (len (row0 :: rest))); [|lia].
  destruct (Z.leb_spec 0 x); [|lia].
  cbn [andb]. rewrite py_index_0. cbn [bind].
  destruct (Z.ltb_spec x (len row0)); [|lia].
  rewrite (py_index_nonneg (row0 :: rest) y) by lia. rewrite Hrow. cbn [bind].
  rewrite (py_index_nonneg row x) by lia. rewrite Hcell. cbn [bind].
  cbn. eexists. split; [reflexivity|]. cbn. auto.
Qed.

(** ** Frightened mode *)

Lemma power_phase_idle (g : Main.t) :
  Main.power_timer g = 0 -> Main.power_phase g = g.
Proof. intros H. unfold Main.power_phase. now rewrite H. Qed.

Lemma power_phase_idle_iter (n : nat) (g : Main.t) :
  Main.power_timer g = 0 -> Nat.iter n Main.power_phase g = g.
Proof.
  intros H. induction n as [|n IH]; [reflexivity|].
  rewrite Nat.iter_succ, IH. now apply power_phase_idle.
Qed.

(** With a positive timer, frightened mode ends on the tick that brings
    the timer to zero, and not before. *)
Lemma power_phase_counts_down (g : Main.t) :
  0 < Main.power_timer g ->
  Main.power_timer (Main.power_phase g) = Main.power_timer g - 1
  /\ (Main.power_timer g = 1 ->
      Main.ghosts (Main.power_phase g)
      = map (fun gh => Ghost.set_frightened gh false) (Main.ghosts g))
  /\ (1 < Main.power_timer g ->
      Main.ghosts (Main.power_phase g) = Main.ghosts g).
Proof.
  intros Hpos. unfold Main.power_phase.
  destruct (Z.gtb_spec (Main.power_timer g) 0); [|lia]. cbn.
  destruct (Z.eqb_spec (Main.power_timer g - 1) 0); cbn.
  - split; [reflexivity|]. split; [reflexivity|]. intros. lia.
  - split; [reflexivity|]. split; [|reflexivity]. intros. lia.
Qed.

(** C5 — Frightened mode with a zero duration.  From level 21 on (the
    terminal level apart) the configured frightened time is 0.  Eating a
    power pellet there sets the power timer to 0 and still puts every
    ghost that is not eaten into frightened mode; the timer is only looked
    at while it is positive, so no later tick of the power timer ends the
    mode: the ghosts stay frightened for any number of ticks. *)
Theorem frightened_zero_duration_never_ends
    (g : Main.t) (level_config : LevelConfig) (n : nat) :
  21 <= Main.level g -> Main.level g <> 256 ->
  get_level_config (Main.level g) = Ok level_config ->
  in_grid (Main.maze g) (PacMan.x (Main.pacman g)) (PacMan.y (Main.pacman g)) ->
  cell_at (Main.maze g) (PacMan.x (Main.pacman g)) (PacMan.y (Main.pacman g))
  = Some POWER_PELLET ->
  exists g',
    Main.pellet_phase level_config g = Ok g'
    /\ Main.power_timer g' = 0
    /\ Forall (fun gh => Ghost.eaten gh = false -> Ghost.frightened gh = true)
              (Main.ghosts g')
    /\ Nat.iter n Main.power_phase g' = g'.
Proof.
  intros H21 H256 Hcfg Hin Hcell.
  assert (Hzero : frightened_time level_config = 0).
  { destruct (Z.eq_dec (Main.level g) 21) as [E|E].
    - rewrite E, get_level_config_21 in Hcfg. now inversion Hcfg.
    - rewrite get_level_config_capped, get_level_config_21 in Hcfg by lia.
      now inversion Hcfg. }
  destruct (pellet_phase_power level_config g Hin Hcell)
    as (g' & Hp & _ & Ht & _ & Hgs).
  exists g'. split; [exact Hp|]. rewrite Hzero in Ht.
  split; [exact Ht|]. split.
  - rewrite Hgs. apply Forall_forall. intros gh Hel.
    apply list_elem_of_fmap in Hel as (gh0 & -> & _).
    destruct (Ghost.eaten gh0) eqn:He; cbn; [congruence|reflexivity].
  - now apply power_phase_idle_iter.
Qed.

(** At level 21, with the player on the power pellet of cell (1, 2): the
    four ghosts are frightened after the tick, and 600 ticks later none
    of them is back in pursuit. *)
Lemma frightened_zero_duration_never_ends_witness :
  observe Main.power_timer (then_frames 1 (placed 1 2 0 21)) = Ok 0
  /\ observe none_pursuing (placed 1 2 0 21) = Ok false
  /\ observe none_pursuing (then_frames 1 (placed 1 2 0 21)) = Ok true
  /\ observe none_pursuing (then_frames 601 (placed 1 2 0 21)) = Ok true
  /\ exists g',
      Main.pellet_phase level21_config
        (Main.set_level
           (Main.set_pacman Main.init (PacMan.set_pos PacMan.init 1 2)) 21)
      = Ok g'
      /\ Main.power_timer g' = 0
      /\ Forall (fun gh => Ghost.eaten gh = false -> Ghost.frightened gh = true)
                (Main.ghosts g')
      /\ Nat.iter 600 Main.power_phase g' = g'.
Proof.
  split; [vm_compute; reflexivity|].
  split; [vm_compute; reflexivity|].
  split; [vm_compute; reflexivity|].
  split; [vm_compute; reflexivity|].
  apply (frightened_zero_duration_never_ends
           (Main.set_level
              (Main.set_pacman Main.init (PacMan.set_pos PacMan.init 1 2)) 21)
           level21_config 600).
  - cbn. lia.
  - cbn. lia.
  - reflexivity.
  - unfold in_grid. cbn [Main.maze Main.set_level Main.set_pacman Main.init
      Main.pacman PacMan.x PacMan.y PacMan.set_pos].
    change (width MAZE) with 28. change (len MAZE) with 26. lia.
  - reflexivity.
Defined.

(** ** Fruit *)

(** While the fruit is active with more than one tick left, a tick of
    the fruit timer only counts down. *)
Lemma fruit_phase_counts_down (g : Main.t) :
  Main.fruit_active g = true -> 1 < Main.fruit_timer g ->
  Main.fruit_active (Main.fruit_phase g) = true
  /\ Main.fruit_timer (Main.fruit_phase g) = Main.fruit_timer g - 1.
Proof.
  destruct g as [st sc hs lv le de pt it dt lt gs ft fa mz pm gh rn].
  cbn. intros -> Ht. unfold Main.fruit_phase. cbn.
  destruct ((de =? 70) || (de =? 170)); cbn;
    (destruct (Z.leb_spec (ft - 1) 0); [lia|]); cbn; auto.
Qed.

(** At a count other than 70 and 170 an inactive fruit stays inactive. *)
Lemma fruit_phase_off_threshold (g : Main.t) :
  Main.dots_eaten g <> 70 -> Main.dots_eaten g <> 170 ->
  Main.fruit_active g = false -> Main.fruit_phase g = g.
Proof.
  intros H70 H170 Ha. unfold Main.fruit_phase.
  destruct (Z.eqb_spec (Main.dots_eaten g) 70); [contradiction|].
  destruct (Z.eqb_spec (Main.dots_eaten g) 170); [contradiction|].
  cbn. now rewrite Ha.
Qed.

(** C6 — Fruit activation is not latched.  The activation test is
    [dots_eaten == 70 or dots_eaten == 170] with [not fruit_active], and it
    is made on every tick: when the fruit has been deactivated, by its
    timer or by being eaten, and the counter still equals the threshold,
    the next tick activates it again with a fresh timer.  (1) Whatever the
    session, a tick of the fruit timer at a threshold with the fruit
    inactive leaves it active with 599 ticks to go. (2) A fruit whose timer
    runs out at 70 dots is inactive after that tick and active after the
    next one. (3) A player standing on the fruit cell (13, 15) at 70 dots
    collects the level-1 fruit on each of three successive ticks. *)
Theorem fruit_reactivates_at_threshold :
  (forall g : Main.t,
      Main.dots_eaten g = 70 \/ Main.dots_eaten g = 170 ->
      Main.fruit_active g = false ->
      Main.fruit_active (Main.fruit_phase g) = true
      /\ Main.fruit_timer (Main.fruit_phase g) = 599)
  /\ (forall g : Main.t,
         Main.dots_eaten g = 70 \/ Main.dots_eaten g = 170 ->
         Main.fruit_active g = true -> Main.fruit_timer g = 1 ->
         Main.fruit_active (Main.fruit_phase g) = false
         /\ Main.fruit_active (Main.fruit_phase (Main.fruit_phase g)) = true)
  /\ (observe Main.score (with_dots 70 (placed 13 15 100 1)) = Ok 100
      /\ observe Main.score (then_frames 1 (with_dots 70 (placed 13 15 100 1)))
         = Ok 200
      /\ observe Main.score (then_frames 2 (with_dots 70 (placed 13 15 100 1)))
         = Ok 300
      /\ observe Main.score (then_frames 3 (with_dots 70 (placed 13 15 100 1)))
         = Ok 400
      /\ observe Main.dots_eaten
           (then_frames 3 (with_dots 70 (placed 13 15 100 1))) = Ok 70).
Proof.
  assert (Hon : forall g : Main.t,
             Main.dots_eaten g = 70 \/ Main.dots_eaten g = 170 ->
             Main.fruit_active g = false ->
             Main.fruit_active (Main.fruit_phase g) = true
             /\ Main.fruit_timer (Main.fruit_phase g) = 599).
  { intros g Hd Ha.
    destruct g as [st sc hs lv le de pt it dt lt gs ft fa mz pm gh rn].
    cbn in Hd, Ha. subst fa. unfold Main.fruit_phase. cbn.
    destruct Hd as [->| ->]; cbn; auto. }
  split; [exact Hon|]. split.
  - intros g Hd Ha Ht.
    assert (Hoff : Main.fruit_active (Main.fruit_phase g) = false
                   /\ Main.dots_eaten (Main.fruit_phase g) = Main.dots_eaten g).
    { destruct g as [st sc hs lv le de pt it dt lt gs ft fa mz pm gh rn].
      cbn in Hd, Ha, Ht. subst fa ft. unfold Main.fruit_phase. cbn.
      destruct ((de =? 70) || (de =? 170)); cbn; auto. }
    destruct Hoff as [Hoff Hdots].
    split; [exact Hoff|].
    apply Hon; [|exact Hoff]. rewrite Hdots. exact Hd.
  - repeat split; vm_compute; reflexivity.
Qed.

Lemma fruit_reactivates_at_threshold_witness :
  Main.dots_eaten (Main.set_dots_eaten Main.init 70) = 70
  /\ Main.fruit_active (Main.set_dots_eaten Main.init 70) = false
  /\ Main.fruit_active (Main.fruit_phase (Main.set_dots_eaten Main.init 70))
     = true
  /\ Main.fruit_timer (Main.fruit_phase (Main.set_dots_eaten Main.init 70))
     = 599.
Proof.
  split; [reflexivity|]. split; [reflexivity|].
  apply (proj1 fruit_reactivates_at_threshold
           (Main.set_dots_eaten Main.init 70)).
  - left. reflexivity.
  - reflexivity.
Defined.

(** ** Ghost collisions *)

(** The collision loop is the per-ghost body run from left to right. *)
Lemma collide_all_cons (g : Main.t) (gh : Ghost.t) (gs : list Ghost.t) :
  Main.collide_all g (gh :: gs)
  = ((Main.collide_all (Main.collide g gh).1 gs).1,
     (Main.collide g gh).2 :: (Main.collide_all (Main.collide g gh).1 gs).2).
Proof.
  cbn [Main.collide_all]. destruct (Main.collide g gh) as [g1 gh1]. cbn.
  now destruct (Main.collide_all g1 gs).
Qed.

(** ** Ghost targeting *)

(** In a new game the chaser is at (13, 11) and the player at (14, 20),
    standing: the source aims Inky at (14, 20), the reflection through the
    chaser's cell is (15, 29). *)
Lemma fickle_target_not_through_chaser :
  exists chaser,
    Main.ghosts Main.init !! 0%nat = Some chaser
    /\ Ghost.personality chaser = "chaser"
    /\ Ghost.fickle_target (Main.pacman Main.init) = (14, 20)
    /\ fickle_target_through_chaser (Main.pacman Main.init) chaser = (15, 29)
    /\ Ghost.fickle_target (Main.pacman Main.init)
       <> fickle_target_through_chaser (Main.pacman Main.init) chaser.
Proof.
  eexists. split; [reflexivity|]. repeat split. discriminate.
Qed.

(** C4 (amended) — Fickle targeting.  In pursuit mode the fickle
    ghost's target is the reflection of the pivot (the player's cell offset
    2 cells ahead along the player's direction) through the player's own
    cell, the source taking the player's position for the chaser's; that
    is the point 4 cells ahead of the player, the ambusher's target, and a
    fickle ghost chooses the direction an ambusher would choose in its
    place.  No other ghost's position enters. *)
Theorem fickle_target_reflects_through_player
    (maze : list (list Z)) (pacman : PacMan.t) (g : Ghost.t) :
  Ghost.fickle_target pacman
  = reflect (pivot pacman) (PacMan.x pacman, PacMan.y pacman)
  /\ Ghost.fickle_target pacman = Ghost.ambusher_target pacman
  /\ chosen (Ghost.ai_move maze pacman (with_personality g "fickle"))
     = chosen (Ghost.ai_move maze pacman (with_personality g "ambusher")).
Proof.
  assert (Hamb : Ghost.fickle_target pacman = Ghost.ambusher_target pacman).
  { unfold Ghost.fickle_target, Ghost.ambusher_target. f_equal; lia. }
  split; [reflexivity|]. split; [exact Hamb|].
  unfold Ghost.ai_move. cbn [with_personality Ghost.personality Ghost.dx Ghost.dy].
  change (String.eqb "fickle" "chaser") with false.
  change (String.eqb "fickle" "ambusher") with false.
  change (String.eqb "fickle" "fickle") with true.
  change (String.eqb "ambusher" "chaser") with false.
  change (String.eqb "ambusher" "ambusher") with true.
  cbv iota. rewrite Hamb.
  assert (Hvalid : forall opp ds,
             Ghost.valid_loop maze (with_personality g "fickle") opp ds
             = Ghost.valid_loop maze (with_personality g "ambusher") opp ds).
  { intros opp ds. induction ds as [|d ds IH]; [reflexivity|].
    cbn [Ghost.valid_loop]. now rewrite IH. }
  assert (Hnear : forall tx ty ds m b,
             Ghost.nearest (with_personality g "fickle") tx ty ds m b
             = Ghost.nearest (with_personality g "ambusher") tx ty ds m b).
  { intros tx ty ds. induction ds as [|d ds IH]; intros m b; [reflexivity|].
    cbn [Ghost.nearest]. now rewrite !IH. }
  rewrite Hvalid.
  destruct (Ghost.valid_loop maze (with_personality g "ambusher") _ _)
    as [valid|e]; [|reflexivity].
  cbn [bind].
  destruct (py_index _ 0) as [best|e]; [|reflexivity].
  cbn [bind chosen]. rewrite Hnear. reflexivity.
Qed.

(** ** What a tick does to the maze *)

Lemma power_phase_keeps (g : Main.t) :
  Main.maze (Main.power_phase g) = Main.maze g
  /\ Main.pacman (Main.power_phase g) = Main.pacman g.
Proof. unfold Main.power_phase. break_ifs; auto. Qed.

Lemma fruit_phase_keeps (g : Main.t) :
  Main.maze (Main.fruit_phase g) = Main.maze g
  /\ Main.pacman (Main.fruit_phase g) = Main.pacman g.
Proof.
  unfold Main.fruit_phase.
  destruct ((Main.dots_eaten g =? 70) || (Main.dots_eaten g =? 170));
    destruct (Main.fruit_active g) eqn:Ha; cbn; rewrite ?Ha; cbn;
    break_ifs; auto.
Qed.

Lemma collide_keeps (g : Main.t) (gh : Ghost.t) :
  Main.maze (Main.collide g gh).1 = Main.maze g
  /\ Main.pacman (Main.collide g gh).1 = Main.pacman g.
Proof. unfold Main.collide. break_ifs; auto. Qed.

Lemma collide_all_keeps (gs : list Ghost.t) :
  forall g : Main.t,
    Main.maze (Main.collide_all g gs).1 = Main.maze g
    /\ Main.pacman (Main.collide_all g gs).1 = Main.pacman g.
Proof.
  induction gs as [|gh gs IH]; intros g; [now split|].
  rewrite collide_all_cons. cbn [fst].
  destruct (IH (Main.collide g gh).1) as [-> ->]. apply collide_keeps.
Qed.

Lemma collision_phase_keeps (g : Main.t) :
  Main.maze (Main.collision_phase g) = Main.maze g
  /\ Main.pacman (Main.collision_phase g) = Main.pacman g.
Proof.
  unfold Main.collision_phase.
  pose proof (collide_all_keeps (Main.ghosts g) g) as H.
  destruct (Main.collide_all g (Main.ghosts g)) as [g1 gs]. exact H.
Qed.

Lemma level_complete_phase_keeps (g : Main.t) :
  Main.maze (Main.level_complete_phase g) = Main.maze g
  /\ Main.pacman (Main.level_complete_phase g) = Main.pacman g.
Proof. unfold Main.level_complete_phase. break_ifs; auto. Qed.

Lemma high_score_phase_keeps (g : Main.t) :
  Main.maze (Main.high_score_phase g) = Main.maze g
  /\ Main.pacman (Main.high_score_phase g) = Main.pacman g.
Proof. unfold Main.high_score_phase. break_ifs; auto. Qed.

Lemma extra_life_phase_keeps (g : Main.t) :
  Main.maze (Main.extra_life_phase g) = Main.maze g
  /\ Main.pacman (Main.extra_life_phase g) = Main.pacman g.
Proof. unfold Main.extra_life_phase. break_ifs; auto. Qed.

(** The pellet check leaves the player where it is and the grid as it
    is, unless the cell under the player holds a pellet or a power pellet;
    a fruit is collected without a change of the grid. *)
Lemma pellet_phase_maze (level_config : LevelConfig) (g g' : Main.t) :
  Main.pellet_phase level_config g = Ok g' ->
  Main.pacman g' = Main.pacman g
  /\ maze_step (Main.maze g) (Main.maze g') (Main.pacman g).
Proof.
  unfold Main.pellet_phase, maze_step.
  set (x := PacMan.x (Main.pacman g)). set (y := PacMan.y (Main.pacman g)).
  intros Hp.
  destruct (Z.leb_spec 0 y); cbn [andb] in Hp;
    [|inversion Hp; subst; auto].
  destruct (y <? len (Main.maze g));
    [|inversion Hp; subst; auto].
  destruct (Z.leb_spec 0 x); [|inversion Hp; subst; auto].
  case_bind Hp.
  destruct (x <? len a); [|inversion Hp; subst; auto].
  case_bind Hp. case_bind Hp.
  rewrite py_index_nonneg in E0 by lia.
  destruct (Main.maze g !! Z.to_nat y) as [row|] eqn:Hrow; [|discriminate].
  inversion E0; subst a0.
  rewrite py_index_nonneg in E1 by lia.
  destruct (row !! Z.to_nat x) as [cell|] eqn:Hcell; [|discriminate].
  inversion E1; subst a1.
  destruct (Z.eqb_spec cell 2).
  { inversion Hp; subst. cbn. split; [reflexivity|]. right.
    exists row. unfold PELLET. auto 10. }
  destruct (Z.eqb_spec cell 3).
  { inversion Hp; subst. cbn. split; [reflexivity|]. right.
    exists row. unfold POWER_PELLET. auto 10. }
  destruct ((cell =? 5) && Main.fruit_active g);
    inversion Hp; subst; cbn; auto.
Qed.

(** A simulation tick changes the grid by the pellet check alone. *)
Lemma playing_maze {R} `{Shuffle R} (fuel : nat) (level_config : LevelConfig)
    (r r' : R) (g g' : Main.t) :
  Main.playing fuel level_config r g = Ok (r', g') ->
  maze_step (Main.maze g) (Main.maze g') (Main.pacman g').
Proof.
  unfold Main.playing. intros Hp.
  bind_case Hp as p Epac. bind_case Hp as rgs Eghosts.
  destruct rgs as [r1 gs].
  bind_case Hp as g1 Epellet. inversion Hp; subst r' g'. clear Hp.
  apply pellet_phase_maze in Epellet as [Hpac Hstep].
  destruct (extra_life_phase_keeps
              (Main.high_score_phase
                 (Main.level_complete_phase (Main.collision_phase g1))))
    as [-> ->].
  destruct (high_score_phase_keeps
              (Main.level_complete_phase (Main.collision_phase g1)))
    as [-> ->].
  destruct (level_complete_phase_keeps (Main.collision_phase g1)) as [-> ->].
  destruct (collision_phase_keeps g1) as [-> ->].
  rewrite Hpac.
  destruct (fruit_phase_keeps
              (Main.power_phase
                 (Main.set_ghosts (Main.set_pacman g p) gs))) as [Hm1 Hp1].
  destruct (power_phase_keeps (Main.set_ghosts (Main.set_pacman g p) gs))
    as [Hm2 Hp2].
  rewrite Hm1, Hm2, Hp1, Hp2 in Hstep. rewrite Hp1, Hp2. exact Hstep.
Qed.

Lemma handle_event_keeps (g : Main.t) (e : event) :
  Main.maze (Main.handle_event g e) = Main.maze g
  /\ (Main.state (Main.handle_event g e) = Main.state g
      \/ Main.state (Main.handle_event g e) = READY).
Proof.
  unfold Main.handle_event.
  destruct e as [|k|]; [auto| |auto].
  destruct k; cbn; break_ifs; cbn; auto.
Qed.

Lemma handle_events_keep (events : list event) :
  forall g : Main.t,
    Main.maze (fold_left Main.handle_event events g) = Main.maze g
    /\ (Main.state (fold_left Main.handle_event events g) = Main.state g
        \/ Main.state (fold_left Main.handle_event events g) = READY).
Proof.
  induction events as [|e events IH]; intros g; [auto|].
  cbn [fold_left].
  destruct (IH (Main.handle_event g e)) as [Hm Hs].
  destruct (handle_event_keeps g e) as [Hm' Hs'].
  split; [congruence|].
  destruct Hs as [Hs|Hs]; [|auto]. destruct Hs' as [Hs'|Hs']; [left|right]; congruence.
Qed.

(** Outside the two phases whose expiry builds a new grid, a state update
    changes the grid by the pellet check alone. *)
Lemma update_state_maze {R} `{Shuffle R} (fuel : nat)
    (level_config : LevelConfig) (r r' : R) (g g' : Main.t) :
  Main.update_state fuel level_config r g = Ok (r', g') ->
  Main.state g <> LEVEL_COMPLETE -> Main.state g <> GAME_OVER ->
  maze_step (Main.maze g) (Main.maze g') (Main.pacman g').
Proof.
  unfold Main.update_state. intros Hu Hlc Hgo.
  destruct (Main.state g) eqn:Hst; try contradiction;
    try (repeat match type of Hu with
                | context [if ?c then _ else _] => destruct c
                end;
         inversion Hu; subst; left; reflexivity).
  destruct (Main.level g =? 256).
  - inversion Hu; subst. now left.
  - eapply playing_maze. exact Hu.
Qed.

(** What [maze_step] means cell by cell. *)
Lemma maze_step_cells (maze maze' : list (list Z)) (p : PacMan.t) :
  maze_step maze maze' p ->
  len maze' = len maze
  /\ (forall y : nat, len <$> maze' !! y = len <$> maze !! y)
  /\ (forall x y : Z, 0 <= x -> 0 <= y ->
        cell_at maze' x y = cell_at maze x y
        \/ (x = PacMan.x p /\ y = PacMan.y p
            /\ (cell_at maze x y = Some PELLET
                \/ cell_at maze x y = Some POWER_PELLET)
            /\ cell_at maze' x y = Some EMPTY)).
Proof.
  intros [->|(row & Hx & Hy & Hrow & Hcell & ->)]; [auto|].
  unfold Main.clear_cell. rewrite len_py_store.
  split; [reflexivity|]. split.
  - intros y. unfold py_store.
    destruct (decide (Z.to_nat (PacMan.y p) = y)) as [<-|Hne].
    + rewrite list_lookup_insert_eq by (eapply lookup_lt_Some; eassumption).
      rewrite Hrow. cbn. f_equal. unfold len. now rewrite length_insert.
    + now rewrite list_lookup_insert_ne.
  - intros x y Hx0 Hy0. unfold cell_at, py_store.
    destruct (decide (Z.to_nat (PacMan.y p) = Z.to_nat y)) as [Ey|Hne].
    + assert (y = PacMan.y p) by lia; subst y.
      rewrite list_lookup_insert_eq by (eapply lookup_lt_Some; eassumption).
      rewrite Hrow.
      destruct (decide (Z.to_nat (PacMan.x p) = Z.to_nat x)) as [Ex|Hnx].
      * assert (x = PacMan.x p) by lia; subst x. right.
        rewrite list_lookup_insert_eq
          by (destruct Hcell as [Hc|Hc]; eapply lookup_lt_Some; eassumption).
        auto.
      * left. now rewrite list_lookup_insert_ne.
    + left. now rewrite list_lookup_insert_ne.
Qed.

(** With the fruit active and the player on the fruit cell (13, 15), the
    tick collects the fruit (the score goes from 100 to 200 and the fruit
    is no longer active) and the cell still holds FRUIT_SPOT, not EMPTY. *)
Lemma fruit_spot_not_cleared :
  observe (fun g => cell_at (Main.maze g) 13 15)
    (with_dots 70 (placed 13 15 100 1)) = Ok (Some FRUIT_SPOT)
  /\ observe Main.score (then_frames 1 (with_dots 70 (placed 13 15 100 1)))
     = Ok 200
  /\ observe Main.fruit_active
       (then_frames 1 (with_dots 70 (placed 13 15 100 1))) = Ok false
  /\ observe (fun g => cell_at (Main.maze g) 13 15)
       (then_frames 1 (with_dots 70 (placed 13 15 100 1)))
     = Ok (Some FRUIT_SPOT)
  /\ observe (fun g => cell_at (Main.maze g) 13 15)
       (then_frames 1 (with_dots 70 (placed 13 15 100 1)))
     <> Ok (Some EMPTY).
Proof. repeat split; vm_compute; try reflexivity. discriminate. Qed.

(** C9 (amended) — Maze mutation.  In every pass of the loop that
    starts in a phase other than LEVEL_COMPLETE and GAME_OVER (the two
    whose expiry builds the grid anew), the grid keeps its shape and each
    cell keeps its code, except that the cell under the player goes from
    PELLET or POWER_PELLET to EMPTY when it is eaten.  WALL, DOOR, EMPTY
    and FRUIT_SPOT cells never change: collecting a fruit clears the
    fruit-active flag and leaves the FRUIT_SPOT cell as it is. *)
Theorem maze_changes_only_by_pellets {R} `{Shuffle R} (fuel : nat)
    (events : list event) (r r' : R) (g g' : Main.t) :
  Main.frame fuel events r g = Ok (r', g') ->
  Main.state g <> LEVEL_COMPLETE -> Main.state g <> GAME_OVER ->
  len (Main.maze g') = len (Main.maze g)
  /\ (forall y : nat, len <$> Main.maze g' !! y = len <$> Main.maze g !! y)
  /\ (forall x y : Z, 0 <= x -> 0 <= y ->
        cell_at (Main.maze g') x y = cell_at (Main.maze g) x y
        \/ (x = PacMan.x (Main.pacman g') /\ y = PacMan.y (Main.pacman g')
            /\ (cell_at (Main.maze g) x y = Some PELLET
                \/ cell_at (Main.maze g) x y = Some POWER_PELLET)
            /\ cell_at (Main.maze g') x y = Some EMPTY))
  /\ (forall (x y : Z) (cell : Z), 0 <= x -> 0 <= y ->
        cell_at (Main.maze g) x y = Some cell ->
        cell <> PELLET -> cell <> POWER_PELLET ->
        cell_at (Main.maze g') x y = Some cell).
Proof.
  unfold Main.frame. intros Hf Hlc Hgo.
  bind_case Hf as level_config Ecfg.
  destruct (handle_events_keep events g) as [Hm Hs].
  apply update_state_maze in Hf.
  - rewrite Hm in Hf. apply maze_step_cells in Hf as (Hlen & Hrows & Hcells).
    split; [exact Hlen|]. split; [exact Hrows|]. split; [exact Hcells|].
    intros x y cell Hx Hy Hcell Hnp Hnpp.
    destruct (Hcells x y Hx Hy) as [->|(_ & _ & [Hc|Hc] & _)];
      [exact Hcell| |]; rewrite Hcell in Hc; congruence.
  - destruct Hs as [->| ->]; [exact Hlc|discriminate].
  - destruct Hs as [->| ->]; [exact Hgo|discriminate].
Qed.

(** A tick with the player on the pellet of cell (1, 1): the pellet is
    eaten, the door cell (13, 10) and the fruit cell (13, 15) are as
    before. *)
Lemma maze_changes_only_by_pellets_witness :
  exists g',
    Main.frame 2 []  tt
      (Main.set_pacman (Main.set_state Main.init PLAYING)
         (PacMan.set_pos PacMan.init 1 1))
    = Ok (tt, g')
    /\ cell_at (Main.maze g') 1 1 = Some EMPTY
    /\ cell_at (Main.maze g') 13 10 = Some DOOR
    /\ cell_at (Main.maze g') 13 15 = Some FRUIT_SPOT.
Proof.
  eexists. split; [vm_compute; reflexivity|].
  split; [reflexivity|].
  pose proof (maze_changes_only_by_pellets 2 [] tt tt
                (Main.set_pacman (Main.set_state Main.init PLAYING)
                   (PacMan.set_pos PacMan.init 1 1)) _ eq_refl)
    as Hkeep.
  destruct Hkeep as (_ & _ & _ & Hfixed); [discriminate|discriminate|].
  split.
  - apply Hfixed; [lia|lia|reflexivity|discriminate|discriminate].
  - apply Hfixed; [lia|lia|reflexivity|discriminate|discriminate].
Defined.

(** ** Ghosts do not reverse *)

Lemma dir_eqb_spec (d e : Z * Z) : dir_eqb d e = true <-> d = e.
Proof.
  destruct d as [a b], e as [c f]. unfold dir_eqb. cbn.
  rewrite andb_true_iff, !Z.eqb_eq. split; [intros [-> ->]|intros [= -> ->]]; auto.
Qed.

Lemma dir_eqb_false (d e : Z * Z) : dir_eqb d e = false <-> d <> e.
Proof.
  rewrite <- dir_eqb_spec. destruct (dir_eqb d e); split; congruence.
Qed.

(** The candidate list of [ai_move]: exactly the directions that are not
    the reverse and whose destination passes the wall test. *)
Lemma valid_loop_spec (maze : list (list Z)) (g : Ghost.t) (opposite : Z * Z) :
  forall ds vs,
    Ghost.valid_loop maze g opposite ds = Ok vs ->
    forall d,
      d ∈ vs <->
      d ∈ ds /\ d <> opposite
      /\ Ghost.can_move (Ghost.x g + d.1) (Ghost.y g + d.2) maze = Ok true.
Proof.
  induction ds as [|d0 ds IH]; intros vs Hv d; cbn [Ghost.valid_loop] in Hv.
  - inversion Hv; subst. rewrite !elem_of_nil. tauto.
  - bind_case Hv as ok Eok. bind_case Hv as rest Erest.
    inversion Hv; subst vs. clear Hv. specialize (IH rest eq_refl d).
    rewrite elem_of_cons.
    destruct (dir_eqb d0 opposite) eqn:Hopp; cbn [negb] in Eok.
    + apply dir_eqb_spec in Hopp. inversion Eok; subst ok.
      rewrite IH. split; [tauto|]. intros ([->|Hin] & Hne & Hcm); tauto.
    + apply dir_eqb_false in Hopp. destruct ok.
      * rewrite elem_of_cons, IH. split.
        -- intros [->|Hin]; [auto|tauto].
        -- intros ([->|Hin] & Hne & Hcm); auto.
      * rewrite IH. split; [tauto|].
        intros ([->|Hin] & Hne & Hcm); [congruence|tauto].
Qed.

(** The minimum search returns the default or one of the candidates. *)
Lemma nearest_elem (g : Ghost.t) (tx ty : Z) :
  forall ds m b, Ghost.nearest g tx ty ds m b = b
                 \/ Ghost.nearest g tx ty ds m b ∈ ds.
Proof.
  induction ds as [|d ds IH]; intros m b; cbn [Ghost.nearest]; [now left|].
  destruct (below _ m).
  - destruct (IH (Some ((Ghost.x g + d.1 - tx) ^ 2
                        + (Ghost.y g + d.2 - ty) ^ 2)) d) as [->|Hin].
    + right. apply elem_of_cons. now left.
    + right. apply elem_of_cons. now right.
  - destruct (IH m b) as [->|Hin]; [now left|].
    right. apply elem_of_cons. now right.
Qed.

(** [ai_move] runs the minimum search of the personality's target over
    the candidates, or over the reverse alone when there is none. *)
Lemma ai_move_nearest (maze : list (list Z)) (pacman : PacMan.t)
    (g g' : Ghost.t) :
  Ghost.ai_move maze pacman g = Ok g' ->
  exists vs best,
    Ghost.valid_loop maze g (- Ghost.dx g, - Ghost.dy g) Ghost.directions
    = Ok vs
    /\ py_index match vs with
                 | [] => [(- Ghost.dx g, - Ghost.dy g)]
                 | _ :: _ => vs
                 end 0 = Ok best
    /\ g' = Ghost.set_dir g
              (Ghost.nearest g (pursuit_target g pacman).1
                 (pursuit_target g pacman).2
                 match vs with
                 | [] => [(- Ghost.dx g, - Ghost.dy g)]
                 | _ :: _ => vs
                 end None best).
Proof.
  unfold Ghost.ai_move. intros Ha.
  bind_case Ha as vs Evs. exists vs.
  bind_case Ha as best Ebest. exists best.
  split; [reflexivity|]. split; [reflexivity|].
  bind_case Ha as d Ed. inversion Ha; subst g'. clear Ha. f_equal.
  unfold pursuit_target. revert Ed.
  destruct (String.eqb _ "chaser"); [intros Ed; now inversion Ed|].
  destruct (String.eqb _ "ambusher"); [intros Ed; now inversion Ed|].
  destruct (String.eqb _ "fickle"); [intros Ed; now inversion Ed|].
  unfold Ghost.far_from. cbv zeta.
  destruct (Ghost.sqrt_overflow <=? _); [discriminate|]. cbn [bind].
  destruct (64 <? _); intros Ed; now inversion Ed.
Qed.

(** The direction [ai_move] leaves: a candidate, or the reverse when
    there is no candidate. *)
Lemma ai_move_dir (maze : list (list Z)) (pacman : PacMan.t) (g g' : Ghost.t) :
  Ghost.ai_move maze pacman g = Ok g' ->
  exists vs,
    Ghost.valid_loop maze g (- Ghost.dx g, - Ghost.dy g) Ghost.directions
    = Ok vs
    /\ ((vs = [] /\ (Ghost.dx g', Ghost.dy g') = (- Ghost.dx g, - Ghost.dy g))
        \/ (Ghost.dx g', Ghost.dy g') ∈ vs).
Proof.
  intros Ha. apply ai_move_nearest in Ha as (vs & best & Evs & Ebest & ->).
  exists vs. split; [exact Evs|].
  set (opposite := (- Ghost.dx g, - Ghost.dy g)) in *.
  set (cands := match vs with [] => [opposite] | _ :: _ => vs end) in *.
  assert (Hbest : best ∈ cands).
  { rewrite py_index_nonneg in Ebest by lia.
    destruct (cands !! Z.to_nat 0) as [b|] eqn:Hb; [|discriminate].
    inversion Ebest; subst b. eapply list_elem_of_lookup_2. exact Hb. }
  assert (Hdir : (Ghost.dx (Ghost.set_dir g
                    (Ghost.nearest g (pursuit_target g pacman).1
                       (pursuit_target g pacman).2 cands None best)),
                  Ghost.dy (Ghost.set_dir g
                    (Ghost.nearest g (pursuit_target g pacman).1
                       (pursuit_target g pacman).2 cands None best)))
                 ∈ cands).
  { cbn [Ghost.set_dir Ghost.dx Ghost.dy]. rewrite <- surjective_pairing.
    destruct (nearest_elem g (pursuit_target g pacman).1
                (pursuit_target g pacman).2 cands None best) as [->|Hin];
      assumption. }
  subst cands. destruct vs as [|v vs].
  - left. split; [reflexivity|]. now apply list_elem_of_singleton in Hdir.
  - now right.
Qed.

Lemma first_open_spec (maze : list (list Z)) (g : Ghost.t) :
  forall ds found,
    Ghost.first_open maze g ds = Ok found ->
    match found with
    | Some d =>
        d ∈ ds
        /\ Ghost.can_move (Ghost.x g + d.1) (Ghost.y g + d.2) maze = Ok true
    | None =>
        forall d, d ∈ ds ->
          Ghost.can_move (Ghost.x g + d.1) (Ghost.y g + d.2) maze = Ok false
    end.
Proof.
  induction ds as [|d0 ds IH]; intros found Hf; cbn [Ghost.first_open] in Hf.
  - inversion Hf; subst. intros d Hd. now apply elem_of_nil in Hd.
  - bind_case Hf as ok Eok. destruct ok.
    + inversion Hf; subst. split; [apply elem_of_cons; now left|exact Eok].
    + specialize (IH found Hf). destruct found as [d|].
      * destruct IH as [Hin Hcm]. split; [|exact Hcm].
        apply elem_of_cons. now right.
      * intros d Hd. apply elem_of_cons in Hd as [->|Hd]; [exact Eok|].
        now apply IH.
Qed.

(** The direction [frightened_move] leaves: the first open direction of
    the shuffled non-reverse directions, or the current one when none of
    them is open. *)
Lemma frightened_move_dir {R} `{Shuffle R} (maze : list (list Z)) (r r' : R)
    (g g' : Ghost.t) :
  Ghost.frightened_move maze r g = Ok (r', g') ->
  let ds :=
    (shuffle r (List.filter
                  (fun d => negb (dir_eqb d (- Ghost.dx g, - Ghost.dy g)))
                  Ghost.directions)).1 in
  ((Ghost.dx g', Ghost.dy g') ∈ ds
   /\ Ghost.can_move (Ghost.x g + Ghost.dx g') (Ghost.y g + Ghost.dy g') maze
      = Ok true)
  \/ (g' = g
      /\ forall d, d ∈ ds ->
           Ghost.can_move (Ghost.x g + d.1) (Ghost.y g + d.2) maze = Ok false).
Proof.
  unfold Ghost.frightened_move. intros Hm.
  destruct (shuffle r _) as [ds r1]. cbn [fst].
  bind_case Hm as found Efound.
  apply first_open_spec in Efound.
  destruct found as [d|]; inversion Hm; subst.
  - left. cbn [Ghost.set_dir Ghost.dx Ghost.dy]. now rewrite <- surjective_pairing.
  - now right.
Qed.

Lemma valid_loop_total (maze : list (list Z)) (g : Ghost.t) (opposite : Z * Z) :
  forall ds vs,
    Ghost.valid_loop maze g opposite ds = Ok vs ->
    forall d, d ∈ ds -> d <> opposite ->
      exists b, Ghost.can_move (Ghost.x g + d.1) (Ghost.y g + d.2) maze = Ok b.
Proof.
  induction ds as [|d0 ds IH]; intros vs Hv d Hd Hne; cbn [Ghost.valid_loop] in Hv.
  - now apply elem_of_nil in Hd.
  - bind_case Hv as ok Eok. bind_case Hv as rest Erest.
    apply elem_of_cons in Hd as [->|Hd].
    + apply dir_eqb_false in Hne. rewrite Hne in Eok. cbn [negb] in Eok. eauto.
    + eapply IH; eauto.
Qed.

Lemma elem_of_non_reverse (d opposite : Z * Z) :
  d ∈ List.filter (fun d => negb (dir_eqb d opposite)) Ghost.directions
  <-> d ∈ Ghost.directions /\ d <> opposite.
Proof.
  rewrite !list_elem_of_In, filter_In, negb_true_iff, dir_eqb_false. tauto.
Qed.

Lemma keep_order_law : ShuffleLaw unit.
Proof. intros r l. reflexivity. Defined.

Lemma flip_order_law : ShuffleLaw nat.
Proof.
  intros r l. unfold shuffle, flip_order. cbn [fst].
  destruct (Nat.odd r); [apply reverse_Permutation|reflexivity].
Qed.

(** C8 — No-reverse invariant.  In one step of a ghost that is not
    eaten (so in pursuit or frightened mode), with a shuffle that permutes:
    if some direction other than the reverse of the current one has a
    destination that passes the wall test, the direction the ghost is left
    with is not the reverse (it is one of those open directions); and in
    pursuit mode the ghost is left with the reverse only when every other
    direction is blocked. *)
Theorem ghosts_do_not_reverse {R} `{Shuffle R} `{!ShuffleLaw R}
    (maze : list (list Z)) (pacman : PacMan.t) (r r' : R) (g g' : Ghost.t) :
  Ghost.eaten g = false ->
  Ghost.step maze pacman r g = Ok (r', g') ->
  let opposite := (- Ghost.dx g, - Ghost.dy g) in
  ((exists d, d ∈ Ghost.directions /\ d <> opposite
              /\ Ghost.can_move (Ghost.x g + d.1) (Ghost.y g + d.2) maze
                 = Ok true) ->
   (Ghost.dx g', Ghost.dy g') <> opposite
   /\ (Ghost.dx g', Ghost.dy g') ∈ Ghost.directions
   /\ Ghost.can_move (Ghost.x g + Ghost.dx g') (Ghost.y g + Ghost.dy g') maze
      = Ok true)
  /\ (Ghost.frightened g = false ->
      (Ghost.dx g', Ghost.dy g') = opposite ->
      forall d, d ∈ Ghost.directions -> d <> opposite ->
        Ghost.can_move (Ghost.x g + d.1) (Ghost.y g + d.2) maze = Ok false).
Proof.
  intros Heaten Hstep opposite. unfold Ghost.step in Hstep.
  rewrite Heaten in Hstep.
  bind_case Hstep as rg Emove. destruct rg as [r1 g1].
  assert (Hdir : Ghost.dx g' = Ghost.dx g1 /\ Ghost.dy g' = Ghost.dy g1).
  { bind_case Hstep as go Ego.
    destruct go; inversion Hstep; subst; split; reflexivity. }
  destruct Hdir as [-> ->]. clear Hstep.
  destruct (Ghost.frightened g) eqn:Hfr.
  - (* frightened mode *)
    apply frightened_move_dir in Emove. split; [|discriminate].
    intros (d & Hd & Hne & Hopen).
    assert (Hin : d ∈ (shuffle r (List.filter
                         (fun d => negb (dir_eqb d opposite))
                         Ghost.directions)).1).
    { rewrite shuffle_perm. now apply elem_of_non_reverse. }
    destruct Emove as [[Hsel Hcm]|[_ Hnone]].
    + rewrite shuffle_perm in Hsel. apply elem_of_non_reverse in Hsel.
      destruct Hsel as [Hs1 Hs2].
      split; [exact Hs2|]. split; [exact Hs1|exact Hcm].
    + specialize (Hnone d Hin). congruence.
  - (* pursuit mode *)
    bind_case Emove as g2 Eai. inversion Emove; subst r1 g1. clear Emove.
    destruct (ai_move_dir _ _ _ _ Eai) as (vs & Hvs & Hsel).
    fold opposite in Hvs, Hsel.
    pose proof (valid_loop_spec _ _ _ _ _ Hvs) as Hspec.
    split.
    + intros (d & Hd & Hne & Hopen).
      assert (Hdv : d ∈ vs) by (apply Hspec; auto).
      destruct Hsel as [[-> _]|Hsel]; [now apply elem_of_nil in Hdv|].
      apply Hspec in Hsel. cbn [fst snd] in Hsel.
      destruct Hsel as (Hs1 & Hs2 & Hs3).
      split; [exact Hs2|]. split; [exact Hs1|exact Hs3].
    + intros _ Hrev d Hd Hne.
      destruct Hsel as [[-> _]|Hsel].
      * destruct (valid_loop_total _ _ _ _ _ Hvs d Hd Hne) as [[|] Hb];
          [|exact Hb].
        assert (Hdv : d ∈ []) by (apply Hspec; auto).
        now apply elem_of_nil in Hdv.
      * apply Hspec in Hsel. destruct Hsel as (_ & Hs2 & _).
        rewrite Hrev in Hs2. now contradiction Hs2.
Qed.

Lemma ghosts_do_not_reverse_witness :
  (exists g',
      Ghost.step MAZE PacMan.init tt (corridor_ghost false) = Ok (tt, g')
      /\ (Ghost.dx g', Ghost.dy g') <> (-1, 0))
  /\ (exists g',
         Ghost.step MAZE PacMan.init 1%nat (corridor_ghost true)
         = Ok (2%nat, g')
         /\ (Ghost.dx g', Ghost.dy g') <> (-1, 0)).
Proof.
  split.
  - eexists. split; [vm_compute; reflexivity|].
    refine (proj1 (proj1 (@ghosts_do_not_reverse unit keep_order keep_order_law
                     MAZE PacMan.init tt tt (corridor_ghost false) _
                     eq_refl eq_refl) _)).
    exists (1, 0). split; [|split].
    + unfold Ghost.directions. apply list_elem_of_In. cbn. tauto.
    + discriminate.
    + reflexivity.
  - eexists. split; [vm_compute; reflexivity|].
    refine (proj1 (proj1 (@ghosts_do_not_reverse nat flip_order flip_order_law
                     MAZE PacMan.init 1%nat 2%nat (corridor_ghost true) _
                     eq_refl eq_refl) _)).
    exists (1, 0). split; [|split].
    + unfold Ghost.directions. apply list_elem_of_In. cbn. tauto.
    + discriminate.
    + reflexivity.
Defined.

(** ** The move accumulator *)

(** The player at the speed 0.22 of levels 14 and 15, and a pursuing
    ghost at the speed 0.22 of level 11 just after [reset], both from a
    zero accumulator: 50 ticks attempt 10 grid steps, while
    [floor(0.22 * 50)] is 11, whether the product is taken on the binary64
    value without rounding, in float arithmetic, or on the decimal. *)
Lemma accumulator_drops_a_step :
  (exists level_config,
      get_level_config 14 = Ok level_config
      /\ pac_speed level_config = 0.22%float
      /\ PacMan.move_accumulator PacMan.init = 0%float
      /\ steps_of (pacman_run 2 50 MAZE level_config PacMan.init)
         = Ok 10%nat)
  /\ (exists level_config,
         get_level_config 11 = Ok level_config
         /\ ghost_speed level_config = 0.22%float
         /\ Ghost.move_accumulator (Ghost.reset (Ghost.make 13 11 "chaser"))
            = 0%float
         /\ steps_of (ghost_run 2 50 MAZE PacMan.init level_config tt
                        (Ghost.reset (Ghost.make 13 11 "chaser")))
            = Ok 10%nat)
  /\ floor_times 50 0.22 = Some 11
  /\ floor_float_product 0.22 50 = Some 11
  /\ 22 * 50 / 100 = 11.
Proof.
  split; [|split; [|split; [|split]]].
  - eexists. split; [reflexivity|]. split; [reflexivity|].
    split; [reflexivity|]. vm_compute. reflexivity.
  - eexists. split; [reflexivity|]. split; [reflexivity|].
    split; [reflexivity|]. vm_compute. reflexivity.
  - vm_compute. reflexivity.
  - vm_compute. reflexivity.
  - reflexivity.
Qed.

Lemma drained_succ (k : nat) (a : float) :
  drained (S k) a = drained k (a - 1.0)%float.
Proof. unfold drained. now rewrite Nat.iter_succ_r. Qed.

(** *** The accumulator on its own *)

Lemma units_below (fuel : nat) (a : float) :
  (1.0 <=? a)%float = false -> units fuel a = Some (a, 0%nat).
Proof. intros Ha. destruct fuel; cbn [units]; now rewrite Ha. Qed.

Lemma units_mono :
  forall (fuel fuel' : nat) (a : float) (res : float * nat),
    (fuel <= fuel')%nat -> units fuel a = Some res -> units fuel' a = Some res.
Proof.
  induction fuel as [|fuel IH]; intros fuel' a res Hle Hu.
  - cbn [units] in Hu. destruct (1.0 <=? a)%float eqn:Ha; [discriminate|].
    inversion Hu; subst. now apply units_below.
  - destruct fuel' as [|fuel']; [lia|]. cbn [units] in Hu |- *.
    destruct (1.0 <=? a)%float; [|exact Hu].
    destruct (units fuel (a - 1.0)%float) as [[a' k]|] eqn:E; [|discriminate].
    now rewrite (IH fuel' _ _ ltac:(lia) E).
Qed.

(** What the count of a tick is: the number of times 1.0 could be taken
    off. *)
Lemma units_spec :
  forall (fuel : nat) (a a' : float) (k : nat),
    units fuel a = Some (a', k) -> drains a a' k.
Proof.
  induction fuel as [|fuel IH]; intros a a' k Hu; cbn [units] in Hu;
    destruct (1.0 <=? a)%float eqn:Ha; try discriminate.
  - inversion Hu; subst. split; [reflexivity|].
    split; [intros j Hj; lia|exact Ha].
  - destruct (units fuel (a - 1.0)%float) as [[a1 k1]|] eqn:E; [|discriminate].
    inversion Hu; subst a' k. destruct (IH _ _ _ E) as (Hd & Hall & Hlt).
    split; [now rewrite drained_succ|]. split; [|exact Hlt].
    intros [|j] Hj; [exact Ha|]. rewrite drained_succ. apply Hall. lia.
  - inversion Hu; subst. split; [reflexivity|].
    split; [intros j Hj; lia|exact Ha].
Qed.

Lemma run_units_mono :
  forall (n fuel fuel' : nat) (s a : float) (res : float * nat),
    (fuel <= fuel')%nat ->
    run_units fuel n s a = Some res -> run_units fuel' n s a = Some res.
Proof.
  induction n as [|n IH]; intros fuel fuel' s a res Hle Hr;
    cbn [run_units] in Hr |- *; [exact Hr|].
  unfold tick_units in *.
  destruct (units fuel (a + s)%float) as [[a1 k]|] eqn:E; [|discriminate].
  rewrite (units_mono _ _ _ _ Hle E).
  destruct (run_units fuel n s a1) as [[a2 k']|] eqn:E2; [|discriminate].
  now rewrite (IH _ _ _ _ _ Hle E2).
Qed.

Lemma run_units_add (fuel : nat) (s : float) :
  forall (n1 n2 : nat) (a a1 a2 : float) (k1 k2 : nat),
    run_units fuel n1 s a = Some (a1, k1) ->
    run_units fuel n2 s a1 = Some (a2, k2) ->
    run_units fuel (n1 + n2) s a = Some (a2, (k1 + k2)%nat).
Proof.
  induction n1 as [|n1 IH]; intros n2 a a1 a2 k1 k2 H1 H2.
  - cbn in H1. inversion H1; subst. exact H2.
  - cbn [run_units Nat.add] in H1 |- *.
    destruct (tick_units fuel s a) as [[b j]|]; [|discriminate].
    destruct (run_units fuel n1 s b) as [[b1 j1]|] eqn:E; [|discriminate].
    inversion H1; subst a1 k1.
    rewrite (IH n2 b b1 a2 j1 k2 E H2). f_equal. f_equal. lia.
Qed.

Lemma run_units_periods (s : float) (q p : nat) :
  run_units 1 q s 0 = Some (0%float, p) ->
  forall c, run_units 1 (c * q) s 0 = Some (0%float, (c * p)%nat).
Proof.
  intros Hq. induction c as [|c IH]; [reflexivity|].
  cbn [Nat.mul]. exact (run_units_add 1 s q (c * q) _ _ _ _ _ Hq IH).
Qed.

(** With [s = p / q] the floor of [s * (c * q + r)] is [c * p] more than
    the floor of [s * r]. *)
Lemma floor_times_period (s : float) (q p c r : nat) :
  period_check s q p = true ->
  exists f,
    floor_times (Z.of_nat r) s = Some f
    /\ floor_times (Z.of_nat (c * q + r)) s = Some (Z.of_nat (c * p) + f).
Proof.
  unfold period_check, floor_times. intros Hchk.
  apply andb_prop in Hchk as [_ Hfrac].
  destruct (Prim2SF s) as [| | |sign m e]; try discriminate.
  destruct sign; [discriminate|].
  apply andb_prop in Hfrac as [He Hfrac].
  apply Z.ltb_lt in He. apply Z.eqb_eq in Hfrac.
  destruct (Z.leb_spec 0 e) as [?|_]; [lia|].
  eexists. split; [reflexivity|]. f_equal.
  assert (Hpos : 0 < 2 ^ (- e)) by (apply Z.pow_pos_nonneg; lia).
  set (D := 2 ^ (- e)) in *.
  rewrite Nat2Z.inj_add, !Nat2Z.inj_mul.
  replace (Z.pos m * (Z.of_nat c * Z.of_nat q + Z.of_nat r))
    with (Z.of_nat c * Z.of_nat p * D + Z.pos m * Z.of_nat r).
  - rewrite Z.div_add_l by lia. reflexivity.
  - rewrite Z.mul_add_distr_l.
    replace (Z.pos m * (Z.of_nat c * Z.of_nat q))
      with (Z.of_nat c * (Z.pos m * Z.of_nat q)) by ring.
    rewrite Hfrac. ring.
Qed.

(** A speed that is exact over a period attempts [floor(s * n)] steps in
    [n] ticks, whatever [n]. *)
Lemma exact_period_floor (s : float) (q p : nat) :
  exact_period s q p ->
  forall n,
    exists a k,
      run_units 1 n s 0 = Some (a, k)
      /\ floor_times (Z.of_nat n) s = Some (Z.of_nat k).
Proof.
  intros [Hrun Hchk] n.
  pose proof Hchk as Hchk'. unfold period_check in Hchk'.
  apply andb_prop in Hchk' as [Hchk' _].
  apply andb_prop in Hchk' as [Hq Hpre]. apply Nat.ltb_lt in Hq.
  assert (Hn : n = ((n / q) * q + n mod q)%nat)
    by (rewrite Nat.mul_comm; apply Nat.div_mod_eq).
  assert (Hr : (n mod q < q)%nat) by (apply Nat.mod_upper_bound; lia).
  revert Hn Hr. generalize (n / q)%nat (n mod q)%nat. intros c r -> Hr.
  rewrite forallb_forall in Hpre.
  specialize (Hpre r ltac:(apply in_seq; lia)).
  destruct (run_units 1 r s 0) as [[ar kr]|] eqn:Er; [|discriminate].
  destruct (floor_times_period s q p c r Hchk) as (f & Hf & Hfn).
  rewrite Hf in Hpre. apply Z.eqb_eq in Hpre. subst f.
  exists ar, (c * p + kr)%nat. split.
  - exact (run_units_add 1 s _ _ _ _ _ _ _ (run_units_periods s q p Hrun c) Er).
  - rewrite Hfn. f_equal. lia.
Qed.

(** *** The player's accumulator *)

Lemma pacman_step_accumulator (maze : list (list Z)) (p p' : PacMan.t) :
  PacMan.step maze p = Ok p' ->
  PacMan.move_accumulator p' = PacMan.move_accumulator p
  /\ PacMan.anim_counter p' = PacMan.anim_counter p.
Proof.
  unfold PacMan.step. intros Hs.
  bind_case Hs as turn Eturn. bind_case Hs as go Ego.
  destruct turn, go; cbn in Hs;
    repeat match type of Hs with
           | context [if ?c then _ else _] => destruct c
           end; inversion Hs; subst; cbn; auto.
Qed.

Lemma pacman_step_total (maze : list (list Z)) (p : PacMan.t) :
  rect maze -> exists p', PacMan.step maze p = Ok p'.
Proof.
  intros Hrect. unfold PacMan.step.
  destruct (can_move_total maze (PacMan.x p + PacMan.next_dx p)
              (PacMan.y p + PacMan.next_dy p) Hrect) as [turn ->].
  cbn [bind].
  set (q := if turn then _ else p).
  destruct (can_move_total maze (PacMan.x q + PacMan.dx q)
              (PacMan.y q + PacMan.dy q) Hrect) as [go ->].
  cbn [bind]. destruct go; [|eauto]. break_ifs; eauto.
Qed.

(** The loop of [update] counts what [units] counts. *)
Lemma pacman_drain_units (fuel : nat) (maze : list (list Z)) :
  forall (p p' : PacMan.t) (k0 k : nat),
    PacMan.drain fuel maze p k0 = Ok (p', k) ->
    exists j,
      k = (k0 + j)%nat
      /\ units fuel (PacMan.move_accumulator p)
         = Some (PacMan.move_accumulator p', j).
Proof.
  induction fuel as [|fuel IH]; intros p p' k0 k Hd;
    cbn [PacMan.drain units] in Hd |- *.
  - destruct (1.0 <=? PacMan.move_accumulator p)%float; [discriminate|].
    inversion Hd; subst. exists 0%nat. split; [lia|reflexivity].
  - destruct (1.0 <=? PacMan.move_accumulator p)%float.
    + bind_case Hd as p1 Estep.
      apply pacman_step_accumulator in Estep as [Hacc _].
      cbn [PacMan.set_accumulator PacMan.move_accumulator] in Hacc.
      destruct (IH _ _ _ _ Hd) as (j & -> & Hu).
      exists (S j). split; [lia|]. rewrite <- Hacc, Hu. reflexivity.
    + inversion Hd; subst. exists 0%nat. split; [lia|reflexivity].
Qed.

(** On a rectangular grid the loop returns whenever the fuel covers the
    units to drain. *)
Lemma pacman_drain_total (fuel : nat) (maze : list (list Z)) :
  rect maze ->
  forall (p : PacMan.t) (k0 : nat) (a' : float) (j : nat),
    units fuel (PacMan.move_accumulator p) = Some (a', j) ->
    exists p',
      PacMan.drain fuel maze p k0 = Ok (p', (k0 + j)%nat)
      /\ PacMan.move_accumulator p' = a'.
Proof.
  intros Hrect.
  induction fuel as [|fuel IH]; intros p k0 a' j Hu;
    cbn [PacMan.drain units] in Hu |- *.
  - destruct (1.0 <=? PacMan.move_accumulator p)%float; [discriminate|].
    inversion Hu; subst. exists p. rewrite Nat.add_0_r. auto.
  - destruct (1.0 <=? PacMan.move_accumulator p)%float.
    + destruct (units fuel _) as [[a1 k1]|] eqn:E; [|discriminate].
      inversion Hu; subst a' j.
      destruct (pacman_step_total maze
                  (PacMan.set_accumulator p
                     (PacMan.move_accumulator p - 1.0)%float) Hrect)
        as [p1 Hstep].
      rewrite Hstep. cbn [bind].
      pose proof (pacman_step_accumulator _ _ _ Hstep) as [Hacc _].
      cbn [PacMan.set_accumulator PacMan.move_accumulator] in Hacc.
      rewrite <- Hacc in E.
      destruct (IH p1 (S k0) a1 k1 E) as (p' & Hd & Ha).
      exists p'. rewrite Hd. split; [|exact Ha]. f_equal. f_equal. lia.
    + inversion Hu; subst. exists p. rewrite Nat.add_0_r. auto.
Qed.

Lemma pacman_update_units (fuel : nat) (maze : list (list Z))
    (level_config : LevelConfig) (p p' : PacMan.t) (k : nat) :
  PacMan.update_counted fuel maze level_config p = Ok (p', k) ->
  tick_units fuel (pac_speed level_config) (PacMan.move_accumulator p)
  = Some (PacMan.move_accumulator p', k).
Proof.
  unfold PacMan.update_counted, tick_units. intros Hu.
  bind_case Hu as res Ed. destruct res as [p1 k1].
  inversion Hu; subst p' k. clear Hu.
  apply pacman_drain_units in Ed as (j & Hk & Hun).
  cbn [Nat.add] in Hk. subst k1. exact Hun.
Qed.

Lemma pacman_update_total (fuel : nat) (maze : list (list Z))
    (level_config : LevelConfig) (p : PacMan.t) (a' : float) (k : nat) :
  rect maze ->
  tick_units fuel (pac_speed level_config) (PacMan.move_accumulator p)
  = Some (a', k) ->
  exists p',
    PacMan.update_counted fuel maze level_config p = Ok (p', k)
    /\ PacMan.move_accumulator p' = a'.
Proof.
  intros Hrect Hu. unfold PacMan.update_counted. cbv zeta.
  match goal with
  | |- context [PacMan.drain fuel maze ?q 0] =>
      destruct (pacman_drain_total fuel maze Hrect q 0 a' k Hu)
        as (p1 & Hd & Ha)
  end.
  cbn [Nat.add] in Hd. rewrite Hd. cbn [bind].
  eexists. split; [reflexivity|exact Ha].
Qed.

Lemma pacman_run_total (fuel : nat) (maze : list (list Z))
    (level_config : LevelConfig) :
  rect maze ->
  forall (n : nat) (p : PacMan.t) (a : float) (k : nat),
    run_units fuel n (pac_speed level_config) (PacMan.move_accumulator p)
    = Some (a, k) ->
    exists p',
      pacman_run fuel n maze level_config p = Ok (p', k)
      /\ PacMan.move_accumulator p' = a.
Proof.
  intros Hrect.
  induction n as [|n IH]; intros p a k Hr; cbn [run_units pacman_run] in Hr |- *.
  - inversion Hr; subst. eauto.
  - destruct (tick_units fuel _ _) as [[a1 k1]|] eqn:E1; [|discriminate].
    destruct (run_units fuel n _ a1) as [[a2 k2]|] eqn:E2; [|discriminate].
    inversion Hr; subst a k.
    destruct (pacman_update_total _ _ _ _ _ _ Hrect E1) as (p1 & -> & Ha1).
    cbn [bind]. rewrite <- Ha1 in E2.
    destruct (IH p1 _ _ E2) as (p2 & -> & Ha2). cbn [bind]. eauto.
Qed.

(** *** A ghost's accumulator *)

(** A step leaves the accumulator alone, and the mode too, but for an
    eaten ghost that comes back to life. *)
Lemma ghost_step_mode {R} `{Shuffle R} (maze : list (list Z))
    (pacman : PacMan.t) (r r' : R) (g g' : Ghost.t) :
  Ghost.step maze pacman r g = Ok (r', g') ->
  Ghost.move_accumulator g' = Ghost.move_accumulator g
  /\ (Ghost.eaten g = false ->
      Ghost.eaten g' = false /\ Ghost.frightened g' = Ghost.frightened g)
  /\ (Ghost.eaten g' = true -> Ghost.eaten g = true).
Proof.
  unfold Ghost.step. intros Hs.
  bind_case Hs as rg Emode. destruct rg as [r1 g1].
  assert (Hm : Ghost.move_accumulator g1 = Ghost.move_accumulator g
               /\ (Ghost.eaten g = false ->
                   Ghost.eaten g1 = false
                   /\ Ghost.frightened g1 = Ghost.frightened g)
               /\ (Ghost.eaten g1 = true -> Ghost.eaten g = true)).
  { destruct (Ghost.eaten g) eqn:He.
    - destruct (_ && _).
      + inversion Emode; subst. cbn. split; [reflexivity|].
        split; [discriminate|reflexivity].
      + unfold Ghost.return_to_base in Emode.
        bind_case Emode as g2 Eg2. bind_case Eg2 as d Ed.
        inversion Eg2; subst. inversion Emode; subst. cbn.
        split; [reflexivity|]. split; [discriminate|reflexivity].
    - destruct (Ghost.frightened g) eqn:Hf.
      + unfold Ghost.frightened_move in Emode.
        destruct (shuffle r _) as [ds r2].
        bind_case Emode as found Efound.
        destruct found; inversion Emode; subst; cbn; rewrite ?He, ?Hf; auto.
      + bind_case Emode as g2 Eg2.
        apply ai_move_set_dir in Eg2 as [d ->].
        inversion Emode; subst. cbn. rewrite He, Hf. auto. }
  bind_case Hs as go Ego. destruct go; inversion Hs; subst; exact Hm.
Qed.

Lemma ghost_drain_units {R} `{Shuffle R} (fuel : nat)
    (maze : list (list Z)) (pacman : PacMan.t) :
  forall (r r' : R) (g g' : Ghost.t) (k0 k : nat),
    Ghost.drain fuel maze pacman r g k0 = Ok (r', g', k) ->
    exists j,
      k = (k0 + j)%nat
      /\ units fuel (Ghost.move_accumulator g)
         = Some (Ghost.move_accumulator g', j)
      /\ (Ghost.eaten g = false ->
          Ghost.eaten g' = false /\ Ghost.frightened g' = Ghost.frightened g)
      /\ (Ghost.eaten g' = true -> Ghost.eaten g = true).
Proof.
  induction fuel as [|fuel IH]; intros r r' g g' k0 k Hd;
    cbn [Ghost.drain units] in Hd |- *.
  - destruct (1.0 <=? Ghost.move_accumulator g)%float; [discriminate|].
    inversion Hd; subst. exists 0%nat. split; [lia|]. auto.
  - destruct (1.0 <=? Ghost.move_accumulator g)%float.
    + bind_case Hd as rg Estep. destruct rg as [r1 g1].
      apply ghost_step_mode in Estep as (Hacc & Hpur & Heat).
      cbn [Ghost.set_accumulator Ghost.move_accumulator Ghost.eaten
           Ghost.frightened] in Hacc, Hpur, Heat.
      destruct (IH _ _ _ _ _ _ Hd) as (j & -> & Hu & Hpur' & Heat').
      exists (S j). split; [lia|]. rewrite <- Hacc, Hu.
      split; [reflexivity|]. split.
      * intros He. destruct (Hpur He) as [He1 Hf1].
        destruct (Hpur' He1) as [He2 Hf2]. split; congruence.
      * auto.
    + inversion Hd; subst. exists 0%nat. split; [lia|]. auto.
Qed.

Lemma ghost_update_units {R} `{Shuffle R} (fuel : nat)
    (maze : list (list Z)) (pacman : PacMan.t) (level_config : LevelConfig)
    (r r' : R) (g g' : Ghost.t) (k : nat) :
  Ghost.update_counted fuel maze pacman level_config r g = Ok (r', g', k) ->
  tick_units fuel (ghost_tick_speed level_config g) (Ghost.move_accumulator g)
  = Some (Ghost.move_accumulator g', k)
  /\ (Ghost.eaten g = false ->
      Ghost.eaten g' = false /\ Ghost.frightened g' = Ghost.frightened g)
  /\ (Ghost.eaten g' = true -> Ghost.eaten g = true).
Proof.
  unfold Ghost.update_counted, tick_units, ghost_tick_speed. intros Hu.
  apply ghost_drain_units in Hu as (j & Hk & Hun & Hpur & Heat).
  cbn [Nat.add] in Hk. subst j. revert Hun Hpur Heat.
  destruct (Ghost.eaten g) eqn:He; [|destruct (Ghost.frightened g) eqn:Hf];
    cbn [Ghost.set_speed Ghost.set_accumulator Ghost.move_accumulator
         Ghost.speed Ghost.eaten Ghost.frightened];
    intros Hun Hpur Heat; rewrite ?Hf in Hpur;
    (split; [exact Hun|]);
    (split; [intros Hx; first [discriminate Hx|exact (Hpur He)]
            |intros Hx; first [reflexivity|pose proof (Heat Hx); congruence]]).
Qed.

(** Over a run a ghost that is not eaten keeps its mode, and one that is
    eaten at the end was eaten all along; the count is that of the
    accumulator at the speed of the mode. *)
Lemma ghost_run_units {R} `{Shuffle R} (fuel : nat) (maze : list (list Z))
    (pacman : PacMan.t) (level_config : LevelConfig) :
  forall (n : nat) (r r' : R) (g g' : Ghost.t) (k : nat),
    ghost_run fuel n maze pacman level_config r g = Ok (r', g', k) ->
    (Ghost.eaten g = false ->
     Ghost.eaten g' = false /\ Ghost.frightened g' = Ghost.frightened g)
    /\ (Ghost.eaten g' = true -> Ghost.eaten g = true)
    /\ (Ghost.eaten g' = Ghost.eaten g ->
        run_units fuel n (ghost_tick_speed level_config g)
          (Ghost.move_accumulator g)
        = Some (Ghost.move_accumulator g', k)).
Proof.
  induction n as [|n IH]; intros r r' g g' k Hr;
    cbn [ghost_run run_units] in Hr |- *.
  - inversion Hr; subst. auto.
  - bind_case Hr as res1 Eu. destruct res1 as [[r1 g1] k1].
    bind_case Hr as res2 Er. destruct res2 as [[r2 g2] k2].
    inversion Hr; subst r' g' k. clear Hr.
    apply ghost_update_units in Eu as (Hu & Hpur1 & Heat1).
    destruct (IH _ _ _ _ _ Er) as (Hpur2 & Heat2 & Hrun).
    split; [|split].
    + intros He. destruct (Hpur1 He) as [He1 Hf1].
      destruct (Hpur2 He1) as [He2 Hf2]. split; congruence.
    + auto.
    + intros Hsame. rewrite Hu.
      assert (Hmode : Ghost.eaten g1 = Ghost.eaten g
                      /\ ghost_tick_speed level_config g1
                         = ghost_tick_speed level_config g).
      { unfold ghost_tick_speed. destruct (Ghost.eaten g) eqn:He.
        - rewrite (Heat2 Hsame). auto.
        - destruct (Hpur1 eq_refl) as [-> ->]. auto. }
      destruct Hmode as [He1 Hs1].
      rewrite <- Hs1, (Hrun ltac:(congruence)). reflexivity.
Qed.

(** *** A ghost's run returns *)

Lemma ghost_can_move_total (maze : list (list Z)) (x y : Z) :
  rect maze -> exists b, Ghost.can_move x y maze = Ok b.
Proof. exact (can_move_total maze x y). Qed.

Lemma valid_loop_rect (maze : list (list Z)) (g : Ghost.t) (opposite : Z * Z) :
  rect maze ->
  forall ds, exists vs, Ghost.valid_loop maze g opposite ds = Ok vs.
Proof.
  intros Hrect. induction ds as [|d ds [vs IH]]; [now exists []|].
  cbn [Ghost.valid_loop]. rewrite IH.
  destruct (negb (dir_eqb d opposite)).
  - destruct (ghost_can_move_total maze (Ghost.x g + d.1) (Ghost.y g + d.2)
                Hrect) as [b ->].
    cbn [bind]. eauto.
  - cbn [bind]. eauto.
Qed.

Lemma base_loop_total (maze : list (list Z)) (g : Ghost.t) :
  rect maze ->
  forall ds m b, exists d, Ghost.base_loop maze g ds m b = Ok d.
Proof.
  intros Hrect. induction ds as [|d ds IH]; intros m b; [now exists b|].
  cbn [Ghost.base_loop]. cbv zeta.
  destruct (ghost_can_move_total maze (Ghost.x g + d.1) (Ghost.y g + d.2)
              Hrect) as [ok ->].
  cbn [bind]. destruct ok; [destruct (below _ m)|]; apply IH.
Qed.

Lemma first_open_total (maze : list (list Z)) (g : Ghost.t) :
  rect maze -> forall ds, exists found, Ghost.first_open maze g ds = Ok found.
Proof.
  intros Hrect. induction ds as [|d ds IH]; [now exists None|].
  cbn [Ghost.first_open].
  destruct (ghost_can_move_total maze (Ghost.x g + d.1) (Ghost.y g + d.2)
              Hrect) as [ok ->].
  cbn [bind]. destruct ok; [eauto|exact IH].
Qed.

(** Between two cells of a grid whose squared diagonal is below the
    overflow bound of [math.sqrt], the distance test returns. *)
Lemma far_from_in_grid (maze : list (list Z)) (g : Ghost.t)
    (pacman : PacMan.t) :
  width maze ^ 2 + len maze ^ 2 < Ghost.sqrt_overflow ->
  in_grid maze (Ghost.x g) (Ghost.y g) ->
  in_grid maze (PacMan.x pacman) (PacMan.y pacman) ->
  exists far, Ghost.far_from g pacman = Ok far.
Proof.
  unfold Ghost.far_from, in_grid. intros Hb [Hx Hy] [Hpx Hpy]. cbv zeta.
  destruct (Z.leb_spec Ghost.sqrt_overflow
              ((Ghost.x g - PacMan.x pacman) ^ 2
               + (Ghost.y g - PacMan.y pacman) ^ 2)) as [Hle|_]; [|eauto].
  exfalso. rewrite !Z.pow_2_r in *.
  assert ((Ghost.x g - PacMan.x pacman) * (Ghost.x g - PacMan.x pacman)
          < width maze * width maze) by nia.
  assert ((Ghost.y g - PacMan.y pacman) * (Ghost.y g - PacMan.y pacman)
          < len maze * len maze) by nia.
  lia.
Qed.

Lemma ai_move_total (maze : list (list Z)) (pacman : PacMan.t) (g : Ghost.t) :
  rect maze ->
  (exists far, Ghost.far_from g pacman = Ok far) ->
  exists g', Ghost.ai_move maze pacman g = Ok g'.
Proof.
  intros Hrect [far Hfar]. unfold Ghost.ai_move.
  destruct (valid_loop_rect maze g (- Ghost.dx g, - Ghost.dy g) Hrect
              Ghost.directions) as [vs ->].
  cbn [bind].
  set (cands := match vs with [] => _ | _ :: _ => vs end).
  assert (Hbest : exists best, py_index cands 0 = Ok best).
  { subst cands. destruct vs; eexists; reflexivity. }
  destruct Hbest as [best ->]. cbn [bind]. rewrite Hfar.
  destruct (String.eqb _ "chaser"); [cbn [bind]; eauto|].
  destruct (String.eqb _ "ambusher"); [cbn [bind]; eauto|].
  destruct (String.eqb _ "fickle"); [cbn [bind]; eauto|].
  cbn [bind]. destruct far; cbn [bind]; eauto.
Qed.

(** On such a grid a step of a ghost returns, whatever its mode. *)
Lemma ghost_step_total {R} `{Shuffle R} (maze : list (list Z))
    (pacman : PacMan.t) (r : R) (g : Ghost.t) :
  rect maze ->
  width maze ^ 2 + len maze ^ 2 < Ghost.sqrt_overflow ->
  in_grid maze (Ghost.x g) (Ghost.y g) ->
  in_grid maze (PacMan.x pacman) (PacMan.y pacman) ->
  exists r' g', Ghost.step maze pacman r g = Ok (r', g').
Proof.
  intros Hrect Hb Hg Hp. unfold Ghost.step.
  assert (Hmode : exists r1 g1,
             (if Ghost.eaten g
              then if (Z.abs (Ghost.x g - 14) <? 1)
                      && (Z.abs (Ghost.y g - 11) <? 1)
                   then Ok (r, Ghost.set_frightened (Ghost.set_eaten g false)
                                 false)
                   else let* g0 := Ghost.return_to_base maze g in Ok (r, g0)
              else if Ghost.frightened g
                   then Ghost.frightened_move maze r g
                   else let* g0 := Ghost.ai_move maze pacman g in Ok (r, g0))
             = Ok (r1, g1)).
  { destruct (Ghost.eaten g).
    - destruct (_ && _); [eauto|].
      unfold Ghost.return_to_base.
      destruct (base_loop_total maze g Hrect Ghost.directions None (0, 0))
        as [d ->].
      cbn [bind]. eauto.
    - destruct (Ghost.frightened g).
      + unfold Ghost.frightened_move.
        destruct (shuffle r _) as [ds r1].
        destruct (first_open_total maze g Hrect ds) as [found ->].
        cbn [bind]. destruct found; eauto.
      + destruct (ai_move_total maze pacman g Hrect
                    (far_from_in_grid maze g pacman Hb Hg Hp)) as [g1 ->].
        cbn [bind]. eauto. }
  destruct Hmode as (r1 & g1 & ->). cbn [bind].
  destruct (ghost_can_move_total maze (Ghost.x g1 + Ghost.dx g1)
              (Ghost.y g1 + Ghost.dy g1) Hrect) as [go ->].
  cbn [bind]. destruct go; eauto.
Qed.

Lemma ghost_drain_total {R} `{Shuffle R} (fuel : nat)
    (maze : list (list Z)) (pacman : PacMan.t) :
  rect maze ->
  width maze ^ 2 + len maze ^ 2 < Ghost.sqrt_overflow ->
  in_grid maze (PacMan.x pacman) (PacMan.y pacman) ->
  forall (r : R) (g : Ghost.t) (k0 : nat) (a' : float) (j : nat),
    in_grid maze (Ghost.x g) (Ghost.y g) ->
    units fuel (Ghost.move_accumulator g) = Some (a', j) ->
    exists r' g',
      Ghost.drain fuel maze pacman r g k0 = Ok (r', g', (k0 + j)%nat).
Proof.
  intros Hrect Hb Hp.
  induction fuel as [|fuel IH]; intros r g k0 a' j Hg Hu;
    cbn [Ghost.drain units] in Hu |- *.
  - destruct (1.0 <=? Ghost.move_accumulator g)%float; [discriminate|].
    inversion Hu; subst. exists r, g. now rewrite Nat.add_0_r.
  - destruct (1.0 <=? Ghost.move_accumulator g)%float.
    + destruct (units fuel _) as [[a1 k1]|] eqn:E; [|discriminate].
      inversion Hu; subst a' j.
      destruct (ghost_step_total maze pacman r
                  (Ghost.set_accumulator g
                     (Ghost.move_accumulator g - 1.0)%float)
                  Hrect Hb Hg Hp) as (r1 & g1 & Hstep).
      rewrite Hstep. cbn [bind].
      pose proof (ghost_step_in_grid _ _ _ _ _ _ Hstep Hg) as Hg1.
      apply ghost_step_mode in Hstep as (Hacc & _).
      cbn [Ghost.set_accumulator Ghost.move_accumulator] in Hacc.
      rewrite <- Hacc in E.
      destruct (IH r1 g1 (S k0) a1 k1 Hg1 E) as (r' & g' & Hd).
      exists r', g'. rewrite Hd. f_equal. f_equal. lia.
    + inversion Hu; subst. exists r, g. now rewrite Nat.add_0_r.
Qed.

Lemma ghost_update_total {R} `{Shuffle R} (fuel : nat)
    (maze : list (list Z)) (pacman : PacMan.t) (level_config : LevelConfig)
    (r : R) (g : Ghost.t) (a' : float) (k : nat) :
  rect maze ->
  width maze ^ 2 + len maze ^ 2 < Ghost.sqrt_overflow ->
  in_grid maze (PacMan.x pacman) (PacMan.y pacman) ->
  in_grid maze (Ghost.x g) (Ghost.y g) ->
  tick_units fuel (ghost_tick_speed level_config g) (Ghost.move_accumulator g)
  = Some (a', k) ->
  exists r' g',
    Ghost.update_counted fuel maze pacman level_config r g = Ok (r', g', k).
Proof.
  intros Hrect Hb Hp Hg Hu. unfold Ghost.update_counted. cbv zeta.
  unfold tick_units, ghost_tick_speed in Hu.
  match goal with
  | |- context [Ghost.drain fuel maze pacman r ?q 0] =>
      destruct (ghost_drain_total fuel maze pacman Hrect Hb Hp r q 0 a' k)
        as (r' & g' & Hd)
  end.
  - destruct (Ghost.eaten g); [|destruct (Ghost.frightened g)]; exact Hg.
  - destruct (Ghost.eaten g); [|destruct (Ghost.frightened g)]; exact Hu.
  - cbn [Nat.add] in Hd. eauto.
Qed.

Lemma ghost_run_total {R} `{Shuffle R} (fuel : nat) (maze : list (list Z))
    (pacman : PacMan.t) (level_config : LevelConfig) :
  rect maze ->
  width maze ^ 2 + len maze ^ 2 < Ghost.sqrt_overflow ->
  in_grid maze (PacMan.x pacman) (PacMan.y pacman) ->
  forall (n : nat) (r : R) (g : Ghost.t) (a : float) (k : nat),
    Ghost.eaten g = false ->
    in_grid maze (Ghost.x g) (Ghost.y g) ->
    run_units fuel n (ghost_tick_speed level_config g)
      (Ghost.move_accumulator g) = Some (a, k) ->
    exists r' g',
      ghost_run fuel n maze pacman level_config r g = Ok (r', g', k).
Proof.
  intros Hrect Hb Hp.
  induction n as [|n IH]; intros r g a k He Hg Hr;
    cbn [run_units ghost_run] in Hr |- *.
  - inversion Hr; subst. eauto.
  - destruct (tick_units fuel _ _) as [[a1 k1]|] eqn:E1; [|discriminate].
    destruct (run_units fuel n _ a1) as [[a2 k2]|] eqn:E2; [|discriminate].
    inversion Hr; subst a k.
    destruct (ghost_update_total fuel maze pacman level_config r g a1 k1
                Hrect Hb Hp Hg E1) as (r1 & g1 & Hu).
    rewrite Hu. cbn [bind].
    assert (Hg1 : in_grid maze (Ghost.x g1) (Ghost.y g1)).
    { apply (ghost_update_in_grid fuel maze pacman level_config r r1 g g1);
        [|exact Hg].
      unfold Ghost.update. now rewrite Hu. }
    apply ghost_update_units in Hu as (Hu & Hpur & _).
    destruct (Hpur He) as [He1 Hf1].
    assert (Hs1 : ghost_tick_speed level_config g1
                  = ghost_tick_speed level_config g)
      by (unfold ghost_tick_speed; now rewrite He, He1, Hf1).
    rewrite E1 in Hu. inversion Hu as [Ha1].
    rewrite <- Hs1, Ha1 in E2.
    destruct (IH r1 g1 a2 k2 He1 Hg1 E2) as (r' & g' & ->).
    cbn [bind]. eauto.
Qed.

(** C2 (amended) — Movement accumulator.  Each update adds the speed to
    the accumulator and attempts one grid step per 1.0 drained from it:
    the count of a tick is the number of times 1.0 could be subtracted, and
    the accumulator is left below 1.0; that holds for the player and for a
    ghost at every speed.  Over [n] ticks from a zero accumulator at a
    constant speed [s] the total is [floor(s * n)] whenever binary64
    carries [s] through a period without loss: [s = p / q], [q] ticks from
    zero attempt [p] steps and bring the accumulator back to zero, and the
    runs shorter than [q] are right.  The player's run returns that total
    on every rectangular grid; a ghost's run that ends in the mode it
    started in counts that total at the speed of the mode, and the run of
    a ghost that is not eaten returns on every rectangular grid that holds
    it and the player and whose squared diagonal is below the overflow
    bound of [math.sqrt].  (The speeds 0.5, 0.25 and 0.125 are exact over
    periods of 2, 4 and 8 ticks; the rounded sums of a speed such as 0.22
    can leave the count one short of [floor(s * n)].) *)
Theorem accumulator_steps (fuel n q p : nat) (s : float)
    (maze : list (list Z)) (level_config : LevelConfig) :
  rect maze -> (1 <= fuel)%nat -> exact_period s q p ->
  (forall pl pl' k,
      PacMan.update_counted fuel maze level_config pl = Ok (pl', k) ->
      drains (PacMan.move_accumulator pl + pac_speed level_config)%float
        (PacMan.move_accumulator pl') k)
  /\ (forall (R : Type) (S : Shuffle R) pacman (r r' : R) g g' k,
         Ghost.update_counted fuel maze pacman level_config r g
         = Ok (r', g', k) ->
         drains (Ghost.move_accumulator g
                 + ghost_tick_speed level_config g)%float
           (Ghost.move_accumulator g') k)
  /\ (pac_speed level_config = s ->
      forall pl,
        PacMan.move_accumulator pl = 0%float ->
        exists pl' k,
          pacman_run fuel n maze level_config pl = Ok (pl', k)
          /\ floor_times (Z.of_nat n) s = Some (Z.of_nat k))
  /\ (forall (R : Type) (S : Shuffle R) pacman (r : R) g,
         Ghost.move_accumulator g = 0%float ->
         ghost_tick_speed level_config g = s ->
         (forall r' g' k,
             ghost_run fuel n maze pacman level_config r g = Ok (r', g', k) ->
             Ghost.eaten g' = Ghost.eaten g ->
             floor_times (Z.of_nat n) s = Some (Z.of_nat k))
         /\ (Ghost.eaten g = false ->
             width maze ^ 2 + len maze ^ 2 < Ghost.sqrt_overflow ->
             in_grid maze (Ghost.x g) (Ghost.y g) ->
             in_grid maze (PacMan.x pacman) (PacMan.y pacman) ->
             exists r' g' k,
               ghost_run fuel n maze pacman level_config r g
               = Ok (r', g', k)
               /\ floor_times (Z.of_nat n) s = Some (Z.of_nat k))).
Proof.
  intros Hrect Hfuel Hexact.
  destruct (exact_period_floor s q p Hexact n) as (a & kn & Hrun1 & Hfloor).
  pose proof (run_units_mono _ _ _ _ _ _ Hfuel Hrun1) as Hrun.
  split; [|split; [|split]].
  - intros pl pl' k Hu. apply pacman_update_units in Hu.
    exact (units_spec _ _ _ _ Hu).
  - intros R S pacman r r' g g' k Hu.
    apply ghost_update_units in Hu as [Hu _].
    exact (units_spec _ _ _ _ Hu).
  - intros Hspeed pl Hacc. rewrite <- Hspeed, <- Hacc in Hrun.
    destruct (pacman_run_total fuel maze level_config Hrect n pl a kn Hrun)
      as (pl' & Hp & _).
    exists pl', kn. split; [exact Hp|exact Hfloor].
  - intros R S pacman r g Hacc Hspeed. rewrite <- Hspeed, <- Hacc in Hrun.
    split.
    + intros r' g' k Hr Hsame.
      apply ghost_run_units in Hr as (_ & _ & Hunits).
      rewrite (Hunits Hsame) in Hrun. inversion Hrun; subst kn.
      exact Hfloor.
    + intros He Hb Hg Hp.
      destruct (ghost_run_total fuel maze pacman level_config Hrect Hb Hp
                  n r g a kn He Hg Hrun) as (r' & g' & Hr).
      exists r', g', kn. split; [exact Hr|exact Hfloor].
Qed.

(** The player at level 20 (speed 0.25) over 41 ticks, a frightened
    ghost at level 14 (speed 0.125) over 80 ticks and an eaten ghost
    (speed 0.5) over 5 ticks, on the game's maze. *)
Lemma accumulator_steps_witness :
  rect MAZE /\ (1 <= 2)%nat
  /\ exact_period 0.25 4 1 /\ exact_period 0.125 8 1 /\ exact_period 0.5 2 1
  /\ (exists pl',
         pacman_run 2 41 MAZE level20_config PacMan.init = Ok (pl', 10%nat)
         /\ floor_times 41 0.25 = Some 10)
  /\ (exists g',
         ghost_run 2 80 MAZE PacMan.init level14_config tt
           (corridor_ghost true) = Ok (tt, g', 10%nat)
         /\ floor_times 80 0.125 = Some 10)
  /\ (exists g',
         ghost_run 2 5 MAZE PacMan.init level14_config tt
           (Ghost.set_eaten (corridor_ghost false) true) = Ok (tt, g', 2%nat)
         /\ Ghost.eaten g' = true
         /\ floor_times 5 0.5 = Some 2).
Proof.
  assert (Hfuel : (1 <= 2)%nat) by lia.
  assert (H4 : exact_period 0.25 4 1) by (split; vm_compute; reflexivity).
  assert (H8 : exact_period 0.125 8 1) by (split; vm_compute; reflexivity).
  assert (H2 : exact_period 0.5 2 1) by (split; vm_compute; reflexivity).
  split; [exact rect_MAZE|]. split; [exact Hfuel|].
  split; [exact H4|]. split; [exact H8|]. split; [exact H2|].
  split; [|split].
  - destruct (accumulator_steps 2 41 4 1 0.25 MAZE level20_config rect_MAZE
                Hfuel H4) as (_ & _ & Hpac & _).
    destruct (Hpac eq_refl PacMan.init eq_refl) as (pl' & k & Hrun & Hfl).
    assert (Hk : k = 10%nat).
    { change (floor_times (Z.of_nat 41) 0.25) with (Some 10) in Hfl.
      inversion Hfl. lia. }
    subst k. exists pl'. split; [exact Hrun|exact Hfl].
  - destruct (accumulator_steps 2 80 8 1 0.125 MAZE level14_config rect_MAZE
                Hfuel H8) as (_ & _ & _ & Hghost).
    destruct (Hghost unit keep_order PacMan.init tt (corridor_ghost true)
                eq_refl eq_refl) as [_ Htotal].
    destruct (Htotal eq_refl) as (r' & g' & k & Hrun & Hfl).
    + vm_compute. reflexivity.
    + unfold in_grid. change (width MAZE) with 28. change (len MAZE) with 26.
      cbn. lia.
    + unfold in_grid. change (width MAZE) with 28. change (len MAZE) with 26.
      cbn. lia.
    + destruct r'.
      assert (Hk : k = 10%nat).
      { change (floor_times (Z.of_nat 80) 0.125) with (Some 10) in Hfl.
        inversion Hfl. lia. }
      subst k. exists g'. split; [exact Hrun|exact Hfl].
  - destruct (accumulator_steps 2 5 2 1 0.5 MAZE level14_config rect_MAZE
                Hfuel H2) as (_ & _ & _ & Hghost).
    destruct (Hghost unit keep_order PacMan.init tt
                (Ghost.set_eaten (corridor_ghost false) true)
                eq_refl eq_refl) as [Hcount _].
    destruct (ghost_run 2 5 MAZE PacMan.init level14_config tt
                (Ghost.set_eaten (corridor_ghost false) true))
      as [[[r' g'] k]|e] eqn:Hrun; [|vm_compute in Hrun; discriminate].
    destruct r'.
    assert (He : Ghost.eaten g' = true)
      by (vm_compute in Hrun; inversion Hrun; reflexivity).
    pose proof (Hcount tt g' k eq_refl He) as Hfl.
    assert (Hk : k = 2%nat).
    { change (floor_times (Z.of_nat 5) 0.5) with (Some 2) in Hfl.
      inversion Hfl. lia. }
    subst k. exists g'. split; [reflexivity|]. split; [exact He|exact Hfl].
Defined.

(** * Further properties of the code *)

(** ** Python indexing *)

(** [l[i]] succeeds exactly for [-len(l) <= i < len(l)]. *)
Lemma py_index_in_bounds {A} (l : list A) (i : Z) :
  - len l <= i < len l -> exists a, py_index l i = Ok a.
Proof.
  intros Hi. unfold py_index.
  destruct (Z.ltb_spec i 0).
  - destruct (Z.ltb_spec (i + len l) 0); [lia|].
    destruct (lookup_lt_is_Some_2 l (Z.to_nat (i + len l))) as [a ->];
      [unfold len in *; lia|eauto].
  - destruct (Z.ltb_spec i 0); [lia|].
    destruct (lookup_lt_is_Some_2 l (Z.to_nat i)) as [a ->];
      [unfold len in *; lia|eauto].
Qed.

Lemma py_index_out_of_bounds {A} (l : list A) (i : Z) :
  i < - len l \/ len l <= i -> py_index l i = Raise IndexError.
Proof.
  intros Hi. unfold py_index.
  destruct (Z.ltb_spec i 0).
  - destruct (Z.ltb_spec (i + len l) 0); [reflexivity|].
    rewrite (lookup_ge_None_2 l (Z.to_nat (i + len l)));
      [reflexivity|unfold len in *; lia].
  - destruct (Z.ltb_spec i 0); [lia|].
    rewrite (lookup_ge_None_2 l (Z.to_nat i)); [reflexivity|unfold len in *; lia].
Qed.

(** ** The domain of the level configuration *)

(** X1: [get_level_config] raises exactly for the levels up to -13, where
    [FRUITS[level - 1]] is out of range; for every other integer it
    returns a configuration. *)
Theorem get_level_config_domain (level : Z) :
  (level <= -13 -> get_level_config level = Raise IndexError)
  /\ (-13 < level -> exists c, get_level_config level = Ok c).
Proof.
  unfold get_level_config.
  change (dict_item configs 21) with (Ok (0.25%float, 0.32%float, 0)).
  cbn [bind]. split; intros Hl.
  - destruct (Z.eqb_spec level 256); [lia|].
    rewrite Z.min_l by lia.
    destruct (dict_get configs level _) as [[pac ghost] frightened].
    destruct (Z.leb_spec level 13); [|lia].
    rewrite py_index_out_of_bounds; [reflexivity|].
    left. change (len FRUITS) with 13. lia.
  - destruct (Z.eqb_spec level 256); [eauto|].
    destruct (dict_get configs (Z.min level 21) _) as [[pac ghost] frightened].
    destruct (Z.leb_spec (Z.min level 21) 13).
    + destruct (py_index_in_bounds FRUITS (Z.min level 21 - 1)) as [fr ->];
        [change (len FRUITS) with 13; lia|].
      cbn [bind]. eauto.
    + change (py_index FRUITS (-1))
        with (Ok {| points := 5000; fruit_name := "Key" |}).
      cbn [bind]. eauto.
Qed.

Lemma get_level_config_domain_witness :
  get_level_config (-13) = Raise IndexError
  /\ exists c, get_level_config (-12) = Ok c.
Proof.
  split.
  - apply (proj1 (get_level_config_domain (-13))). lia.
  - apply (proj2 (get_level_config_domain (-12))). lia.
Defined.

(** ** Difficulty never goes down *)

Lemma get_level_config_clamp (level : Z) :
  1 <= level <= 255 ->
  get_level_config level = get_level_config (Z.min level 21).
Proof.
  intros Hl. destruct (Z.le_gt_cases level 21).
  - now rewrite Z.min_l.
  - rewrite Z.min_r by lia. apply get_level_config_capped; lia.
Qed.

(** X2: over the playable levels 1..255, a later level is never easier:
    the player's speed and the ghosts' speed do not decrease, the
    frightened time does not increase and the fruit reward does not
    decrease, for any two levels and not only for neighbours. *)
Theorem difficulty_monotone (level level' : Z) :
  1 <= level -> level <= level' -> level' <= 255 ->
  exists c c',
    get_level_config level = Ok c /\ get_level_config level' = Ok c'
    /\ harder c c' = true.
Proof.
  intros H1 Hle H255.
  assert (Htable :
            forallb (fun m =>
              forallb (fun m' =>
                if m <=? m' then
                  match get_level_config m, get_level_config m' with
                  | Ok c, Ok c' => harder c c'
                  | _, _ => false
                  end
                else true) (seqZ 1 21)) (seqZ 1 21) = true)
    by (vm_compute; reflexivity).
  rewrite forallb_forall in Htable.
  specialize (Htable (Z.min level 21)).
  rewrite <- list_elem_of_In, elem_of_seqZ in Htable.
  specialize (Htable ltac:(lia)).
  rewrite forallb_forall in Htable.
  specialize (Htable (Z.min level' 21)).
  rewrite <- list_elem_of_In, elem_of_seqZ in Htable.
  specialize (Htable ltac:(lia)).
  destruct (Z.leb_spec (Z.min level 21) (Z.min level' 21)); [|lia].
  rewrite (get_level_config_clamp level), (get_level_config_clamp level')
    by lia.
  destruct (get_level_config (Z.min level 21)) as [c|]; [|discriminate].
  destruct (get_level_config (Z.min level' 21)) as [c'|]; [|discriminate].
  eauto.
Qed.

Lemma difficulty_monotone_witness :
  exists c c',
    get_level_config 3 = Ok c /\ get_level_config 200 = Ok c'
    /\ harder c c' = true.
Proof. apply (difficulty_monotone 3 200); lia. Defined.

(** ** Input events *)

Lemma handle_event_beyond_input (g : Main.t) (e : event) :
  beyond_input (Main.handle_event g e) = beyond_input g.
Proof.
  unfold Main.handle_event.
  destruct e as [|k|]; [reflexivity| |reflexivity].
  destruct k; cbn; break_ifs; reflexivity.
Qed.

Lemma handle_events_beyond_input (events : list event) :
  forall g : Main.t,
    beyond_input (fold_left Main.handle_event events g) = beyond_input g.
Proof.
  induction events as [|e events IH]; intros g; [reflexivity|].
  cbn [fold_left]. now rewrite IH, handle_event_beyond_input.
Qed.

(** The phase after the events: the one before, or READY reached from
    GHOST_ROLL by the space bar. *)
Lemma handle_events_state (events : list event) :
  forall g : Main.t,
    Main.state (fold_left Main.handle_event events g) = Main.state g
    \/ (Main.state g = GHOST_ROLL
        /\ Main.state (fold_left Main.handle_event events g) = READY).
Proof.
  induction events as [|e events IH]; intros g; [now left|].
  cbn [fold_left].
  assert (He : Main.state (Main.handle_event g e) = Main.state g
               \/ (Main.state g = GHOST_ROLL
                   /\ Main.state (Main.handle_event g e) = READY)).
  { unfold Main.handle_event. destruct e as [|k|]; [now left| |now left].
    destruct (Main.state g) eqn:Hst; destruct k; cbn; rewrite ?Hst; auto. }
  destruct (IH (Main.handle_event g e)) as [Hs|[Hs1 Hs2]].
  - rewrite Hs. exact He.
  - destruct He as [He|[He1 He2]]; [|congruence].
    right. split; congruence.
Qed.

(** ** What the phases of a tick leave alone *)

Lemma collide_all_invariant (P : Main.t -> Prop) :
  (forall g gh, P g -> P (Main.collide g gh).1) ->
  forall gs g, P g -> P (Main.collide_all g gs).1.
Proof.
  intros Hstep. induction gs as [|gh gs IH]; intros g Hg; [exact Hg|].
  rewrite collide_all_cons. cbn [fst]. apply IH, Hstep, Hg.
Qed.

(** The four outcomes of the pellet check. *)
Lemma pellet_phase_cases (level_config : LevelConfig) (g g' : Main.t) :
  Main.pellet_phase level_config g = Ok g' ->
  g' = g
  \/ (exists row,
         (0 <= PacMan.x (Main.pacman g) /\ 0 <= PacMan.y (Main.pacman g)
          /\ Main.maze g !! Z.to_nat (PacMan.y (Main.pacman g)) = Some row)
         /\ cell_at (Main.maze g) (PacMan.x (Main.pacman g))
              (PacMan.y (Main.pacman g)) = Some PELLET
         /\ g' = Main.set_dots_eaten
                   (Main.set_score
                      (Main.set_maze g
                         (Main.clear_cell (Main.maze g) row
                            (PacMan.x (Main.pacman g))
                            (PacMan.y (Main.pacman g))))
                      (Main.score g + 10))
                   (Main.dots_eaten g + 1))
  \/ (exists row,
         (0 <= PacMan.x (Main.pacman g) /\ 0 <= PacMan.y (Main.pacman g)
          /\ Main.maze g !! Z.to_nat (PacMan.y (Main.pacman g)) = Some row)
         /\ cell_at (Main.maze g) (PacMan.x (Main.pacman g))
              (PacMan.y (Main.pacman g)) = Some POWER_PELLET
         /\ g' = Main.set_ghosts
                   (Main.set_ghost_score
                      (Main.set_power_timer
                         (Main.set_score
                            (Main.set_maze g
                               (Main.clear_cell (Main.maze g) row
                                  (PacMan.x (Main.pacman g))
                                  (PacMan.y (Main.pacman g))))
                            (Main.score g + 50))
                         (frightened_time level_config))
                      200)
                   (map (fun gh => if negb (Ghost.eaten gh)
                                   then Ghost.set_frightened gh true
                                   else gh)
                      (Main.ghosts g)))
  \/ (cell_at (Main.maze g) (PacMan.x (Main.pacman g))
        (PacMan.y (Main.pacman g)) = Some FRUIT_SPOT
      /\ Main.fruit_active g = true
      /\ g' = Main.set_fruit_active
                (Main.set_score g (Main.score g + points (fruit level_config)))
                false).
Proof.
  unfold Main.pellet_phase, cell_at.
  set (x := PacMan.x (Main.pacman g)). set (y := PacMan.y (Main.pacman g)).
  intros Hp.
  destruct (Z.leb_spec 0 y); cbn [andb] in Hp;
    [|inversion Hp; subst; auto].
  destruct (y <? len (Main.maze g));
    [|inversion Hp; subst; auto].
  destruct (Z.leb_spec 0 x); [|inversion Hp; subst; auto].
  bind_case Hp as row0 Erow0.
  destruct (x <? len row0); [|inversion Hp; subst; auto].
  bind_case Hp as row Erow. bind_case Hp as cell Ecell.
  rewrite py_index_nonneg in Erow by lia.
  destruct (Main.maze g !! Z.to_nat y) as [row1|] eqn:Hrow; [|discriminate].
  inversion Erow; subst row1.
  rewrite py_index_nonneg in Ecell by lia.
  destruct (row !! Z.to_nat x) as [cell1|] eqn:Hcell; [|discriminate].
  inversion Ecell; subst cell1.
  destruct (Z.eqb_spec cell 2).
  { inversion Hp; subst. right. left. exists row. auto. }
  destruct (Z.eqb_spec cell 3).
  { inversion Hp; subst. right. right. left. exists row. auto. }
  destruct (Z.eqb_spec cell 5); cbn [andb] in Hp.
  - destruct (Main.fruit_active g) eqn:Hfa; inversion Hp; subst; auto 10.
  - inversion Hp; subst; auto.
Qed.

(** A simulation tick, phase by phase. *)
Lemma playing_phases {R} `{Shuffle R} (fuel : nat)
    (level_config : LevelConfig) (r r' : R) (g g' : Main.t) :
  Main.playing fuel level_config r g = Ok (r', g') ->
  exists p gs g1,
    PacMan.update fuel (Main.maze g) level_config (Main.pacman g) = Ok p
    /\ Main.update_ghosts fuel (Main.maze g) p level_config r (Main.ghosts g)
       = Ok (r', gs)
    /\ Main.pellet_phase level_config
         (Main.fruit_phase
            (Main.power_phase (Main.set_ghosts (Main.set_pacman g p) gs)))
       = Ok g1
    /\ g' = Main.extra_life_phase
              (Main.high_score_phase
                 (Main.level_complete_phase (Main.collision_phase g1))).
Proof.
  unfold Main.playing. intros Hp.
  bind_case Hp as p Epac. bind_case Hp as rgs Eghosts.
  destruct rgs as [r1 gs]. bind_case Hp as g1 Epellet.
  inversion Hp; subst. exists p, gs, g1. auto.
Qed.

Lemma power_phase_static (g : Main.t) :
  Main.level (Main.power_phase g) = Main.level g
  /\ Main.lives (Main.power_phase g) = Main.lives g
  /\ Main.score (Main.power_phase g) = Main.score g
  /\ Main.high_score (Main.power_phase g) = Main.high_score g
  /\ Main.dots_eaten (Main.power_phase g) = Main.dots_eaten g
  /\ Main.state (Main.power_phase g) = Main.state g
  /\ Main.fruit_active (Main.power_phase g) = Main.fruit_active g
  /\ Main.fruit_timer (Main.power_phase g) = Main.fruit_timer g.
Proof. unfold Main.power_phase. break_ifs; cbn; auto 10. Qed.

Lemma fruit_phase_static (g : Main.t) :
  Main.level (Main.fruit_phase g) = Main.level g
  /\ Main.lives (Main.fruit_phase g) = Main.lives g
  /\ Main.score (Main.fruit_phase g) = Main.score g
  /\ Main.high_score (Main.fruit_phase g) = Main.high_score g
  /\ Main.dots_eaten (Main.fruit_phase g) = Main.dots_eaten g
  /\ Main.state (Main.fruit_phase g) = Main.state g
  /\ Main.power_timer (Main.fruit_phase g) = Main.power_timer g
  /\ Main.ghost_score (Main.fruit_phase g) = Main.ghost_score g
  /\ Main.ghosts (Main.fruit_phase g) = Main.ghosts g.
Proof.
  destruct g as [st sc hs lv le de pt it dt lt gs ft fa mz pm gh rn].
  unfold Main.fruit_phase. cbn. break_ifs; cbn; break_ifs; cbn; auto 10.
Qed.

Lemma pellet_phase_static (level_config : LevelConfig) (g g' : Main.t) :
  Main.pellet_phase level_config g = Ok g' ->
  Main.level g' = Main.level g
  /\ Main.lives g' = Main.lives g
  /\ Main.high_score g' = Main.high_score g
  /\ Main.state g' = Main.state g.
Proof.
  intros Hp. apply pellet_phase_cases in Hp
    as [->|[(row & _ & _ & ->)|[(row & _ & _ & ->)|(_ & _ & ->)]]]; cbn; auto.
Qed.

Lemma collision_phase_static (g : Main.t) :
  Main.level (Main.collision_phase g) = Main.level g
  /\ Main.lives (Main.collision_phase g) = Main.lives g
  /\ Main.high_score (Main.collision_phase g) = Main.high_score g
  /\ Main.dots_eaten (Main.collision_phase g) = Main.dots_eaten g.
Proof.
  unfold Main.collision_phase.
  assert (Hinv : Main.level (Main.collide_all g (Main.ghosts g)).1
                 = Main.level g
                 /\ Main.lives (Main.collide_all g (Main.ghosts g)).1
                    = Main.lives g
                 /\ Main.high_score (Main.collide_all g (Main.ghosts g)).1
                    = Main.high_score g
                 /\ Main.dots_eaten (Main.collide_all g (Main.ghosts g)).1
                    = Main.dots_eaten g).
  { apply (collide_all_invariant
             (fun g' => Main.level g' = Main.level g
                        /\ Main.lives g' = Main.lives g
                        /\ Main.high_score g' = Main.high_score g
                        /\ Main.dots_eaten g' = Main.dots_eaten g)).
    - intros g0 gh (H1 & H2 & H3 & H4).
      unfold Main.collide. break_ifs; cbn; auto.
    - auto. }
  destruct (Main.collide_all g (Main.ghosts g)) as [g1 gs]. exact Hinv.
Qed.

Lemma tail_phases_static (g : Main.t) :
  let g' := Main.extra_life_phase
              (Main.high_score_phase (Main.level_complete_phase g)) in
  Main.level g' = Main.level g
  /\ Main.score g' = Main.score g
  /\ Main.dots_eaten g' = Main.dots_eaten g
  /\ Main.ghost_score g' = Main.ghost_score g
  /\ Main.ghosts g' = Main.ghosts g.
Proof.
  unfold Main.extra_life_phase, Main.high_score_phase,
    Main.level_complete_phase.
  cbn zeta. break_ifs; cbn; auto 10.
Qed.

(** A simulation tick does not change the level. *)
Lemma playing_level {R} `{Shuffle R} (fuel : nat) (level_config : LevelConfig)
    (r r' : R) (g g' : Main.t) :
  Main.playing fuel level_config r g = Ok (r', g') ->
  Main.level g' = Main.level g.
Proof.
  intros Hp. apply playing_phases in Hp as (p & gs & g1 & _ & _ & Hpel & ->).
  destruct (tail_phases_static (Main.collision_phase g1)) as (-> & _).
  destruct (collision_phase_static g1) as (-> & _).
  destruct (pellet_phase_static _ _ _ Hpel) as (-> & _).
  destruct (fruit_phase_static
              (Main.power_phase (Main.set_ghosts (Main.set_pacman g p) gs)))
    as (-> & _).
  destruct (power_phase_static (Main.set_ghosts (Main.set_pacman g p) gs))
    as (-> & _).
  reflexivity.
Qed.

(** ** Chain scoring *)
















(** ** Level progression *)

(** X3: a pass of the loop keeps the level within 1..256, and changes it
    only when the LEVEL_COMPLETE pause expires (to the next level, level
    256 being followed by level 1, on a fresh copy of MAZE with the
    dots-eaten counter at 0, the fruit inactive and the phase READY) or
    when the GAME_OVER pause expires (back to level 1, on a fresh copy of
    MAZE, in phase INTRO). *)
Theorem level_progression {R} `{Shuffle R} (fuel : nat) (events : list event)
    (r r' : R) (g g' : Main.t) :
  Main.frame fuel events r g = Ok (r', g') ->
  1 <= Main.level g <= 256 ->
  1 <= Main.level g' <= 256
  /\ (Main.level g' <> Main.level g ->
      (Main.state g = LEVEL_COMPLETE
       /\ Main.level g' = next_level (Main.level g)
       /\ Main.maze g' = MAZE /\ Main.dots_eaten g' = 0
       /\ Main.fruit_active g' = false /\ Main.state g' = READY)
      \/ (Main.state g = GAME_OVER /\ Main.level g' = 1
          /\ Main.maze g' = MAZE /\ Main.state g' = INTRO)).
Proof.
  unfold Main.frame. intros Hf Hrange.
  bind_case Hf as level_config Ecfg.
  pose proof (handle_events_beyond_input events g) as Hbi.
  pose proof (handle_events_state events g) as Hst.
  set (g0 := fold_left Main.handle_event events g) in *.
  assert (Hlevel : Main.level g0 = Main.level g)
    by (unfold beyond_input in Hbi; congruence).
  unfold Main.update_state in Hf.
  destruct (Main.state g0) eqn:Hs0.
  - (* INTRO *)
    assert (Main.level g' = Main.level g0)
      by (revert Hf; break_ifs; intros Hf; inversion Hf; reflexivity).
    split; [lia|]. intros Hne. congruence.
  - assert (Main.level g' = Main.level g0) by (inversion Hf; reflexivity).
    split; [lia|]. intros Hne. congruence.
  - assert (Main.level g' = Main.level g0)
      by (revert Hf; break_ifs; intros Hf; inversion Hf; reflexivity).
    split; [lia|]. intros Hne. congruence.
  - (* PLAYING *)
    assert (Main.level g' = Main.level g0).
    { destruct (Main.level g0 =? 256).
      - inversion Hf; reflexivity.
      - eapply playing_level; exact Hf. }
    split; [lia|]. intros Hne. congruence.
  - (* DYING *)
    assert (Main.level g' = Main.level g0)
      by (revert Hf; break_ifs; intros Hf; inversion Hf; reflexivity).
    split; [lia|]. intros Hne. congruence.
  - (* GAME_OVER *)
    assert (Hgo : Main.state g = GAME_OVER)
      by (destruct Hst as [Hst|[_ Hst]]; congruence).
    revert Hf. cbn. destruct (Main.intro_timer g0 + 1 >? 300);
      intros Hf; inversion Hf; subst; cbn.
    + split; [lia|]. intros _. right. auto.
    + split; [lia|]. intros Hne. congruence.
  - (* LEVEL_COMPLETE *)
    assert (Hlc : Main.state g = LEVEL_COMPLETE)
      by (destruct Hst as [Hst|[_ Hst]]; congruence).
    revert Hf. cbn. destruct (Main.level_complete_timer g0 + 1 >? 180).
    + unfold next_level. rewrite <- Hlevel.
      destruct (Z.gtb_spec (Main.level g0 + 1) 256);
        intros Hf; inversion Hf; subst; cbn;
        (split; [lia|]); intros _; left; auto 10.
    + intros Hf; inversion Hf; subst; cbn.
      split; [lia|]. intros Hne. congruence.
  - (* KILL_SCREEN *)
    assert (Main.level g' = Main.level g0) by (inversion Hf; reflexivity).
    split; [lia|]. intros Hne. congruence.
Qed.

Lemma level_progression_witness :
  exists g',
    Main.frame 2 [] tt last_level_complete = Ok (tt, g')
    /\ 1 <= Main.level last_level_complete <= 256
    /\ 1 <= Main.level g' <= 256.
Proof.
  eexists. split; [vm_compute; reflexivity|].
  assert (Hrange : 1 <= Main.level last_level_complete <= 256)
    by (cbn; lia).
  split; [exact Hrange|].
  exact (proj1 (level_progression 2 [] tt tt last_level_complete _
                  eq_refl Hrange)).
Defined.

(** ** The kill screen *)

(** X4: at level 256 a pass of the loop in phase PLAYING only switches
    to KILL_SCREEN, without moving or scoring; and in phase KILL_SCREEN a
    pass of the loop, whatever the input events, never raises and changes
    nothing but the running flag: the phase, score, lives, level, maze,
    ghosts and player stay as they are, so the game cannot be left but by
    quitting. *)
Theorem kill_screen_is_final {R} `{Shuffle R} (fuel : nat)
    (events : list event) (r : R) (g : Main.t) :
  Main.level g = 256 ->
  (Main.state g = PLAYING ->
   Main.frame fuel [] r g = Ok (r, Main.set_state g KILL_SCREEN))
  /\ (Main.state g = KILL_SCREEN ->
      exists g',
        Main.frame fuel events r g = Ok (r, g')
        /\ Main.state g' = KILL_SCREEN
        /\ beyond_input g' = beyond_input g
        /\ Main.pacman g' = Main.pacman g
        /\ Main.intro_timer g' = Main.intro_timer g)
  /\ (Main.state g = KILL_SCREEN ->
      forall n, Main.frames fuel n r g = Ok (r, g)).
Proof.
  intros Hlevel.
  assert (Hcfg : get_level_config (Main.level g) = Ok kill_screen_config)
    by (rewrite Hlevel; reflexivity).
  split; [|split].
  - intros Hst. unfold Main.frame. rewrite Hcfg. cbn [bind fold_left].
    unfold Main.update_state. rewrite Hst, Hlevel. reflexivity.
  - intros Hst. unfold Main.frame. rewrite Hcfg. cbn [bind].
    assert (Hev : forall evs g0,
               Main.state g0 = KILL_SCREEN ->
               Main.state (fold_left Main.handle_event evs g0) = KILL_SCREEN
               /\ Main.pacman (fold_left Main.handle_event evs g0)
                  = Main.pacman g0
               /\ Main.intro_timer (fold_left Main.handle_event evs g0)
                  = Main.intro_timer g0).
    { induction evs as [|e evs IH]; intros g0 Hs0; [auto|].
      cbn [fold_left].
      assert (He : Main.state (Main.handle_event g0 e) = KILL_SCREEN
                   /\ Main.pacman (Main.handle_event g0 e) = Main.pacman g0
                   /\ Main.intro_timer (Main.handle_event g0 e)
                      = Main.intro_timer g0).
      { unfold Main.handle_event. destruct e as [|k|]; [auto| |auto].
        destruct k; rewrite ?Hs0; cbn; auto. }
      destruct He as (He1 & He2 & He3).
      destruct (IH _ He1) as (-> & -> & ->). auto. }
    destruct (Hev events g Hst) as (Hs & Hp & Hi).
    exists (fold_left Main.handle_event events g).
    unfold Main.update_state. rewrite Hs.
    split; [reflexivity|]. split; [reflexivity|].
    split; [apply handle_events_beyond_input|]. auto.
  - intros Hst n. induction n as [|n IH]; [reflexivity|].
    cbn [Main.frames]. unfold Main.frame. rewrite Hcfg. cbn [bind fold_left].
    unfold Main.update_state. rewrite Hst. cbn [bind]. exact IH.
Qed.

Lemma kill_screen_is_final_witness :
  Main.level on_kill_screen = 256
  /\ Main.state on_kill_screen = KILL_SCREEN
  /\ Main.frames 2 1000 tt on_kill_screen = Ok (tt, on_kill_screen).
Proof.
  split; [reflexivity|]. split; [reflexivity|].
  exact (proj2 (proj2 (kill_screen_is_final 2 [] tt on_kill_screen eq_refl))
           eq_refl 1000%nat).
Defined.

(** ** Score and high score *)

Lemma level_complete_phase_static (g : Main.t) :
  Main.score (Main.level_complete_phase g) = Main.score g
  /\ Main.high_score (Main.level_complete_phase g) = Main.high_score g
  /\ Main.lives (Main.level_complete_phase g) = Main.lives g.
Proof. unfold Main.level_complete_phase. break_ifs; cbn; auto. Qed.

Lemma high_score_phase_max (g : Main.t) :
  Main.high_score (Main.high_score_phase g)
  = Z.max (Main.high_score g) (Main.score g)
  /\ Main.score (Main.high_score_phase g) = Main.score g
  /\ Main.lives (Main.high_score_phase g) = Main.lives g.
Proof.
  unfold Main.high_score_phase.
  destruct (Z.gtb_spec (Main.score g) (Main.high_score g)); cbn;
    (split; [lia|auto]).
Qed.

Lemma extra_life_phase_static (g : Main.t) :
  Main.score (Main.extra_life_phase g) = Main.score g
  /\ Main.high_score (Main.extra_life_phase g) = Main.high_score g.
Proof. unfold Main.extra_life_phase. break_ifs; cbn; auto. Qed.

(** After a simulation tick the high score is the larger of the old high
    score and the new score. *)
Lemma playing_high_score {R} `{Shuffle R} (fuel : nat)
    (level_config : LevelConfig) (r r' : R) (g g' : Main.t) :
  Main.playing fuel level_config r g = Ok (r', g') ->
  Main.high_score g' = Z.max (Main.high_score g) (Main.score g').
Proof.
  intros Hp. apply playing_phases in Hp as (p & gs & g1 & _ & _ & Hpel & ->).
  destruct (extra_life_phase_static
              (Main.high_score_phase
                 (Main.level_complete_phase (Main.collision_phase g1))))
    as [-> ->].
  destruct (high_score_phase_max
              (Main.level_complete_phase (Main.collision_phase g1)))
    as (-> & -> & _).
  destruct (level_complete_phase_static (Main.collision_phase g1))
    as (-> & -> & _).
  destruct (collision_phase_static g1) as (_ & _ & -> & _).
  destruct (pellet_phase_static _ _ _ Hpel) as (_ & _ & -> & _).
  destruct (fruit_phase_static
              (Main.power_phase (Main.set_ghosts (Main.set_pacman g p) gs)))
    as (_ & _ & _ & -> & _).
  destruct (power_phase_static (Main.set_ghosts (Main.set_pacman g p) gs))
    as (_ & _ & _ & -> & _).
  reflexivity.
Qed.

(** X5: the high score never goes down and, once it is at least the
    score, stays at least the score after every pass of the loop: a tick
    raises it to the new score when the score passes it, and a new game
    resets the score while keeping the high score. *)
Theorem high_score_tracks_score {R} `{Shuffle R} (fuel : nat)
    (events : list event) (r r' : R) (g g' : Main.t) :
  Main.frame fuel events r g = Ok (r', g') ->
  Main.score g <= Main.high_score g -> 0 <= Main.high_score g ->
  Main.high_score g <= Main.high_score g'
  /\ Main.score g' <= Main.high_score g'
  /\ (Main.state g <> GAME_OVER -> Main.state g <> PLAYING ->
      Main.score g' = Main.score g /\ Main.high_score g' = Main.high_score g).
Proof.
  unfold Main.frame. intros Hf Hle Hnn.
  bind_case Hf as level_config Ecfg.
  pose proof (handle_events_beyond_input events g) as Hbi.
  pose proof (handle_events_state events g) as Hst.
  set (g0 := fold_left Main.handle_event events g) in *.
  assert (Hsc : Main.score g0 = Main.score g)
    by (unfold beyond_input in Hbi; congruence).
  assert (Hhs : Main.high_score g0 = Main.high_score g)
    by (unfold beyond_input in Hbi; congruence).
  unfold Main.update_state in Hf.
  destruct (Main.state g0) eqn:Hs0;
    try (assert (Hsame : Main.score g' = Main.score g0
                         /\ Main.high_score g' = Main.high_score g0)
           by (revert Hf; break_ifs; intros Hf; inversion Hf; cbn; auto);
         destruct Hsame as [Hs1 Hs2];
         split; [lia|]; split; [lia|]; intros _ _; split; congruence).
  - (* PLAYING *)
    assert (Hpl : Main.state g = PLAYING)
      by (destruct Hst as [Hst|[_ Hst]]; congruence).
    destruct (Main.level g0 =? 256).
    + inversion Hf; subst. cbn.
      split; [lia|]. split; [lia|]. intros _ Hnp. contradiction.
    + apply playing_high_score in Hf. rewrite Hf, Hhs.
      split; [lia|]. split; [lia|]. intros _ Hnp. contradiction.
  - (* GAME_OVER *)
    assert (Hgo : Main.state g = GAME_OVER)
      by (destruct Hst as [Hst|[_ Hst]]; congruence).
    revert Hf. cbn. destruct (Main.intro_timer g0 + 1 >? 300);
      intros Hf; inversion Hf; subst; cbn;
      (split; [lia|]); (split; [lia|]); intros Hng; contradiction.
Qed.

Lemma high_score_tracks_score_witness :
  exists g',
    Main.frame 2 [] tt
      (Main.set_pacman (Main.set_state Main.init PLAYING)
         (PacMan.set_pos PacMan.init 1 1))
    = Ok (tt, g')
    /\ Main.score g' = 10
    /\ Main.score g' <= Main.high_score g'.
Proof.
  eexists. split; [vm_compute; reflexivity|]. split; [reflexivity|].
  refine (proj1 (proj2 (high_score_tracks_score 2 [] tt tt
                          (Main.set_pacman (Main.set_state Main.init PLAYING)
                             (PacMan.set_pos PacMan.init 1 1)) _
                          eq_refl _ _))); cbn; lia.
Defined.

(** ** Scores are multiples of ten *)

Lemma py_index_elem {A} (l : list A) (i : Z) (a : A) :
  py_index l i = Ok a -> a ∈ l.
Proof.
  unfold py_index. destruct (_ <? 0); [discriminate|].
  destruct (l !! _) as [b|] eqn:Hb; [|discriminate].
  intros [= <-]. eapply list_elem_of_lookup_2. exact Hb.
Qed.

(** Every fruit reward a level configuration can carry is a multiple of
    ten. *)
Lemma fruit_points_tens (level : Z) (c : LevelConfig) :
  get_level_config level = Ok c -> (10 | points (fruit c)).
Proof.
  assert (Hall : Forall (fun fr => (10 | points fr)) FRUITS).
  { repeat constructor; cbn;
      match goal with |- (10 | ?n) => exists (n / 10); reflexivity end. }
  rewrite Forall_forall in Hall.
  unfold get_level_config.
  destruct (level =? 256).
  - intros [= <-]. exists 0. reflexivity.
  - intros Hc. bind_case Hc as c21 E21.
    destruct (dict_get configs (Z.min level 21) c21) as [[pac ghost] fr_t].
    bind_case Hc as fr Efr. inversion Hc; subst c. cbn [fruit].
    apply Hall. destruct (_ <=? 13); eapply py_index_elem; exact Efr.
Qed.

Lemma collision_phase_tens (g : Main.t) :
  (10 | Main.score g) -> (10 | Main.ghost_score g) ->
  (10 | Main.score (Main.collision_phase g))
  /\ (10 | Main.ghost_score (Main.collision_phase g)).
Proof.
  intros Hs Hg. unfold Main.collision_phase.
  assert (Hinv : (10 | Main.score (Main.collide_all g (Main.ghosts g)).1)
                 /\ (10 | Main.ghost_score
                            (Main.collide_all g (Main.ghosts g)).1)).
  { apply (collide_all_invariant
             (fun g' => (10 | Main.score g') /\ (10 | Main.ghost_score g'))).
    - intros g0 gh [H1 H2]. unfold Main.collide. break_ifs; cbn; auto.
      split; [now apply Z.divide_add_r|now apply Z.divide_mul_l].
    - auto. }
  destruct (Main.collide_all g (Main.ghosts g)) as [g1 gs]. exact Hinv.
Qed.

Lemma power_phase_tens (g : Main.t) :
  (10 | Main.ghost_score g) -> (10 | Main.ghost_score (Main.power_phase g)).
Proof.
  intros Hg. unfold Main.power_phase. break_ifs; cbn; auto.
  exists 20. reflexivity.
Qed.

Lemma pellet_phase_tens (level_config : LevelConfig) (g g' : Main.t) :
  Main.pellet_phase level_config g = Ok g' ->
  (10 | points (fruit level_config)) ->
  (10 | Main.score g) -> (10 | Main.ghost_score g) ->
  (10 | Main.score g') /\ (10 | Main.ghost_score g').
Proof.
  intros Hp Hfr Hs Hg.
  apply pellet_phase_cases in Hp
    as [->|[(row & _ & _ & ->)|[(row & _ & _ & ->)|(_ & _ & ->)]]]; cbn.
  - auto.
  - split; [|exact Hg]. apply Z.divide_add_r; [exact Hs|now exists 1].
  - split; [|now exists 20]. apply Z.divide_add_r; [exact Hs|now exists 5].
  - split; [|exact Hg]. now apply Z.divide_add_r.
Qed.

(** A simulation tick on scores that are multiples of ten. *)
Lemma playing_tens {R} `{Shuffle R} (fuel : nat) (level_config : LevelConfig)
    (r r' : R) (g g' : Main.t) :
  Main.playing fuel level_config r g = Ok (r', g') ->
  (10 | points (fruit level_config)) ->
  (10 | Main.score g) -> (10 | Main.ghost_score g) ->
  (10 | Main.score g') /\ (10 | Main.ghost_score g')
  /\ Main.lives g'
     = Main.lives g + (if Main.score g' mod 10000 =? 0 then 1 else 0).
Proof.
  intros Hp Hfr Hs Hg.
  apply playing_phases in Hp as (p & gs & g1 & _ & _ & Hpel & ->).
  set (g0 := Main.fruit_phase
               (Main.power_phase (Main.set_ghosts (Main.set_pacman g p) gs)))
    in *.
  assert (H0 : (10 | Main.score g0) /\ (10 | Main.ghost_score g0)
               /\ Main.lives g0 = Main.lives g).
  { subst g0.
    destruct (fruit_phase_static
                (Main.power_phase (Main.set_ghosts (Main.set_pacman g p) gs)))
      as (_ & -> & -> & _ & _ & _ & _ & -> & _).
    destruct (power_phase_static (Main.set_ghosts (Main.set_pacman g p) gs))
      as (_ & -> & -> & _).
    split; [exact Hs|]. split; [|reflexivity].
    apply power_phase_tens. exact Hg. }
  destruct H0 as (Hs0 & Hg0 & Hl0).
  destruct (pellet_phase_tens _ _ _ Hpel Hfr Hs0 Hg0) as [Hs1 Hg1].
  destruct (pellet_phase_static _ _ _ Hpel) as (_ & Hl1 & _).
  destruct (collision_phase_tens g1 Hs1 Hg1) as [Hs2 Hg2].
  destruct (collision_phase_static g1) as (_ & Hl2 & _).
  set (g2 := Main.collision_phase g1) in *.
  destruct (tail_phases_static g2) as (_ & Hsc & _ & Hgs & _).
  cbn zeta in Hsc, Hgs.
  split; [now rewrite Hsc|]. split; [now rewrite Hgs|].
  rewrite extra_life_phase_lives.
  destruct (high_score_phase_max (Main.level_complete_phase g2))
    as (_ & Hsc3 & ->).
  destruct (level_complete_phase_static g2) as (Hsc4 & _ & ->).
  rewrite Hl2, Hl1, Hl0. f_equal.
  destruct (extra_life_phase_static
              (Main.high_score_phase (Main.level_complete_phase g2)))
    as [-> _].
  rewrite Hsc3, Hsc4.
  destruct Hs2 as [q Hq]. rewrite Hq.
  destruct (Z.ltb_spec ((q * 10) mod 10000) 10);
    destruct (Z.eqb_spec ((q * 10) mod 10000) 0); try reflexivity;
    exfalso; Z.div_mod_to_equations; lia.
Qed.

(** X6: the score and the chain value are multiples of ten after every
    pass of the loop if they were before; and on such scores the
    extra-life check of a simulation tick grants a life exactly when the
    score at the end of the tick is a multiple of 10000, zero included,
    whether or not the score changed in the tick. *)
Theorem extra_life_on_multiples_of_10000 {R} `{Shuffle R} (fuel : nat)
    (events : list event) (r r' : R) (g g' : Main.t) :
  Main.frame fuel events r g = Ok (r', g') ->
  (10 | Main.score g) -> (10 | Main.ghost_score g) ->
  (10 | Main.score g') /\ (10 | Main.ghost_score g')
  /\ (Main.state g = PLAYING -> Main.level g <> 256 ->
      Main.lives g'
      = Main.lives g + (if Main.score g' mod 10000 =? 0 then 1 else 0)).
Proof.
  unfold Main.frame. intros Hf Hs Hg.
  bind_case Hf as level_config Ecfg.
  apply fruit_points_tens in Ecfg.
  pose proof (handle_events_beyond_input events g) as Hbi.
  pose proof (handle_events_state events g) as Hst.
  set (g0 := fold_left Main.handle_event events g) in *.
  assert (Hsc : Main.score g0 = Main.score g)
    by (unfold beyond_input in Hbi; congruence).
  assert (Hgs : Main.ghost_score g0 = Main.ghost_score g)
    by (unfold beyond_input in Hbi; congruence).
  assert (Hlv : Main.lives g0 = Main.lives g)
    by (unfold beyond_input in Hbi; congruence).
  assert (Hle : Main.level g0 = Main.level g)
    by (unfold beyond_input in Hbi; congruence).
  rewrite <- Hsc in Hs. rewrite <- Hgs in Hg.
  unfold Main.update_state in Hf.
  destruct (Main.state g0) eqn:Hs0;
    try (assert (Hsame : Main.score g' = Main.score g0
                         /\ Main.ghost_score g' = Main.ghost_score g0)
           by (revert Hf; break_ifs; intros Hf; inversion Hf; cbn; auto);
         destruct Hsame as [-> ->];
         split; [exact Hs|]; split; [exact Hg|];
         intros Hpl; destruct Hst as [Hst|[Hst _]]; congruence).
  - (* PLAYING *)
    destruct (Z.eqb_spec (Main.level g0) 256).
    + inversion Hf; subst. cbn.
      split; [exact Hs|]. split; [exact Hg|]. intros _ Hne. congruence.
    + destruct (playing_tens _ _ _ _ _ _ Hf Ecfg Hs Hg) as (H1 & H2 & H3).
      split; [exact H1|]. split; [exact H2|]. intros _ _. now rewrite H3, Hlv.
  - (* GAME_OVER *)
    revert Hf. cbn. destruct (Main.intro_timer g0 + 1 >? 300);
      intros Hf; inversion Hf; subst; cbn.
    + split; [now exists 0|]. split; [exact Hg|].
      intros Hpl. destruct Hst as [Hst|[Hst _]]; congruence.
    + split; [exact Hs|]. split; [exact Hg|].
      intros Hpl. destruct Hst as [Hst|[Hst _]]; congruence.
Qed.

Lemma extra_life_on_multiples_of_10000_witness :
  exists g',
    Main.frame 2 [] tt (Main.set_state Main.init PLAYING) = Ok (tt, g')
    /\ Main.score g' = 0
    /\ Main.lives g' = Main.lives (Main.set_state Main.init PLAYING) + 1.
Proof.
  eexists. split; [vm_compute; reflexivity|]. split; [reflexivity|].
  refine (proj2 (proj2 (extra_life_on_multiples_of_10000 2 [] tt tt
                          (Main.set_state Main.init PLAYING) _
                          eq_refl _ _)) eq_refl _).
  - exists 0. reflexivity.
  - exists 20. reflexivity.
  - cbn. lia.
Defined.

(** ** The end of a level and the end of a life *)

Lemma collision_phase_state (g : Main.t) :
  Main.state (Main.collision_phase g) = Main.state g
  \/ (Main.state (Main.collision_phase g) = DYING
      /\ Main.death_timer (Main.collision_phase g) = 0).
Proof.
  unfold Main.collision_phase.
  assert (Hinv : Main.state (Main.collide_all g (Main.ghosts g)).1
                 = Main.state g
                 \/ (Main.state (Main.collide_all g (Main.ghosts g)).1 = DYING
                     /\ Main.death_timer
                          (Main.collide_all g (Main.ghosts g)).1 = 0)).
  { apply (collide_all_invariant
             (fun g' => Main.state g' = Main.state g
                        \/ (Main.state g' = DYING
                            /\ Main.death_timer g' = 0))).
    - intros g0 gh Hg0. unfold Main.collide. break_ifs; cbn; auto.
    - now left. }
  destruct (Main.collide_all g (Main.ghosts g)) as [g1 gs]. exact Hinv.
Qed.

Lemma score_phases_state (g : Main.t) :
  let g' := Main.extra_life_phase (Main.high_score_phase g) in
  Main.state g' = Main.state g
  /\ Main.death_timer g' = Main.death_timer g
  /\ Main.level_complete_timer g' = Main.level_complete_timer g
  /\ Main.maze g' = Main.maze g.
Proof.
  unfold Main.extra_life_phase, Main.high_score_phase. cbn zeta.
  break_ifs; cbn; auto.
Qed.

(** X7: a simulation tick that leaves no PELLET or POWER_PELLET cell
    ends in phase LEVEL_COMPLETE with its timer at 0, also when a ghost
    caught the player in the same tick (the level-complete check comes
    after the collision check and overrides DYING); a tick that leaves
    some ends in PLAYING, or in DYING with the death timer at 0. *)
Theorem level_complete_on_last_pellet {R} `{Shuffle R} (fuel : nat)
    (level_config : LevelConfig) (r r' : R) (g g' : Main.t) :
  Main.playing fuel level_config r g = Ok (r', g') ->
  Main.state g = PLAYING ->
  (Main.pellets_left (Main.maze g') = 0 ->
   Main.state g' = LEVEL_COMPLETE /\ Main.level_complete_timer g' = 0)
  /\ (Main.pellets_left (Main.maze g') <> 0 ->
      Main.state g' = PLAYING
      \/ (Main.state g' = DYING /\ Main.death_timer g' = 0)).
Proof.
  intros Hp Hst.
  apply playing_phases in Hp as (p & gs & g1 & _ & _ & Hpel & ->).
  destruct (score_phases_state
              (Main.level_complete_phase (Main.collision_phase g1)))
    as (-> & -> & -> & ->).
  assert (Hst1 : Main.state g1 = PLAYING).
  { destruct (pellet_phase_static _ _ _ Hpel) as (_ & _ & _ & ->).
    destruct (fruit_phase_static
                (Main.power_phase (Main.set_ghosts (Main.set_pacman g p) gs)))
      as (_ & _ & _ & _ & _ & -> & _).
    destruct (power_phase_static (Main.set_ghosts (Main.set_pacman g p) gs))
      as (_ & _ & _ & _ & _ & -> & _).
    exact Hst. }
  pose proof (collision_phase_state g1) as Hcol. rewrite Hst1 in Hcol.
  set (g2 := Main.collision_phase g1) in *.
  unfold Main.level_complete_phase.
  destruct (Z.eqb_spec (Main.pellets_left (Main.maze g2)) 0) as [Hz|Hnz]; cbn.
  - split; [auto|]. intros Hne. contradiction.
  - split; [intros Hz; contradiction|]. intros _. exact Hcol.
Qed.

(** The last pellet eaten with a pursuing ghost on the same cell. *)
Lemma level_complete_on_last_pellet_witness :
  exists g',
    Main.playing 2 level21_config tt last_pellet_session = Ok (tt, g')
    /\ Main.pellets_left (Main.maze g') = 0
    /\ Main.state g' = LEVEL_COMPLETE.
Proof.
  destruct (Main.playing 2 level21_config tt last_pellet_session)
    as [[r' g']|e] eqn:Hp; [|vm_compute in Hp; discriminate].
  assert (Hr : r' = tt) by now destruct r'. subst r'.
  exists g'. split; [reflexivity|].
  assert (Hleft : Main.pellets_left (Main.maze g') = 0)
    by (vm_compute in Hp; inversion Hp; subst g'; reflexivity).
  split; [exact Hleft|].
  exact (proj1 (proj1 (level_complete_on_last_pellet 2 level21_config tt tt
                         last_pellet_session g' Hp eq_refl) Hleft)).
Defined.

(** If every ghost that is not eaten is frightened, the collision check
    does not change the phase. *)
Lemma collide_all_harmless (gs : list Ghost.t) :
  forall g : Main.t,
    Forall (fun gh => Ghost.eaten gh = false -> Ghost.frightened gh = true)
      gs ->
    Main.state (Main.collide_all g gs).1 = Main.state g
    /\ Main.score g <= Main.score (Main.collide_all g gs).1
       \/ Main.ghost_score g < 0.
Proof.
  induction gs as [|gh gs IH]; intros g Hall;
    [cbn; left; split; [reflexivity|lia]|].
  apply Forall_cons in Hall as [Hgh Hall].
  rewrite collide_all_cons. cbn [fst].
  destruct (Z.lt_ge_cases (Main.ghost_score g) 0) as [Hneg|Hpos];
    [now right|].
  assert (Hstep : Main.state (Main.collide g gh).1 = Main.state g
                  /\ Main.score g <= Main.score (Main.collide g gh).1
                  /\ 0 <= Main.ghost_score (Main.collide g gh).1).
  { unfold Main.collide.
    destruct (Main.touching gh (Main.pacman g));
      [|cbn; split; [reflexivity|lia]].
    destruct (Ghost.frightened gh) eqn:Hf;
      [cbn; split; [reflexivity|lia]|].
    destruct (Ghost.eaten gh) eqn:He; [cbn; split; [reflexivity|lia]|].
    specialize (Hgh eq_refl). congruence. }
  destruct Hstep as (Hs1 & Hs2 & Hs3).
  destruct (IH (Main.collide g gh).1 Hall) as [[Hs4 Hs5]|Hneg]; [|lia].
  left. split; [congruence|lia].
Qed.

(** X8: on the tick in which the player eats a power pellet no ghost can
    end the player's life: the pellet check frightens every ghost that is
    not eaten before the collision check runs, so a ghost touching the
    player is captured (or, being eaten, ignored) and the phase is not set
    to DYING; with a chain value that is not negative the score grows by
    at least the 50 points of the pellet. *)
Theorem power_pellet_tick_is_safe (level_config : LevelConfig) (g : Main.t) :
  in_grid (Main.maze g) (PacMan.x (Main.pacman g)) (PacMan.y (Main.pacman g)) ->
  cell_at (Main.maze g) (PacMan.x (Main.pacman g)) (PacMan.y (Main.pacman g))
  = Some POWER_PELLET ->
  exists g1,
    Main.pellet_phase level_config g = Ok g1
    /\ Main.state (Main.collision_phase g1) = Main.state g
    /\ Main.score g + 50 <= Main.score (Main.collision_phase g1).
Proof.
  intros Hin Hcell.
  destruct (pellet_phase_power level_config g Hin Hcell)
    as (g1 & Hp & Hsc & _ & Hgs & Hghosts).
  exists g1. split; [exact Hp|].
  assert (Hst1 : Main.state g1 = Main.state g)
    by (destruct (pellet_phase_static _ _ _ Hp) as (_ & _ & _ & ->);
        reflexivity).
  assert (Hall : Forall (fun gh => Ghost.eaten gh = false ->
                                   Ghost.frightened gh = true)
                   (Main.ghosts g1)).
  { rewrite Hghosts. apply Forall_forall. intros gh Hel.
    apply list_elem_of_fmap in Hel as (gh0 & -> & _).
    destruct (Ghost.eaten gh0) eqn:He; cbn; [congruence|reflexivity]. }
  unfold Main.collision_phase.
  destruct (collide_all_harmless (Main.ghosts g1) g1 Hall) as [[H1 H2]|Hneg];
    [|lia].
  destruct (Main.collide_all g1 (Main.ghosts g1)) as [g2 gs2].
  cbn [fst] in H1, H2. cbn. split; [congruence|lia].
Qed.

(** With a pursuing ghost on the player's cell the phase stays PLAYING
    and the ghost is worth 200 points on top of the 50 of the pellet. *)
Lemma power_pellet_tick_is_safe_witness :
  exists g1,
    Main.pellet_phase level21_config ambushed_on_power_pellet = Ok g1
    /\ Main.state (Main.collision_phase g1) = PLAYING
    /\ Main.score (Main.collision_phase g1) = 250.
Proof.
  destruct (power_pellet_tick_is_safe level21_config ambushed_on_power_pellet)
    as (g1 & Hp & Hst & _).
  - unfold in_grid, ambushed_on_power_pellet.
    cbn [Main.maze Main.set_ghosts Main.set_pacman
      Main.set_state Main.init Main.pacman PacMan.x PacMan.y PacMan.set_pos].
    change (width MAZE) with 28. change (len MAZE) with 26. lia.
  - reflexivity.
  - exists g1. split; [exact Hp|]. split; [exact Hst|].
    vm_compute in Hp. inversion Hp; subst g1. reflexivity.
Defined.

(** ** Counting pellets *)

Lemma count_cons (v c : Z) (row : list Z) :
  Main.count v (c :: row) = (if v =? c then 1 else 0) + Main.count v row.
Proof.
  unfold Main.count, len. cbn [List.filter].
  destruct (v =? c); cbn [length]; lia.
Qed.

(** [row[n] = w] changes the count of [v] by the cell that goes and the
    cell that comes. *)
Lemma count_insert (v w : Z) (row : list Z) :
  forall (n : nat) (c : Z),
    row !! n = Some c ->
    Main.count v (<[n := w]> row)
    = Main.count v row - (if v =? c then 1 else 0) + (if v =? w then 1 else 0).
Proof.
  induction row as [|c0 row IH]; intros n c Hn; [discriminate|].
  destruct n as [|n].
  - inversion Hn; subst c0.
    change (<[0%nat := w]> (c :: row)) with (w :: row).
    rewrite !count_cons. lia.
  - change (<[S n := w]> (c0 :: row)) with (c0 :: <[n := w]> row).
    rewrite !count_cons. rewrite (IH n c Hn). lia.
Qed.

Lemma total_insert (f : list Z -> Z) (row' : list Z) (maze : list (list Z)) :
  forall (n : nat) (row : list Z),
    maze !! n = Some row ->
    total f (<[n := row']> maze) = total f maze - f row + f row'.
Proof.
  induction maze as [|row0 maze IH]; intros n row Hn; [discriminate|].
  destruct n as [|n].
  - inversion Hn; subst row0.
    change (<[0%nat := row']> (row :: maze)) with (row' :: maze).
    unfold total. cbn [fold_right]. lia.
  - change (<[S n := row']> (row0 :: maze)) with (row0 :: <[n := row']> maze).
    unfold total in *. cbn [fold_right]. rewrite (IH n row Hn). lia.
Qed.

Lemma pellets_left_total (maze : list (list Z)) :
  Main.pellets_left maze
  = total (fun row => Main.count 2 row + Main.count 3 row) maze.
Proof. reflexivity. Qed.

(** Eating the cell [c] under the player. *)
Lemma clear_cell_counts (maze : list (list Z)) (row : list Z) (x y c : Z) :
  0 <= x -> 0 <= y ->
  maze !! Z.to_nat y = Some row -> row !! Z.to_nat x = Some c ->
  pellet_cells (Main.clear_cell maze row x y)
  = pellet_cells maze - (if 2 =? c then 1 else 0)
  /\ Main.pellets_left (Main.clear_cell maze row x y)
     = Main.pellets_left maze - (if 2 =? c then 1 else 0)
       - (if 3 =? c then 1 else 0).
Proof.
  intros Hx Hy Hrow Hc. unfold Main.clear_cell, py_store, pellet_cells.
  rewrite !pellets_left_total.
  rewrite !(total_insert _ _ _ _ _ Hrow).
  unfold PELLET. rewrite !(count_insert _ 0 _ _ _ Hc).
  change (2 =? 0) with false. change (3 =? 0) with false.
  cbv beta iota. rewrite (pellets_left_total maze). split; lia.
Qed.

(** The pellet check keeps the books: the dots-eaten counter grows by
    the number of PELLET cells that went. *)
Lemma pellet_phase_counts (level_config : LevelConfig) (g g' : Main.t) :
  Main.pellet_phase level_config g = Ok g' ->
  pellet_cells (Main.maze g') + Main.dots_eaten g'
  = pellet_cells (Main.maze g) + Main.dots_eaten g
  /\ (Main.pellets_left (Main.maze g') = Main.pellets_left (Main.maze g)
      \/ Main.pellets_left (Main.maze g') = Main.pellets_left (Main.maze g) - 1).
Proof.
  intros Hp. apply pellet_phase_cases in Hp
    as [->|[(row & (Hx & Hy & Hrow) & Hcell & ->)
           |[(row & (Hx & Hy & Hrow) & Hcell & ->)|(_ & _ & ->)]]];
    cbn [Main.maze Main.dots_eaten Main.set_dots_eaten Main.set_score
         Main.set_maze Main.set_ghosts Main.set_ghost_score
         Main.set_power_timer Main.set_fruit_active]; auto.
  - unfold cell_at in Hcell. rewrite Hrow in Hcell.
    destruct (clear_cell_counts _ _ _ _ _ Hx Hy Hrow Hcell) as [-> ->].
    unfold PELLET. cbn. split; [lia|right; lia].
  - unfold cell_at in Hcell. rewrite Hrow in Hcell.
    destruct (clear_cell_counts _ _ _ _ _ Hx Hy Hrow Hcell) as [-> ->].
    unfold POWER_PELLET. cbn. split; [lia|right; lia].
Qed.

Lemma playing_counts {R} `{Shuffle R} (fuel : nat)
    (level_config : LevelConfig) (r r' : R) (g g' : Main.t) :
  Main.playing fuel level_config r g = Ok (r', g') ->
  pellet_cells (Main.maze g') + Main.dots_eaten g'
  = pellet_cells (Main.maze g) + Main.dots_eaten g
  /\ (Main.pellets_left (Main.maze g') = Main.pellets_left (Main.maze g)
      \/ Main.pellets_left (Main.maze g') = Main.pellets_left (Main.maze g) - 1).
Proof.
  intros Hp. apply playing_phases in Hp as (p & gs & g1 & _ & _ & Hpel & ->).
  apply pellet_phase_counts in Hpel.
  destruct (score_phases_state
              (Main.level_complete_phase (Main.collision_phase g1)))
    as (_ & _ & _ & ->).
  destruct (tail_phases_static (Main.collision_phase g1))
    as (_ & _ & -> & _).
  destruct (level_complete_phase_keeps (Main.collision_phase g1)) as [-> _].
  destruct (collision_phase_keeps g1) as [-> _].
  destruct (collision_phase_static g1) as (_ & _ & _ & ->).
  destruct (fruit_phase_keeps
              (Main.power_phase (Main.set_ghosts (Main.set_pacman g p) gs)))
    as [Hm1 _].
  destruct (power_phase_keeps (Main.set_ghosts (Main.set_pacman g p) gs))
    as [Hm2 _].
  destruct (fruit_phase_static
              (Main.power_phase (Main.set_ghosts (Main.set_pacman g p) gs)))
    as (_ & _ & _ & _ & Hd1 & _).
  destruct (power_phase_static (Main.set_ghosts (Main.set_pacman g p) gs))
    as (_ & _ & _ & _ & Hd2 & _).
  rewrite Hm1, Hm2, Hd1, Hd2 in Hpel. exact Hpel.
Qed.

(** X9: within a level the dots-eaten counter counts exactly the PELLET
    cells that have gone from the grid: in every pass of the loop that
    starts outside LEVEL_COMPLETE and GAME_OVER the number of PELLET cells
    plus the counter stays the same, and the number of PELLET and
    POWER_PELLET cells left stays the same or goes down by one. *)
Theorem dots_eaten_counts_pellets {R} `{Shuffle R} (fuel : nat)
    (events : list event) (r r' : R) (g g' : Main.t) :
  Main.frame fuel events r g = Ok (r', g') ->
  Main.state g <> LEVEL_COMPLETE -> Main.state g <> GAME_OVER ->
  pellet_cells (Main.maze g') + Main.dots_eaten g'
  = pellet_cells (Main.maze g) + Main.dots_eaten g
  /\ (Main.pellets_left (Main.maze g') = Main.pellets_left (Main.maze g)
      \/ Main.pellets_left (Main.maze g') = Main.pellets_left (Main.maze g) - 1).
Proof.
  unfold Main.frame. intros Hf Hlc Hgo.
  bind_case Hf as level_config Ecfg.
  pose proof (handle_events_beyond_input events g) as Hbi.
  pose proof (handle_events_state events g) as Hst.
  set (g0 := fold_left Main.handle_event events g) in *.
  assert (Hmz : Main.maze g0 = Main.maze g)
    by (unfold beyond_input in Hbi; congruence).
  assert (Hde : Main.dots_eaten g0 = Main.dots_eaten g)
    by (unfold beyond_input in Hbi; congruence).
  rewrite <- Hmz, <- Hde.
  unfold Main.update_state in Hf.
  destruct (Main.state g0) eqn:Hs0;
    try (assert (Hsame : Main.maze g' = Main.maze g0
                         /\ Main.dots_eaten g' = Main.dots_eaten g0)
           by (revert Hf; break_ifs; intros Hf; inversion Hf; cbn; auto);
         destruct Hsame as [-> ->]; auto).
  - destruct (Main.level g0 =? 256).
    + inversion Hf; subst. cbn. auto.
    + eapply playing_counts. exact Hf.
  - destruct Hst as [Hst|[_ Hst]]; congruence.
  - destruct Hst as [Hst|[_ Hst]]; congruence.
Qed.

(** After the tick that eats the pellet of cell (1, 1) of a new maze the
    counter is 1 and 211 of the 212 pellets are left. *)
Lemma dots_eaten_counts_pellets_witness :
  exists g',
    Main.frame 2 [] tt
      (Main.set_pacman (Main.set_state Main.init PLAYING)
         (PacMan.set_pos PacMan.init 1 1))
    = Ok (tt, g')
    /\ Main.dots_eaten g' = 1
    /\ pellet_cells (Main.maze g') + Main.dots_eaten g' = 212.
Proof.
  destruct (Main.frame 2 [] tt
              (Main.set_pacman (Main.set_state Main.init PLAYING)
                 (PacMan.set_pos PacMan.init 1 1)))
    as [[r' g']|e] eqn:Hf; [|vm_compute in Hf; discriminate].
  assert (Hr : r' = tt) by now destruct r'. subst r'.
  exists g'. split; [reflexivity|].
  split; [vm_compute in Hf; inversion Hf; subst g'; reflexivity|].
  rewrite (proj1 (dots_eaten_counts_pellets 2 [] tt tt _ g' Hf
                    ltac:(discriminate) ltac:(discriminate))).
  reflexivity.
Defined.

(** ** How long the timers run *)

Lemma power_phase_tick (g : Main.t) :
  1 < Main.power_timer g ->
  Main.power_timer (Main.power_phase g) = Main.power_timer g - 1
  /\ Main.ghosts (Main.power_phase g) = Main.ghosts g
  /\ Main.ghost_score (Main.power_phase g) = Main.ghost_score g.
Proof.
  intros Ht. unfold Main.power_phase.
  destruct (Z.gtb_spec (Main.power_timer g) 0); [|lia]. cbn.
  destruct (Z.eqb_spec (Main.power_timer g - 1) 0); [lia|]. cbn. auto.
Qed.

Lemma power_phase_last_tick (g : Main.t) :
  Main.power_timer g = 1 ->
  Main.power_timer (Main.power_phase g) = 0
  /\ Main.ghosts (Main.power_phase g)
     = map (fun gh => Ghost.set_frightened gh false) (Main.ghosts g)
  /\ Main.ghost_score (Main.power_phase g) = 200.
Proof.
  intros Ht. unfold Main.power_phase. rewrite Ht. cbn. auto.
Qed.

Lemma power_phase_iter (k : nat) :
  forall g : Main.t,
    Z.of_nat k < Main.power_timer g ->
    Main.power_timer (Nat.iter k Main.power_phase g)
    = Main.power_timer g - Z.of_nat k
    /\ Main.ghosts (Nat.iter k Main.power_phase g) = Main.ghosts g
    /\ Main.ghost_score (Nat.iter k Main.power_phase g) = Main.ghost_score g.
Proof.
  induction k as [|k IH]; intros g Hk.
  - cbn. split; [lia|auto].
  - destruct (IH g ltac:(lia)) as (Ht & Hg & Hs).
    rewrite Nat.iter_succ.
    destruct (power_phase_tick (Nat.iter k Main.power_phase g) ltac:(lia))
      as (-> & -> & ->).
    split; [lia|auto].
Qed.

(** X10: a frightened time [T > 0] on the power timer lasts [T] ticks of
    the power-pellet timer: for the first [T - 1] ticks the timer counts
    down and the ghosts and the chain value are left alone, and the [T]-th
    tick brings the timer to 0, takes every ghost out of frightened mode
    and sets the chain value back to 200. *)
Theorem frightened_lasts_its_duration (g : Main.t) (n : nat) :
  Main.power_timer g = Z.of_nat (S n) ->
  (forall k, (k <= n)%nat ->
     Main.power_timer (Nat.iter k Main.power_phase g)
     = Z.of_nat (S n) - Z.of_nat k
     /\ Main.ghosts (Nat.iter k Main.power_phase g) = Main.ghosts g
     /\ Main.ghost_score (Nat.iter k Main.power_phase g) = Main.ghost_score g)
  /\ Main.power_timer (Nat.iter (S n) Main.power_phase g) = 0
  /\ Main.ghosts (Nat.iter (S n) Main.power_phase g)
     = map (fun gh => Ghost.set_frightened gh false) (Main.ghosts g)
  /\ Main.ghost_score (Nat.iter (S n) Main.power_phase g) = 200.
Proof.
  intros Ht. split.
  - intros k Hk. rewrite <- Ht. apply power_phase_iter. lia.
  - destruct (power_phase_iter n g ltac:(lia)) as (Hn & Hg & _).
    rewrite Nat.iter_succ.
    destruct (power_phase_last_tick (Nat.iter n Main.power_phase g)
                ltac:(lia)) as (-> & -> & ->).
    rewrite Hg. auto.
Qed.

Lemma frightened_lasts_its_duration_witness :
  Main.power_timer (Main.set_power_timer Main.init 360) = Z.of_nat 360
  /\ Main.power_timer
       (Nat.iter 360 Main.power_phase (Main.set_power_timer Main.init 360))
     = 0.
Proof.
  split; [reflexivity|].
  exact (proj1 (proj2 (frightened_lasts_its_duration
                         (Main.set_power_timer Main.init 360) 359 eq_refl))).
Defined.

Lemma fruit_phase_iter (k : nat) :
  forall g : Main.t,
    Main.fruit_active g = true -> Z.of_nat k < Main.fruit_timer g ->
    Main.fruit_active (Nat.iter k Main.fruit_phase g) = true
    /\ Main.fruit_timer (Nat.iter k Main.fruit_phase g)
       = Main.fruit_timer g - Z.of_nat k.
Proof.
  induction k as [|k IH]; intros g Ha Hk.
  - cbn. split; [exact Ha|lia].
  - destruct (IH g Ha ltac:(lia)) as (Ha' & Ht').
    rewrite Nat.iter_succ.
    destruct (fruit_phase_counts_down (Nat.iter k Main.fruit_phase g) Ha'
                ltac:(lia)) as (-> & ->).
    split; [reflexivity|lia].
Qed.

(** X11: a fruit that becomes active at a threshold is active for the
    599 ticks that follow the count reaching 70 or 170, its timer going
    from 599 down to 1, and is switched off by the 600th tick of the fruit
    timer (unless it is eaten before). *)
Theorem fruit_lasts_600_ticks (g : Main.t) :
  Main.dots_eaten g = 70 \/ Main.dots_eaten g = 170 ->
  Main.fruit_active g = false ->
  (forall k, (1 <= k <= 599)%nat ->
     Main.fruit_active (Nat.iter k Main.fruit_phase g) = true
     /\ Main.fruit_timer (Nat.iter k Main.fruit_phase g) = 600 - Z.of_nat k)
  /\ Main.fruit_active (Nat.iter 600 Main.fruit_phase g) = false.
Proof.
  intros Hd Ha.
  assert (H1 : Main.fruit_active (Main.fruit_phase g) = true
               /\ Main.fruit_timer (Main.fruit_phase g) = 599).
  { destruct g as [st sc hs lv le de pt it dt lt gs ft fa mz pm gh rn].
    cbn in Hd, Ha. subst fa. unfold Main.fruit_phase. cbn.
    destruct Hd as [->| ->]; cbn; auto. }
  destruct H1 as [Hact Htim].
  assert (Hk : forall k, (1 <= k <= 599)%nat ->
             Main.fruit_active (Nat.iter k Main.fruit_phase g) = true
             /\ Main.fruit_timer (Nat.iter k Main.fruit_phase g)
                = 600 - Z.of_nat k).
  { intros k Hk. destruct k as [|k]; [lia|].
    rewrite Nat.iter_succ_r.
    destruct (fruit_phase_iter k (Main.fruit_phase g) Hact ltac:(lia))
      as (-> & ->).
    split; [reflexivity|lia]. }
  split; [exact Hk|].
  destruct (Hk 599%nat ltac:(lia)) as [Ha599 Ht599].
  change 600%nat with (S 599). rewrite Nat.iter_succ.
  set (g599 := Nat.iter 599 Main.fruit_phase g) in *.
  destruct g599 as [st sc hs lv le de pt it dt lt gs ft fa mz pm gh rn].
  cbn in Ha599, Ht599. subst fa ft. unfold Main.fruit_phase. cbn.
  destruct ((de =? 70) || (de =? 170)); reflexivity.
Qed.

Lemma fruit_lasts_600_ticks_witness :
  Main.dots_eaten (Main.set_dots_eaten Main.init 170) = 170
  /\ Main.fruit_active (Main.set_dots_eaten Main.init 170) = false
  /\ Main.fruit_active
       (Nat.iter 600 Main.fruit_phase (Main.set_dots_eaten Main.init 170))
     = false.
Proof.
  split; [reflexivity|]. split; [reflexivity|].
  apply (fruit_lasts_600_ticks (Main.set_dots_eaten Main.init 170)).
  - right. reflexivity.
  - reflexivity.
Defined.

(** ** Targeting picks the first nearest direction *)

Lemma below_None (v : Z) : below v None = true.
Proof. reflexivity. Qed.

(** What the minimum search returns: the default, when nothing is below
    the bound it starts with, or else the first least element. *)
Lemma argmin_spec (f : Z * Z -> Z) :
  forall ds m b,
    (argmin f ds m b = b /\ forall e, e ∈ ds -> below (f e) m = false)
    \/ (below (f (argmin f ds m b)) m = true
        /\ first_min f ds (argmin f ds m b)).
Proof.
  induction ds as [|d ds IH]; intros m b; cbn [argmin].
  - left. split; [reflexivity|]. intros e He. now apply elem_of_nil in He.
  - destruct (below (f d) m) eqn:Hd.
    + right. destruct (IH (Some (f d)) d) as [[-> Hall]|[Hb (l1 & l2 & Hds & H1 & H2)]].
      * split; [exact Hd|]. exists [], ds. split; [reflexivity|].
        split; [intros e He; now apply elem_of_nil in He|].
        intros e He. specialize (Hall e He). cbn in Hall.
        apply Z.ltb_ge in Hall. exact Hall.
      * cbn in Hb. apply Z.ltb_lt in Hb. split.
        -- destruct m as [mv|]; [|reflexivity]. cbn in Hd |- *.
           apply Z.ltb_lt in Hd. apply Z.ltb_lt. lia.
        -- exists (d :: l1), l2. split; [cbn [app]; f_equal; exact Hds|].
           split; [|exact H2]. intros e He.
           apply elem_of_cons in He as [->|He]; [exact Hb|now apply H1].
    + destruct (IH m b) as [[-> Hall]|[Hb (l1 & l2 & Hds & H1 & H2)]].
      * left. split; [reflexivity|]. intros e He.
        apply elem_of_cons in He as [->|He]; [exact Hd|now apply Hall].
      * right. split; [exact Hb|].
        exists (d :: l1), l2. split; [cbn [app]; f_equal; exact Hds|].
        split; [|exact H2]. intros e He.
        apply elem_of_cons in He as [->|He]; [|now apply H1].
        destruct m as [mv|]; [|discriminate]. cbn in Hd, Hb.
        apply Z.ltb_ge in Hd. apply Z.ltb_lt in Hb. lia.
Qed.

Lemma argmin_first_min (f : Z * Z -> Z) (d : Z * Z) (ds : list (Z * Z))
    (b : Z * Z) :
  first_min f (d :: ds) (argmin f (d :: ds) None b).
Proof.
  destruct (argmin_spec f (d :: ds) None b) as [[_ Hall]|[_ Hmin]];
    [|exact Hmin].
  specialize (Hall d ltac:(apply elem_of_cons; now left)). discriminate.
Qed.

Lemma nearest_argmin (g : Ghost.t) (target : Z * Z) :
  forall ds m b,
    Ghost.nearest g target.1 target.2 ds m b = argmin (dist2 g target) ds m b.
Proof.
  induction ds as [|d ds IH]; intros m b; [reflexivity|].
  cbn [Ghost.nearest argmin]. unfold dist2 at 1 2. cbv zeta.
  destruct (below _ m); apply IH.
Qed.

(** The candidate list of [ai_move] is the filter that [candidates]
    spells out. *)
Lemma valid_loop_candidates (maze : list (list Z)) (g : Ghost.t)
    (opposite : Z * Z) :
  forall ds vs,
    Ghost.valid_loop maze g opposite ds = Ok vs ->
    vs = List.filter
           (fun d => negb (dir_eqb d opposite)
                     && passable maze (Ghost.x g + d.1) (Ghost.y g + d.2))
           ds.
Proof.
  induction ds as [|d ds IH]; intros vs Hv; cbn [Ghost.valid_loop] in Hv.
  - now inversion Hv.
  - bind_case Hv as ok Eok. bind_case Hv as rest Erest.
    inversion Hv; subst vs. cbn [List.filter]. rewrite <- (IH rest eq_refl).
    unfold passable.
    destruct (negb (dir_eqb d opposite)); cbn [andb].
    + rewrite Eok. now destruct ok.
    + inversion Eok; subst ok. reflexivity.
Qed.

(** X12: a pursuing ghost with at least one direction that is open and
    not its reverse takes, among those directions in the order up, down,
    left, right, the first one whose destination is nearest (in squared
    distance) to its personality's target: the player's cell for the
    chaser, four cells ahead of the player for the ambusher and for the
    fickle ghost, and for the pokey ghost the player's cell when the
    squared distance to the player exceeds 64 and the corner (0, 25)
    otherwise; with no such direction it takes the reverse. *)
Theorem pursuit_takes_first_nearest (maze : list (list Z))
    (pacman : PacMan.t) (g g' : Ghost.t) :
  Ghost.ai_move maze pacman g = Ok g' ->
  (candidates maze g = [] ->
   (Ghost.dx g', Ghost.dy g') = (- Ghost.dx g, - Ghost.dy g))
  /\ (candidates maze g <> [] ->
      first_min (dist2 g (pursuit_target g pacman)) (candidates maze g)
        (Ghost.dx g', Ghost.dy g')).
Proof.
  intros Ha. apply ai_move_nearest in Ha as (vs & best & Evs & _ & ->).
  apply valid_loop_candidates in Evs. fold (candidates maze g) in Evs.
  subst vs.
  cbn [Ghost.set_dir Ghost.dx Ghost.dy]. rewrite <- surjective_pairing.
  rewrite (nearest_argmin g (pursuit_target g pacman)).
  destruct (candidates maze g) as [|d ds] eqn:Hc.
  - split; [|congruence]. intros _.
    destruct (argmin_first_min (dist2 g (pursuit_target g pacman))
                (- Ghost.dx g, - Ghost.dy g) [] best)
      as (l1 & l2 & Hl & _).
    destruct l1 as [|e l1]; [now inversion Hl|].
    inversion Hl as [[He Hnil]]. now destruct l1.
  - split; [discriminate|]. intros _. apply argmin_first_min.
Qed.

(** The pokey ghost switches target on the distance 8: ten cells from a
    player at (14, 20) it is heading for the player, eight cells from the
    player it is heading for the corner (0, 25). *)
Lemma pursuit_takes_first_nearest_witness :
  pursuit_target (pokey_at 24 20) PacMan.init = (14, 20)
  /\ pursuit_target (pokey_at 22 20) PacMan.init = (0, 25)
  /\ exists g',
      Ghost.ai_move MAZE PacMan.init (pokey_at 24 20) = Ok g'
      /\ first_min (dist2 (pokey_at 24 20) (14, 20))
           (candidates MAZE (pokey_at 24 20)) (Ghost.dx g', Ghost.dy g').
Proof.
  split; [reflexivity|]. split; [reflexivity|].
  eexists. split; [vm_compute; reflexivity|].
  refine (proj2 (pursuit_takes_first_nearest MAZE PacMan.init
                   (pokey_at 24 20) _ eq_refl) _).
  vm_compute. discriminate.
Defined.

(** ** Eaten ghosts *)

(** The loop of [return_to_base] is the minimum search over the
    directions that pass the wall test. *)
Lemma base_loop_argmin (maze : list (list Z)) (g : Ghost.t) :
  forall ds m b r,
    Ghost.base_loop maze g ds m b = Ok r ->
    r = argmin (manhattan_home g)
          (List.filter
             (fun d => passable maze (Ghost.x g + d.1) (Ghost.y g + d.2)) ds)
          m b.
Proof.
  induction ds as [|d ds IH]; intros m b r Hb; cbn [Ghost.base_loop] in Hb.
  - now inversion Hb.
  - cbv zeta in Hb. bind_case Hb as ok Eok.
    cbn [List.filter]. unfold passable at 1. rewrite Eok.
    destruct ok.
    + cbn [argmin]. unfold manhattan_home at 1 2.
      destruct (below _ m); now apply IH.
    + now apply IH.
Qed.

(** X13: one step of an eaten ghost.  On the cell (14, 11) it comes back
    to life (neither eaten nor frightened) and keeps its direction;
    anywhere else it stays eaten and takes, among the directions whose
    destination passes the wall test (its reverse included), the first in
    the order up, down, left, right that is nearest to (14, 11) in
    Manhattan distance, or the null direction when none is open. *)
Theorem eaten_ghost_heads_home {R} `{Shuffle R} (maze : list (list Z))
    (pacman : PacMan.t) (r r' : R) (g g' : Ghost.t) :
  Ghost.step maze pacman r g = Ok (r', g') ->
  Ghost.eaten g = true ->
  r' = r
  /\ (Ghost.x g = 14 /\ Ghost.y g = 11 ->
      Ghost.eaten g' = false /\ Ghost.frightened g' = false
      /\ (Ghost.dx g', Ghost.dy g') = (Ghost.dx g, Ghost.dy g))
  /\ (~ (Ghost.x g = 14 /\ Ghost.y g = 11) ->
      Ghost.eaten g' = true
      /\ (open_directions maze g = [] ->
          (Ghost.dx g', Ghost.dy g') = (0, 0))
      /\ (open_directions maze g <> [] ->
          first_min (manhattan_home g) (open_directions maze g)
            (Ghost.dx g', Ghost.dy g'))).
Proof.
  unfold Ghost.step. intros Hs He. rewrite He in Hs.
  destruct (Z.ltb_spec (Z.abs (Ghost.x g - 14)) 1) as [Hx|Hx];
    [destruct (Z.ltb_spec (Z.abs (Ghost.y g - 11)) 1) as [Hy|Hy]|];
    cbn [andb bind] in Hs.
  - (* at home *)
    bind_case Hs as go Ego.
    assert (Hg' : r' = r
                  /\ Ghost.eaten g' = false /\ Ghost.frightened g' = false
                  /\ (Ghost.dx g', Ghost.dy g') = (Ghost.dx g, Ghost.dy g))
      by (destruct go; inversion Hs; subst; cbn; auto).
    destruct Hg' as (-> & Hg').
    split; [reflexivity|]. split; [intros _; exact Hg'|].
    intros Hnot. exfalso. apply Hnot. lia.
  - (* beside home, in the same column *)
    bind_case Hs as rg Eback. destruct rg as [r1 g1].
    bind_case Eback as g2 Eg2. inversion Eback; subst r1 g1. clear Eback.
    unfold Ghost.return_to_base in Eg2. bind_case Eg2 as best Ebest.
    inversion Eg2; subst g2. clear Eg2.
    apply base_loop_argmin in Ebest. fold (open_directions maze g) in Ebest.
    bind_case Hs as go Ego.
    assert (Hg' : r' = r /\ Ghost.eaten g' = true
                  /\ (Ghost.dx g', Ghost.dy g') = best)
      by (destruct go; inversion Hs; subst r' g'; cbn; rewrite He;
          rewrite <- surjective_pairing; auto).
    destruct Hg' as (-> & He' & Hd').
    split; [reflexivity|]. split; [intros [? ?]; lia|].
    intros _. split; [exact He'|]. rewrite Hd', Ebest.
    destruct (open_directions maze g) as [|d ds].
    + split; [reflexivity|congruence].
    + split; [discriminate|]. intros _. apply argmin_first_min.
  - (* in another column *)
    bind_case Hs as rg Eback. destruct rg as [r1 g1].
    bind_case Eback as g2 Eg2. inversion Eback; subst r1 g1. clear Eback.
    unfold Ghost.return_to_base in Eg2. bind_case Eg2 as best Ebest.
    inversion Eg2; subst g2. clear Eg2.
    apply base_loop_argmin in Ebest. fold (open_directions maze g) in Ebest.
    bind_case Hs as go Ego.
    assert (Hg' : r' = r /\ Ghost.eaten g' = true
                  /\ (Ghost.dx g', Ghost.dy g') = best)
      by (destruct go; inversion Hs; subst r' g'; cbn; rewrite He;
          rewrite <- surjective_pairing; auto).
    destruct Hg' as (-> & He' & Hd').
    split; [reflexivity|]. split; [intros [? ?]; lia|].
    intros _. split; [exact He'|]. rewrite Hd', Ebest.
    destruct (open_directions maze g) as [|d ds].
    + split; [reflexivity|congruence].
    + split; [discriminate|]. intros _. apply argmin_first_min.
Qed.

(** An eaten ghost on the home cell: after the step it is in pursuit. *)
Lemma eaten_ghost_heads_home_witness :
  exists g',
    Ghost.step MAZE PacMan.init tt
      (Ghost.set_eaten (Ghost.reset (Ghost.make 14 11 "ambusher")) true)
    = Ok (tt, g')
    /\ Ghost.eaten g' = false /\ Ghost.frightened g' = false.
Proof.
  eexists. split; [vm_compute; reflexivity|].
  destruct (eaten_ghost_heads_home MAZE PacMan.init tt tt
              (Ghost.set_eaten (Ghost.reset (Ghost.make 14 11 "ambusher"))
                 true) _ eq_refl eq_refl) as (_ & Hhome & _).
  destruct (Hhome ltac:(split; reflexivity)) as (He & Hf & _).
  split; [exact He|exact Hf].
Defined.
